(** * rag-charity-chatbot: chunking, retrieval and context building

    A shallow embedding of the retrieval core of the repository
    ([src/embeddings/chunking.py], [src/embeddings/embedding_generator.py],
    [src/vector_db/chromadb_handler.py], [src/retrieval/retriever.py]) and
    of its callers ([src/embeddings/embedding_pipeline.py],
    [src/rag/rag_system.py], [src/rag/conversation_manager.py],
    [src/llm/prompt_templates.py]), together with the properties the
    specification states about it.

    Conventions of the embedding.
    - A Python [str] is a [string]; its characters are code points below 256.
    - A Python [int] is a [Z].  Word and token counts are computed in [Z]:
      where the source goes through binary64 ([words / 0.75], [n // 0.75],
      [int(chunk_size * 0.75)]) the model takes the integer quotient of
      [4 * n] by 3 (resp. of [3 * n] by 4); 0.75 is a binary64 number, and
      [binary64_quotients_agree] checks the two against the binary64
      computation for the counts up to 4096.
    - A similarity score is a binary64 [float]; only its comparisons and the
      subtraction [1 - distance] are used.
    - The embedding model, the Chroma collections and client, the LLM
      provider and the logger called with a keyword argument are external:
      they appear as functions that return a value or raise. *)

From Stdlib Require Import ZArith List Bool Lia Ascii String Sorted.
From Stdlib Require Import Floats.
From Stdlib Require Uint63.
From stdpp Require Import base option list strings pretty gmap.

Local Open Scope string_scope.
Local Open Scope list_scope.
Local Open Scope Z_scope.

(** ** Python string primitives *)

Module PyStr.

(** [str.isspace] on the code points below 256: TAB, LF, VT, FF, CR,
    FS, GS, RS, US, SPACE, NEL and NBSP. *)
Definition is_space (c : ascii) : bool :=
  let n := N_of_ascii c in
  (((9 <=? n) && (n <=? 13)) || ((28 <=? n) && (n <=? 32))
   || (n =? 133) || (n =? 160))%N.

(** [cur] is the word being read, [s] what is left of the text. *)
Fixpoint split_from (cur : string) (s : string) : list string :=
  match s with
  | EmptyString => match cur with EmptyString => [] | _ => [cur] end
  | String c s' =>
      if is_space c then
        match cur with
        | EmptyString => split_from EmptyString s'
        | _ => cur :: split_from EmptyString s'
        end
      else split_from (cur +:+ String c EmptyString) s'
  end.

(** [text.split()]: the maximal runs of non-whitespace characters. *)
Definition split (text : string) : list string := split_from EmptyString text.

(** [sep.join(parts)]. *)
Fixpoint join (sep : string) (parts : list string) : string :=
  match parts with
  | [] => EmptyString
  | [p] => p
  | p :: rest => p +:+ sep +:+ join sep rest
  end.

(** [text.split('\n\n')]: cut at every non-overlapping blank-line
    separator, scanning from the left; empty pieces are kept. *)
Fixpoint split_blank_from (cur : string) (s : string) : list string :=
  match s with
  | EmptyString => [cur]
  | String c s' =>
      match s' with
      | String c' s'' =>
          if (Ascii.eqb c "010" && Ascii.eqb c' "010")%bool
          then cur :: split_blank_from EmptyString s''
          else split_blank_from (cur +:+ String c EmptyString) s'
      | EmptyString => [cur +:+ String c EmptyString]
      end
  end.

Definition split_blank (text : string) : list string :=
  split_blank_from EmptyString text.

Fixpoint lstrip (s : string) : string :=
  match s with
  | EmptyString => EmptyString
  | String c s' => if is_space c then lstrip s' else s
  end.

Fixpoint rstrip (s : string) : string :=
  match s with
  | EmptyString => EmptyString
  | String c s' =>
      match rstrip s' with
      | EmptyString => if is_space c then EmptyString else String c EmptyString
      | r => String c r
      end
  end.

(** [text.strip()]. *)
Definition strip (s : string) : string := rstrip (lstrip s).

(** [bool(text)]: a string is truthy when it is not empty. *)
Definition truthy (s : string) : bool :=
  match s with EmptyString => false | _ => true end.

(** [text.lower()] on the code points below 256: the letters A-Z and the
    accented capitals 192-222 (215, the multiplication sign, apart) move up
    by 32. *)
Definition lower_char (c : ascii) : ascii :=
  let n := N_of_ascii c in
  if (((65 <=? n) && (n <=? 90))
      || ((192 <=? n) && (n <=? 222) && negb (n =? 215)))%N
  then ascii_of_N (n + 32) else c.

Fixpoint lower (s : string) : string :=
  match s with
  | EmptyString => EmptyString
  | String c s' => String (lower_char c) (lower s')
  end.

(** [text.replace(" ", "_")]. *)
Fixpoint replace_space (s : string) : string :=
  match s with
  | EmptyString => EmptyString
  | String c s' =>
      String (if Ascii.eqb c " " then "_"%char else c) (replace_space s')
  end.

(** The line feed. *)
Definition nl : string := String "010" EmptyString.

(** A word: non-empty and free of whitespace. *)
Fixpoint no_space (s : string) : bool :=
  match s with
  | EmptyString => true
  | String c s' => negb (is_space c) && no_space s'
  end.

Definition is_word (s : string) : bool := truthy s && no_space s.

End PyStr.

(** ** Python list slicing *)

(** The index a slice bound denotes in a list of length [len]: a negative
    bound counts from the end, and the result is clipped to [0, len]. *)
Definition slice_bound (len i : Z) : Z :=
  if i <? 0 then Z.max 0 (len + i) else Z.min i len.

(** [xs[lo:hi]]. *)
Definition py_slice {A} (xs : list A) (lo hi : Z) : list A :=
  let len := Z.of_nat (length xs) in
  let a := slice_bound len lo in
  let b := slice_bound len hi in
  take (Z.to_nat (b - a)) (drop (Z.to_nat a) xs).

(** [xs[:k]]. *)
Definition py_prefix {A} (xs : list A) (k : Z) : list A :=
  take (Z.to_nat (slice_bound (Z.of_nat (length xs)) k)) xs.

(** [int(x * 0.75)] for an integer [x]: truncation toward zero. *)
Definition int_three_quarters (x : Z) : Z := Z.quot (3 * x) 4.

(** *** The binary64 computations behind the integer quotients *)

(** [float(n)] for a count [n]. *)
Definition float_of_count (n : Z) : float := PrimFloat.of_uint63 (Uint63.of_Z n).

(** [int(x)] for a finite binary64 [x]: truncation toward zero. *)
Definition int_of_float (x : float) : Z :=
  match Prim2SF x with
  | S754_finite s m e =>
      let magnitude :=
        if 0 <=? e then Z.pos m * 2 ^ e else Z.pos m / 2 ^ (- e) in
      if s then - magnitude else magnitude
  | _ => 0
  end.

(** [int(n / 0.75)] and [int(n * 0.75)] as the source computes them. *)
Definition float_tokens (n : Z) : Z :=
  int_of_float (float_of_count n / 0.75)%float.

Definition float_three_quarters (n : Z) : Z :=
  int_of_float (float_of_count n * 0.75)%float.

(** A Python number: an [int] or a [float]. *)
Inductive PyNum :=
| PInt (n : Z)
| PFloat (x : float).

(** [a / b] for two counts: the true division of Python, a [float]. *)
Definition true_div (a b : Z) : float :=
  (float_of_count a / float_of_count b)%float.

(** [sum(xs)], [min(xs)] and [max(xs)] for a list of integers; [min] and
    [max] are applied to non-empty lists only. *)
Definition py_sum (xs : list Z) : Z := foldr Z.add 0 xs.

Definition py_min (xs : list Z) : Z :=
  match xs with
  | [] => 0
  | x :: xs => fold_left Z.min xs x
  end.

Definition py_max (xs : list Z) : Z :=
  match xs with
  | [] => 0
  | x :: xs => fold_left Z.max xs x
  end.

(** ** Token estimator ([TokenCounter]) *)

Module TokenCounter.

(** [len(text.split())]. *)
Definition word_count (text : string) : Z :=
  Z.of_nat (length (PyStr.split text)).

(** [max(1, int(words / 0.75))]. *)
Definition estimate_tokens (text : string) : Z :=
  let words := word_count text in
  Z.max 1 (Z.quot (4 * words) 3).

Definition count_tokens_in_chunk (text : string) : Z := estimate_tokens text.

(** The estimator as the specification words it:
    [max(1, round(word_count / 0.75))], with Python's [round] (to nearest,
    ties to even) on the rational [4 * words / 3]. *)
Definition round_quotient (a b : Z) : Z :=
  let q := a / b in
  let r := a mod b in
  if 2 * r <? b then q
  else if b <? 2 * r then q + 1
  else if Z.even q then q else q + 1.

Definition spec_estimate (text : string) : Z :=
  Z.max 1 (round_quotient (4 * word_count text) 3).

End TokenCounter.

(** ** Document chunker ([DocumentChunker])

    The fixed-size, the paragraph and the sentence-based strategies,
    [_chunk_fixed_size], [_chunk_paragraph] and [_chunk_semantic], their
    dispatch and [evaluate_chunking]. *)

Module DocumentChunker.

Import TokenCounter.

Record ChunkConfig := {
  chunk_size : Z;
  overlap : Z;
  strategy : string;
  min_chunk_size : Z
}.

(** The defaults of the dataclass. *)
Definition default_config : ChunkConfig :=
  {| chunk_size := 512; overlap := 50; strategy := "semantic";
     min_chunk_size := 100 |}.

(** A chunk dictionary.  [id] is the key ['id']; [start_idx] and [end_idx]
    are present only in chunks of the fixed strategy. *)
Record Chunk := {
  id : string;
  text : string;
  start_idx : option Z;
  end_idx : option Z;
  token_count : Z;
  metadata : gmap string string
}.

(** [f"chunk_{chunk_id}"]. *)
Definition chunk_name (chunk_id : Z) : string := "chunk_" +:+ pretty chunk_id.

(** [metadata or {}]. *)
Definition metadata_or_empty (metadata : option (gmap string string))
  : gmap string string := default ∅ metadata.

Definition words_per_chunk (config : ChunkConfig) : Z :=
  int_three_quarters (chunk_size config).

Definition overlap_words (config : ChunkConfig) : Z :=
  int_three_quarters (overlap config).

(** *** Fixed-size strategy *)

(** The outcome of one pass through the body of the [while] loop. *)
Inductive LoopStep :=
| Continue (start_idx chunk_id : Z) (chunks : list Chunk)
| Break (chunks : list Chunk).

(** The window the pass at [start_idx] looks at. *)
Definition window_end (config : ChunkConfig) (words : list string)
    (start_idx : Z) : Z :=
  Z.min (start_idx + words_per_chunk config) (Z.of_nat (length words)).

Definition window_text (config : ChunkConfig) (words : list string)
    (start_idx : Z) : string :=
  PyStr.join " " (py_slice words start_idx (window_end config words start_idx)).

(** The dictionary appended for the window at [start_idx]. *)
Definition window_chunk (config : ChunkConfig)
    (metadata : option (gmap string string)) (words : list string)
    (start_idx chunk_id : Z) : Chunk :=
  let end_idx := window_end config words start_idx in
  let chunk_text := window_text config words start_idx in
  {| id := chunk_name chunk_id;
     text := chunk_text;
     start_idx := Some start_idx;
     end_idx := Some end_idx;
     token_count := count_tokens_in_chunk chunk_text;
     metadata := metadata_or_empty metadata |}.

(** The body of the loop, entered with [start_idx < len(words)]. *)
Definition fixed_step (config : ChunkConfig)
    (metadata : option (gmap string string)) (words : list string)
    (start_idx chunk_id : Z) (chunks : list Chunk) : LoopStep :=
  let end_idx := window_end config words start_idx in
  let chunk_text := window_text config words start_idx in
  let '(chunks, chunk_id) :=
    if min_chunk_size config <=? count_tokens_in_chunk chunk_text then
      (chunks ++ [window_chunk config metadata words start_idx chunk_id],
       chunk_id + 1)
    else (chunks, chunk_id) in
  let next_start_idx := end_idx - overlap_words config in
  if (start_idx <=? next_start_idx) && (end_idx =? Z.of_nat (length words))
  then Break chunks
  else Continue (Z.max next_start_idx (start_idx + 1)) chunk_id chunks.

(** The [while] loop; every pass through the body uses one unit of [fuel],
    and [None] means the fuel ran out before the loop was left. *)
Fixpoint fixed_loop (fuel : nat) (config : ChunkConfig)
    (metadata : option (gmap string string)) (words : list string)
    (start_idx chunk_id : Z) (chunks : list Chunk) : option (list Chunk) :=
  if start_idx <? Z.of_nat (length words) then
    match fuel with
    | O => None
    | S fuel =>
        match fixed_step config metadata words start_idx chunk_id chunks with
        | Break chunks => Some chunks
        | Continue start_idx chunk_id chunks =>
            fixed_loop fuel config metadata words start_idx chunk_id chunks
        end
    end
  else Some chunks.

(** The loop run from the initial state on the words of [text], with one
    unit of fuel per word. *)
Definition run_fixed (config : ChunkConfig)
    (metadata : option (gmap string string)) (text : string)
  : option (list Chunk) :=
  let words := PyStr.split text in
  fixed_loop (length words) config metadata words 0 0 [].

Definition _chunk_fixed_size (config : ChunkConfig) (text : string)
    (metadata : option (gmap string string)) : list Chunk :=
  default [] (run_fixed config metadata text).

(** *** Paragraph strategy *)

(** The chunk the accumulated paragraphs are flushed into. *)
Definition paragraph_chunk (metadata : option (gmap string string))
    (chunk_id : Z) (current_chunk : list string) (current_tokens : Z) : Chunk :=
  {| id := chunk_name chunk_id;
     text := PyStr.join (PyStr.nl +:+ PyStr.nl) current_chunk;
     start_idx := None;
     end_idx := None;
     token_count := current_tokens;
     metadata := metadata_or_empty metadata |}.

(** [bool(current_chunk)]. *)
Definition nonempty {A} (l : list A) : bool :=
  match l with [] => false | _ => true end.

(** The state of the paragraph loop. *)
Record ParagraphState := {
  chunks : list Chunk;
  current_chunk : list string;
  current_tokens : Z;
  chunk_id : Z
}.

(** [sub_chunk['id'] = new_id]. *)
Definition set_id (sub_chunk : Chunk) (new_id : string) : Chunk :=
  {| id := new_id;
     text := text sub_chunk;
     start_idx := start_idx sub_chunk;
     end_idx := end_idx sub_chunk;
     token_count := token_count sub_chunk;
     metadata := metadata sub_chunk |}.

(** [for sub_chunk in sub_chunks: sub_chunk['id'] = ...; chunks.append(...)]. *)
Fixpoint splice (sub_chunks : list Chunk) (chunks : list Chunk) (chunk_id : Z)
  : list Chunk * Z :=
  match sub_chunks with
  | [] => (chunks, chunk_id)
  | sub_chunk :: rest =>
      splice rest (chunks ++ [set_id sub_chunk (chunk_name chunk_id)])
        (chunk_id + 1)
  end.

(** The body of [for para in paragraphs]. *)
Definition paragraph_step (config : ChunkConfig)
    (metadata : option (gmap string string))
    (st : ParagraphState) (para : string) : ParagraphState :=
  let para := PyStr.strip para in
  if negb (PyStr.truthy para) then st
  else
    let para_tokens := count_tokens_in_chunk para in
    if chunk_size config <? para_tokens then
      let st :=
        if nonempty (current_chunk st) then
          {| chunks := chunks st ++
                       [paragraph_chunk metadata (chunk_id st)
                          (current_chunk st) (current_tokens st)];
             current_chunk := [];
             current_tokens := 0;
             chunk_id := chunk_id st + 1 |}
        else st in
      let sub_chunks := _chunk_fixed_size config para metadata in
      let '(chunks', chunk_id') := splice sub_chunks (chunks st) (chunk_id st) in
      {| chunks := chunks';
         current_chunk := current_chunk st;
         current_tokens := current_tokens st;
         chunk_id := chunk_id' |}
    else if current_tokens st + para_tokens <=? chunk_size config then
      {| chunks := chunks st;
         current_chunk := current_chunk st ++ [para];
         current_tokens := current_tokens st + para_tokens;
         chunk_id := chunk_id st |}
    else
      let st :=
        if nonempty (current_chunk st) then
          {| chunks := chunks st ++
                       [paragraph_chunk metadata (chunk_id st)
                          (current_chunk st) (current_tokens st)];
             current_chunk := current_chunk st;
             current_tokens := current_tokens st;
             chunk_id := chunk_id st + 1 |}
        else st in
      {| chunks := chunks st;
         current_chunk := [para];
         current_tokens := para_tokens;
         chunk_id := chunk_id st |}.

Definition _chunk_paragraph (config : ChunkConfig) (text : string)
    (metadata : option (gmap string string)) : list Chunk :=
  let paragraphs := PyStr.split_blank text in
  let st :=
    fold_left (paragraph_step config metadata) paragraphs
      {| chunks := []; current_chunk := []; current_tokens := 0;
         chunk_id := 0 |} in
  if nonempty (current_chunk st) then
    chunks st ++ [paragraph_chunk metadata (chunk_id st)
                    (current_chunk st) (current_tokens st)]
  else chunks st.

(** *** Sentence-based strategy *)

(** [.], [!] or [?]. *)
Definition is_stop (c : ascii) : bool :=
  Ascii.eqb c "." || Ascii.eqb c "!" || Ascii.eqb c "?".

(** [A-Z]. *)
Definition is_capital (c : ascii) : bool :=
  let n := N_of_ascii c in ((65 <=? n) && (n <=? 90))%N.

(** [re.split(r'(?<=[.!?]) +(?=[A-Z])', text)], read from the left.  A
    separator is a maximal run of spaces that follows a [.], [!] or [?] and is
    followed by a capital letter.  [cur] is the piece being read, [pending]
    the run of spaces after a stop that may turn out to be a separator, and
    [after_stop] says that the character just read is a stop. *)
Fixpoint split_sentences_from (cur pending : string) (after_stop : bool)
    (s : string) : list string :=
  match s with
  | EmptyString => [cur +:+ pending]
  | String c s' =>
      if Ascii.eqb c " " then
        match pending with
        | EmptyString =>
            if after_stop
            then split_sentences_from cur " " false s'
            else split_sentences_from (cur +:+ " ") EmptyString false s'
        | _ => split_sentences_from cur (pending +:+ " ") false s'
        end
      else
        match pending with
        | EmptyString =>
            split_sentences_from (cur +:+ String c EmptyString) EmptyString
              (is_stop c) s'
        | _ =>
            if is_capital c
            then cur :: split_sentences_from (String c EmptyString) EmptyString
                          (is_stop c) s'
            else split_sentences_from
                   (cur +:+ pending +:+ String c EmptyString) EmptyString
                   (is_stop c) s'
        end
  end.

(** [[s.strip() for s in sentences if s.strip()]]. *)
Definition _split_into_sentences (text : string) : list string :=
  List.filter PyStr.truthy
    (map PyStr.strip (split_sentences_from EmptyString EmptyString false text)).

(** The chunk the accumulated sentences are flushed into: [''.join]. *)
Definition semantic_chunk (metadata : option (gmap string string))
    (chunk_id : Z) (current_chunk : list string) (current_tokens : Z) : Chunk :=
  {| id := chunk_name chunk_id;
     text := PyStr.join EmptyString current_chunk;
     start_idx := None;
     end_idx := None;
     token_count := current_tokens;
     metadata := metadata_or_empty metadata |}.

(** The body of [for sentence in sentences]. *)
Definition semantic_step (config : ChunkConfig)
    (metadata : option (gmap string string))
    (st : ParagraphState) (sentence : string) : ParagraphState :=
  let sentence := PyStr.strip sentence in
  if negb (PyStr.truthy sentence) then st
  else
    let sentence_tokens := count_tokens_in_chunk sentence in
    if current_tokens st + sentence_tokens <=? chunk_size config then
      {| chunks := chunks st;
         current_chunk := current_chunk st ++ [sentence];
         current_tokens := current_tokens st + sentence_tokens;
         chunk_id := chunk_id st |}
    else
      let st :=
        if nonempty (current_chunk st) then
          {| chunks := chunks st ++
                       [semantic_chunk metadata (chunk_id st)
                          (current_chunk st) (current_tokens st)];
             current_chunk := current_chunk st;
             current_tokens := current_tokens st;
             chunk_id := chunk_id st + 1 |}
        else st in
      {| chunks := chunks st;
         current_chunk := [sentence];
         current_tokens := sentence_tokens;
         chunk_id := chunk_id st |}.

Definition _chunk_semantic (config : ChunkConfig) (text : string)
    (metadata : option (gmap string string)) : list Chunk :=
  let sentences := _split_into_sentences text in
  let st :=
    fold_left (semantic_step config metadata) sentences
      {| chunks := []; current_chunk := []; current_tokens := 0;
         chunk_id := 0 |} in
  if nonempty (current_chunk st) then
    chunks st ++ [semantic_chunk metadata (chunk_id st)
                    (current_chunk st) (current_tokens st)]
  else chunks st.

(** *** Dispatch and evaluation *)

(** [chunk_document]: any strategy other than ["semantic"] and
    ["paragraph"] is the fixed-size one. *)
Definition chunk_document (config : ChunkConfig) (text : string)
    (metadata : option (gmap string string)) : list Chunk :=
  if String.eqb (strategy config) "semantic"
  then _chunk_semantic config text metadata
  else if String.eqb (strategy config) "paragraph"
  then _chunk_paragraph config text metadata
  else _chunk_fixed_size config text metadata.

(** The dictionary [evaluate_chunking] returns. *)
Record ChunkingStats := {
  total_chunks : Z;
  avg_tokens : PyNum;
  min_tokens : Z;
  max_tokens : Z;
  total_tokens : Z
}.

Definition evaluate_chunking (chunks : list Chunk) : ChunkingStats :=
  let token_counts := map token_count chunks in
  {| total_chunks := Z.of_nat (length chunks);
     avg_tokens :=
       if nonempty token_counts
       then PFloat (true_div (py_sum token_counts)
                      (Z.of_nat (length token_counts)))
       else PInt 0;
     min_tokens := if nonempty token_counts then py_min token_counts else 0;
     max_tokens := if nonempty token_counts then py_max token_counts else 0;
     total_tokens := py_sum token_counts |}.

(** *** Properties of the loops *)

(** What the paragraph loop maintains: the chunks made so far respect the
    bound, and so does the running total of a chunk under construction. *)
Definition paragraph_invariant (config : ChunkConfig) (st : ParagraphState)
  : Prop :=
  Forall (fun c => token_count c <= Z.max 1 (chunk_size config)) (chunks st)
  /\ (nonempty (current_chunk st) = true ->
      current_tokens st <= chunk_size config).

(** The word of [words] at index [i] lies in the window of one of the
    chunks. *)
Definition covered (words : list string) (chunks : list Chunk) (i : Z) : Prop :=
  exists c a b,
    In c chunks /\ 0 <= a <= i /\ i < b <= Z.of_nat (length words)
    /\ text c = PyStr.join " " (py_slice words a b).

(** The chunks carry the ids [chunk_0], [chunk_1], ... in their order. *)
Definition numbered (chunks : list Chunk) : Prop :=
  forall i c, chunks !! i = Some c -> id c = chunk_name (Z.of_nat i).

(** The sum of the token estimates of the pieces of a group. *)
Definition group_tokens (group : list string) : Z :=
  py_sum (map count_tokens_in_chunk group).

(** The chunks made of consecutive groups of pieces: the chunk at position
    [i] is built from [i], the group and the group's token sum. *)
Definition chunks_of_groups (build : Z -> list string -> Z -> Chunk)
    (groups : list (list string)) : list Chunk :=
  imap (fun i group => build (Z.of_nat i) group (group_tokens group)) groups.

(** A piece as the loops take it: stripped and not empty. *)
Definition clean (piece : string) : Prop :=
  PyStr.strip piece = piece /\ PyStr.truthy piece = true.

(** What the paragraph loop (on a paragraph that is not split) and the
    sentence loop do with a clean piece; [build] makes the flushed chunk. *)
Definition group_step (build : Z -> list string -> Z -> Chunk)
    (config : ChunkConfig) (st : ParagraphState) (piece : string)
  : ParagraphState :=
  let tokens := count_tokens_in_chunk piece in
  if current_tokens st + tokens <=? chunk_size config then
    {| chunks := chunks st;
       current_chunk := current_chunk st ++ [piece];
       current_tokens := current_tokens st + tokens;
       chunk_id := chunk_id st |}
  else
    {| chunks := if nonempty (current_chunk st)
                 then chunks st ++ [build (chunk_id st) (current_chunk st)
                                      (current_tokens st)]
                 else chunks st;
       current_chunk := [piece];
       current_tokens := tokens;
       chunk_id := if nonempty (current_chunk st)
                   then chunk_id st + 1 else chunk_id st |}.

(** The state of a grouping loop after the pieces [seen]: the chunks are
    those of the closed groups, and the open group is [current_chunk]. *)
Definition grouping (build : Z -> list string -> Z -> Chunk)
    (config : ChunkConfig) (seen : list string) (st : ParagraphState) : Prop :=
  exists groups,
    concat groups ++ current_chunk st = seen
    /\ Forall (fun group => nonempty group = true) groups
    /\ Forall (fun group => group_tokens group <= chunk_size config
                           \/ length group = 1%nat) groups
    /\ chunks st = chunks_of_groups build groups
    /\ chunk_id st = Z.of_nat (length groups)
    /\ current_tokens st = group_tokens (current_chunk st)
    /\ (group_tokens (current_chunk st) <= chunk_size config
        \/ length (current_chunk st) = 1%nat
        \/ current_chunk st = []).

(** The chunk is the window of [words] that starts at word [start], and
    its token estimate reaches [min_chunk_size]. *)
Definition is_window (config : ChunkConfig)
    (metadata : option (gmap string string)) (words : list string)
    (c : Chunk) (start : Z) : Prop :=
  0 <= start < Z.of_nat (length words)
  /\ start_idx c = Some start
  /\ end_idx c = Some (window_end config words start)
  /\ text c = window_text config words start
  /\ token_count c = count_tokens_in_chunk (text c)
  /\ min_chunk_size config <= token_count c
  /\ DocumentChunker.metadata c = metadata_or_empty metadata.

(** A string of whitespace only. *)
Fixpoint all_space (s : string) : bool :=
  match s with
  | EmptyString => true
  | String c s' => PyStr.is_space c && all_space s'
  end.

End DocumentChunker.

(** ** Exceptions and the state-and-exception monad *)

(** A raised instance of Python's [Exception]: its class name and message.
    These are what the embedding model, the Chroma client and the list
    operations raise; on them a bare [except:] and [except Exception] catch
    the same. *)
Record PyExc := { exc_class : string; exc_message : string }.

Inductive Res (A : Type) :=
| Ok (a : A)
| Raise (e : PyExc).
Arguments Ok {A} a.
Arguments Raise {A} e.

(** A computation over a mutable state [S] that returns or raises; what it
    wrote to the state before raising stays written. *)
Definition M (S A : Type) : Type := S -> Res A * S.

Definition ret {S A} (a : A) : M S A := fun s => (Ok a, s).

Definition bind {S A B} (m : M S A) (f : A -> M S B) : M S B :=
  fun s => match m s with
           | (Ok a, s') => f a s'
           | (Raise e, s') => (Raise e, s')
           end.

Definition lift {S A} (r : Res A) : M S A := fun s => (r, s).

Definition modify {S} (f : S -> S) : M S unit := fun s => (Ok tt, f s).

Definition when {S} (b : bool) (m : M S unit) : M S unit :=
  if b then m else ret tt.

(** [try: body  except Exception as e: handler e]. *)
Definition try_except {S A} (body : M S A) (handler : PyExc -> M S A) : M S A :=
  fun s => match body s with
           | (Ok a, s') => (Ok a, s')
           | (Raise e, s') => handler e s'
           end.

Notation "'let*' x := m 'in' k" := (bind m (fun x => k))
  (at level 10, x name, m at level 100, k at level 200).
Notation "m ;; k" := (bind m (fun _ => k))
  (at level 100, k at level 200, right associativity).

(** ** Vector database wrapper ([ChromaVectorDB]) *)

Module ChromaVectorDB.

(** What [collection.query] returns for one query embedding: the value of
    the keys ['documents'], ['metadatas'] and ['distances'], each a list
    with one inner list per query. *)
Record QueryResult := {
  documents : list (list string);
  metadatas : list (list (gmap string string));
  distances : list (list float)
}.

(** A Chroma collection, seen from the wrapper: its name and its [query]
    method, which answers or raises.  The arguments of [query] are the query
    embedding, [n_results] and the [where] filter on [charity_name]. *)
Record Collection := {
  name : string;
  query : list float -> Z -> option string -> Res QueryResult
}.

(** [client] is the set of collections the persistent client holds, by
    name; [collection] is the one currently selected. *)
Record t := {
  client : gmap string Collection;
  collection : option Collection
}.

(** An item of a search result. *)
Record RetrievedResult := {
  rank : Z;
  text : string;
  similarity : float;
  metadata : gmap string string
}.

(** [self.client.get_collection(name=name)] raises when the client holds no
    collection of that name. *)
Definition client_get_collection (db : t) (name : string) : Res Collection :=
  match client db !! name with
  | Some c => Ok c
  | None => Raise {| exc_class := "NotFoundError";
                     exc_message := "Collection " +:+ name +:+ " does not exist" |}
  end.

(** [get_collection]: selects the collection, or logs and re-raises. *)
Definition get_collection (name : string) : M t unit :=
  try_except
    (let* c := (fun db => (client_get_collection db name, db)) in
     modify (fun db => {| client := client db; collection := Some c |}))
    (fun e => lift (Raise e)).

(** [zip(a, b, c)]. *)
Fixpoint zip3 {A B C} (a : list A) (b : list B) (c : list C)
  : list (A * B * C) :=
  match a, b, c with
  | x :: a, y :: b, z :: c => (x, y, z) :: zip3 a b c
  | _, _, _ => []
  end.

(** [xs[0]] of a list. *)
Definition first_item {A} (xs : list A) : Res A :=
  match xs with
  | x :: _ => Ok x
  | [] => Raise {| exc_class := "IndexError";
                   exc_message := "list index out of range" |}
  end.

(** The [for i, (doc, meta, distance) in enumerate(zip(...))] loop, from
    index [i] on. *)
Fixpoint format_results (i : Z)
    (rows : list (string * gmap string string * float)) (threshold : float)
  : list RetrievedResult :=
  match rows with
  | [] => []
  | (doc, meta, distance) :: rows =>
      let similarity := (1 - distance)%float in
      if (threshold <=? similarity)%float then
        {| rank := i + 1; text := doc; similarity := similarity;
           metadata := meta |} :: format_results (i + 1) rows threshold
      else format_results (i + 1) rows threshold
  end.

(** [{'charity_name': name} if name else None], as the name it filters on. *)
Definition where_filter (name : option string) : option string :=
  match name with
  | Some n => if PyStr.truthy n then Some n else None
  | None => None
  end.

(** The body of the [try] of [search]. *)
Definition search_body (col : Collection) (query_embedding : list float)
    (n_results : Z) (name : option string) (threshold : float)
  : Res (list RetrievedResult) :=
  match query col query_embedding n_results (where_filter name) with
  | Raise e => Raise e
  | Ok results =>
      match documents results with
      | docs :: _ =>
          if DocumentChunker.nonempty docs then
            match first_item (metadatas results) with
            | Raise e => Raise e
            | Ok metas =>
                match first_item (distances results) with
                | Raise e => Raise e
                | Ok dists => Ok (format_results 0 (zip3 docs metas dists) threshold)
                end
            end
          else Ok []
      | [] => Ok []
      end
  end.

(** [search]: no collection selected gives the empty list, and so does any
    exception raised in the body. *)
Definition search (db : t) (query_embedding : list float) (n_results : Z)
    (name : option string) (threshold : float) : list RetrievedResult :=
  match collection db with
  | None => []
  | Some col =>
      match search_body col query_embedding n_results name threshold with
      | Ok formatted_results => formatted_results
      | Raise _ => []
      end
  end.

(** *** Creating, deleting and listing collections *)

(** [self.client.delete_collection(name=name)] raises when the client holds
    no collection of that name. *)
Definition client_delete_collection (name : string) : M t unit :=
  fun db =>
    match client db !! name with
    | Some _ =>
        (Ok tt, {| client := delete name (client db);
                   collection := collection db |})
    | None =>
        (Raise {| exc_class := "NotFoundError";
                  exc_message := "Collection " +:+ name +:+ " does not exist" |},
         db)
    end.

(** A value of a collection's metadata dictionary. *)
Inductive MetaValue :=
| MStr (s : string)
| MInt (n : Z).

(** What the client does with a name and a metadata dictionary when it is
    asked for a new collection: it builds the collection, or it refuses them
    and raises (Chroma refuses an invalid name, and an empty metadata
    dictionary). *)
Definition Builder := string -> gmap string MetaValue -> Res Collection.

(** [self.client.create_collection(name=name, metadata=metadata, get_or_create=True)]:
    the client checks the name and the metadata first; then it answers the
    collection of that name when it holds one, and registers the new one
    otherwise. *)
Definition client_create_collection (build : Builder) (name : string)
    (metadata : gmap string MetaValue) : M t Collection :=
  fun db =>
    match build name metadata with
    | Raise e => (Raise e, db)
    | Ok created =>
        match client db !! name with
        | Some c => (Ok c, db)
        | None =>
            (Ok created, {| client := <[name := created]> (client db);
                            collection := collection db |})
        end
    end.

(** [create_collection]: deletes a collection of that name if there is one,
    creates the collection with [metadata or {}] and selects it. *)
Definition create_collection (build : Builder) (name : string)
    (metadata : option (gmap string MetaValue)) : M t unit :=
  try_except (client_delete_collection name) (fun _ => ret tt) ;;
  let* c := client_create_collection build name (default ∅ metadata) in
  modify (fun db => {| client := client db; collection := Some c |}).

(** [delete_collection]: deletes and clears the selection, or logs and
    re-raises. *)
Definition delete_collection (name : string) : M t unit :=
  try_except
    (client_delete_collection name ;;
     modify (fun db => {| client := client db; collection := None |}))
    (fun e => lift (Raise e)).

(** [[c.name for c in self.client.list_collections()]]. *)
Definition list_collections (db : t) : list string :=
  map (fun entry => name (snd entry)) (map_to_list (client db)).

(** The ranks of the list increase strictly from each item to the later
    ones. *)
Definition in_rank_order (results : list RetrievedResult) : Prop :=
  StronglySorted (fun a b => rank a < rank b) results.

(** The client keeps every collection under the collection's own name. *)
Definition names_agree (db : t) : Prop :=
  forall key c, client db !! key = Some c -> name c = key.

End ChromaVectorDB.

(** ** Semantic retriever ([SemanticRetriever]) *)

Module SemanticRetriever.

Import ChromaVectorDB.

Record RetrievalConfig := {
  top_k : Z;
  similarity_threshold : float;
  rerank : bool;
  include_metadata : bool;
  debug : bool
}.

(** The defaults of the dataclass. *)
Definition default_config : RetrievalConfig :=
  {| top_k := 5; similarity_threshold := 0x1.3333333333333p-2%float; rerank := true;
     include_metadata := true; debug := true |}.

(** The values a retrieval log entry holds. *)
Inductive LogValue :=
| LNone
| LBool (b : bool)
| LInt (n : Z)
| LFloat (x : float)
| LStr (s : string).

(** The retriever: [embed_query] is the method of its embedding generator,
    which returns the query embedding or raises. *)
Record t := {
  embed_query : string -> Res (list float);
  vector_db : ChromaVectorDB.t;
  config : RetrievalConfig;
  retrieval_logs : list (gmap string LogValue)
}.

(** What a call of [retrieve] works on: the retriever and the local
    dictionary [log_entry]. *)
Record Frame := {
  self : t;
  log_entry : gmap string LogValue
}.

(** [top_k or self.config.top_k]: [None] and [0] are falsy. *)
Definition or_default (top_k : option Z) (default_top_k : Z) : Z :=
  match top_k with
  | Some k => if k =? 0 then default_top_k else k
  | None => default_top_k
  end.

(** [log_entry[key] = value]. *)
Definition set_log (key : string) (value : LogValue) : M Frame unit :=
  modify (fun fr => {| self := self fr;
                       log_entry := <[key := value]> (log_entry fr) |}).

(** [self.retrieval_logs.append(log_entry)]. *)
Definition append_log : M Frame unit :=
  modify (fun fr =>
    {| self := {| embed_query := embed_query (self fr);
                  vector_db := vector_db (self fr);
                  config := config (self fr);
                  retrieval_logs := retrieval_logs (self fr) ++ [log_entry fr] |};
       log_entry := log_entry fr |}).

(** A method of [self.vector_db], run on the retriever's database. *)
Definition on_vector_db {A} (m : M ChromaVectorDB.t A) : M Frame A :=
  fun fr =>
    let '(r, db) := m (vector_db (self fr)) in
    (r, {| self := {| embed_query := embed_query (self fr);
                      vector_db := db;
                      config := config (self fr);
                      retrieval_logs := retrieval_logs (self fr) |};
           log_entry := log_entry fr |}).

(** [sorted(results, key=lambda x: x['similarity'], reverse=True)]: a stable
    sort by descending similarity, here by insertion.  This is the list
    [sorted] returns when no similarity is a NaN, the only lists [retrieve]
    sorts, as they have passed the threshold filter; with a NaN among the
    keys the order [sorted] leaves depends on the runs its merge sort finds
    and is not what the insertion gives. *)
Fixpoint insert_desc (x : RetrievedResult) (sorted : list RetrievedResult)
  : list RetrievedResult :=
  match sorted with
  | [] => [x]
  | y :: rest =>
      if (similarity x <? similarity y)%float then y :: insert_desc x rest
      else x :: sorted
  end.

Definition _rerank_results (results : list RetrievedResult)
    (query_embedding : list float) : list RetrievedResult :=
  foldr insert_desc [] results.

(** The threshold filter of [retrieve]. *)
Definition filter_threshold (config : RetrievalConfig)
    (results : list RetrievedResult) : list RetrievedResult :=
  List.filter (fun r => (similarity_threshold config <=? similarity r)%float)
    results.

(** [charity_name.lower().replace(" ", "_")]. *)
Definition normalized_name (charity_name : string) : string :=
  PyStr.replace_space (PyStr.lower charity_name).

(** The list [retrieve] computes from the results of [search]: threshold
    filter, reranking when it applies, and the first [k]. *)
Definition final_results (config : RetrievalConfig) (query_embedding : list float)
    (k : Z) (results : list RetrievedResult) : list RetrievedResult :=
  let filtered_results := filter_threshold config results in
  py_prefix
    (if rerank config && (1 <? Z.of_nat (length filtered_results))
     then _rerank_results filtered_results query_embedding
     else filtered_results) k.

(** [retrieve] from the call of [search] to its [return final_results]. *)
Definition search_and_select (config : RetrievalConfig)
    (query_embedding : list float) (charity_name : option string) (k : Z)
  : M Frame (list RetrievedResult) :=
  let* results :=
    (fun fr => (Ok (search (vector_db (self fr)) query_embedding (k * 2)
                      charity_name 0%float), fr)) in
  when (debug config)
    (set_log "intial_results_count" (LInt (Z.of_nat (length results)))) ;;
  let filtered_results := filter_threshold config results in
  when (debug config)
    (set_log "after_threshold_filter"
       (LInt (Z.of_nat (length filtered_results))) ;;
     set_log "threshold_used" (LFloat (similarity_threshold config))) ;;
  let reranking := rerank config && (1 <? Z.of_nat (length filtered_results)) in
  let filtered_results :=
    if reranking then _rerank_results filtered_results query_embedding
    else filtered_results in
  when (reranking && debug config) (set_log "reranked" (LBool true)) ;;
  let final_results := py_prefix filtered_results k in
  when (debug config)
    (set_log "final_results_count" (LInt (Z.of_nat (length final_results))) ;;
     set_log "status" (LStr "success") ;;
     append_log) ;;
  ret final_results.

(** The body of the [try] of [retrieve]. *)
Definition retrieve_body (config : RetrievalConfig) (query : string)
    (charity_name : option string) (top_k : option Z)
  : M Frame (list RetrievedResult) :=
  let* query_embedding := (fun fr => (embed_query (self fr) query, fr)) in
  when (debug config) (set_log "embedding_generated" (LBool true)) ;;
  let k := or_default top_k (SemanticRetriever.top_k config) in
  match charity_name with
  | Some charity =>
      if PyStr.truthy charity then
        let collection_name := normalized_name charity in
        let* found :=
          try_except
            (on_vector_db (get_collection collection_name) ;; ret true)
            (fun _ => ret false) in
        if found : bool
        then search_and_select config query_embedding charity_name k
        else ret []
      else search_and_select config query_embedding charity_name k
  | None => search_and_select config query_embedding charity_name k
  end.

(** The [except Exception as e] handler of [retrieve]. *)
Definition retrieve_handler (config : RetrievalConfig) (e : PyExc)
  : M Frame (list RetrievedResult) :=
  when (debug config)
    (set_log "status" (LStr "error") ;;
     set_log "error" (LStr (exc_message e)) ;;
     append_log) ;;
  ret [].

(** The dictionary [log_entry] starts as, when [debug] is on. *)
Definition initial_log (config : RetrievalConfig) (query : string)
    (charity_name : option string) (top_k : option Z) : gmap string LogValue :=
  if debug config then
    <["top_k_requested" := LInt (or_default top_k (SemanticRetriever.top_k config))]>
      (<["charity_name" := from_option LStr LNone charity_name]>
         (<["query" := LStr query]> ∅))
  else ∅.

Definition retrieve (query : string) (charity_name : option string)
    (top_k : option Z) : M t (list RetrievedResult) :=
  fun retriever =>
    let config := config retriever in
    let '(result, fr) :=
      try_except (retrieve_body config query charity_name top_k)
        (retrieve_handler config)
        {| self := retriever;
           log_entry := initial_log config query charity_name top_k |} in
    (result, self fr).

(** *** Retrieval statistics *)

(** [l.get('status') == status]. *)
Definition has_status (status : string) (entry : gmap string LogValue) : bool :=
  match entry !! "status" with
  | Some (LStr s) => String.eqb s status
  | _ => false
  end.

(** [l.get('final_results_count', 0)], on the entries [retrieve] writes,
    where the count is an [int]. *)
Definition final_results_count (entry : gmap string LogValue) : Z :=
  match entry !! "final_results_count" with
  | Some (LInt n) => n
  | _ => 0
  end.

(** [get_retrieval_stats]: the dictionary it returns. *)
Definition get_retrieval_stats (retriever : t) : gmap string PyNum :=
  match retrieval_logs retriever with
  | [] => {["total_retrievals" := PInt 0]}
  | logs =>
      let successful := List.filter (has_status "success") logs in
      let failed := List.filter (has_status "error") logs in
      let avg_results :=
        if DocumentChunker.nonempty successful
        then PFloat (true_div (py_sum (map final_results_count successful))
                       (Z.of_nat (length successful)))
        else PInt 0 in
      <["total_retrievals" := PInt (Z.of_nat (length logs))]>
        (<["successful_retrievals" := PInt (Z.of_nat (length successful))]>
           (<["failed_retrievals" := PInt (Z.of_nat (length failed))]>
              (<["avg_results_per_successful" := avg_results]>
                 (<["threshold_used" :=
                      PFloat (similarity_threshold (config retriever))]> ∅))))
  end.

(** [clear_lofs]. *)
Definition clear_lofs (retriever : t) : t :=
  {| embed_query := embed_query retriever;
     vector_db := vector_db retriever;
     config := config retriever;
     retrieval_logs := [] |}.

(** An entry as [retrieve] leaves it: its status is ['success'] or
    ['error']. *)
Definition log_settled (entry : gmap string LogValue) : Prop :=
  entry !! "status" = Some (LStr "success")
  \/ entry !! "status" = Some (LStr "error").

(** Descending order of similarity: each item is at least the next. *)
Definition descending (results : list RetrievedResult) : Prop :=
  forall i x y,
    results !! i = Some x -> results !! S i = Some y ->
    (similarity y <=? similarity x)%float = true.

(** No similarity of the list is a NaN. *)
Definition no_nan (results : list RetrievedResult) : Prop :=
  Forall (fun r => (similarity r =? similarity r)%float = true) results.

(** What a call leaves of the retriever besides its selected collection:
    the same embedding method, configuration and collections, and the log
    grown by the entries [new]. *)
Definition grows_log (s s' : t) (new : list (gmap string LogValue)) : Prop :=
  embed_query s' = embed_query s
  /\ config s' = config s
  /\ client (vector_db s') = client (vector_db s)
  /\ retrieval_logs s' = retrieval_logs s ++ new.

(** What a call that returned [rs] wrote to the log. *)
Definition logged (s s' : t) (rs : list RetrievedResult)
    (new : list (gmap string LogValue)) : Prop :=
  grows_log s s' new
  /\ (debug (config s) = false -> new = [])
  /\ (length new <= 1)%nat
  /\ (forall entry, In entry new ->
        (entry !! "status" = Some (LStr "success")
         /\ entry !! "final_results_count"
            = Some (LInt (Z.of_nat (length rs))))
        \/ (entry !! "status" = Some (LStr "error") /\ rs = [])).

End SemanticRetriever.

(** ** Context builder ([ContextBuilder]) *)

Module ContextBuilder.

Import ChromaVectorDB.

(** [len(chunk_text.split()) // 0.75]. *)
Definition chunk_tokens (chunk_text : string) : Z :=
  (4 * TokenCounter.word_count chunk_text) / 3.

(** One chunk as it enters the context. *)
Definition format_chunk (include_sources : bool) (chunk : RetrievedResult)
  : string :=
  let chunk_text := text chunk in
  if include_sources then
    let source_info :=
      "[Source: " +:+ default "Unknown" (metadata chunk !! "charity_name")
      +:+ "]" in
    chunk_text +:+ PyStr.nl +:+ source_info +:+ PyStr.nl
  else chunk_text +:+ PyStr.nl.

(** The [for] loop with its [break], from the state [(context_parts,
    token_count)] on. *)
Fixpoint context_loop (chunks : list RetrievedResult) (max_tokens : Z)
    (include_sources : bool) (context_parts : list string) (token_count : Z)
  : list string * Z :=
  match chunks with
  | [] => (context_parts, token_count)
  | chunk :: chunks =>
      let chunk_tokens := chunk_tokens (text chunk) in
      if max_tokens <? token_count + chunk_tokens
      then (context_parts, token_count)
      else context_loop chunks max_tokens include_sources
             (context_parts ++ [format_chunk include_sources chunk])
             (token_count + chunk_tokens)
  end.

Definition separator : string :=
  PyStr.nl +:+ PyStr.nl +:+ "---" +:+ PyStr.nl +:+ PyStr.nl.

Definition build_context (chunks : list RetrievedResult) (max_tokens : Z)
    (include_sources : bool) : string :=
  match chunks with
  | [] => "No relevant information found."
  | _ =>
      let '(context_parts, token_count) :=
        context_loop chunks max_tokens include_sources [] 0 in
      PyStr.join separator context_parts
  end.

(** The estimated tokens of a list of chunks. *)
Definition total_tokens (chunks : list RetrievedResult) : Z :=
  foldr (fun chunk acc => chunk_tokens (text chunk) + acc) 0 chunks.

(** The last character of a string. *)
Fixpoint last_char (s : string) : option ascii :=
  match s with
  | EmptyString => None
  | String c EmptyString => Some c
  | String _ s' => last_char s'
  end.

End ContextBuilder.

(** ** The logger

    [logger.error(message, exc_info=True)] of loguru: a call with a keyword
    argument formats the message with it ([message.format(exc_info=True)])
    before it reaches any sink, so that it raises when the message, which
    here ends with the text of a caught exception, is not a valid format
    string for that keyword (a lone brace, or a field other than
    [exc_info]).  The calls without a keyword argument do not format and do
    not raise.  The logger is given as the function that says, for a
    message, whether the call returns or what it raises. *)
Definition Logger := string -> Res unit.

(** ** Embedding generator ([EmbeddingGenerator]) *)

Module EmbeddingGenerator.








End EmbeddingGenerator.

(** ** Embedding pipeline ([EmbeddingPipeline]) *)

Module EmbeddingPipeline.

Import ChromaVectorDB.

(** [search]: embeds the query and searches the selected collection with the
    default threshold of [ChromaVectorDB.search], 0.3.  An exception of the
    embedding is logged and answered by the empty list, unless the logger
    raises on its message.  [embed_query] is the method of the pipeline's
    embedding generator. *)
Definition search (log_error : Logger)
    (embed_query : string -> Res (list float))
    (vector_db : ChromaVectorDB.t) (query charity_name : string)
    (n_results : Z) : Res (list RetrievedResult) :=
  match embed_query query with
  | Ok query_embedding =>
      Ok (ChromaVectorDB.search vector_db query_embedding n_results
            (Some charity_name) 0x1.3333333333333p-2%float)
  | Raise e =>
      match log_error ("Search failed: " +:+ exc_message e) with
      | Ok _ => Ok []
      | Raise e' => Raise e'
      end
  end.

End EmbeddingPipeline.

(** ** Conversation window ([ConversationWindow], [ConversationManager]) *)

Module ConversationWindow.

Record Message := {
  role : string;
  content : string
}.

Record t := {
  max_messages : Z;
  max_tokens : Z;
  messages : list Message
}.

(** [xs[-k:]]. *)
Definition py_suffix {A} (xs : list A) (k : Z) : list A :=
  drop (Z.to_nat (slice_bound (Z.of_nat (length xs)) (- k))) xs.

Definition with_messages (window : t) (messages : list Message) : t :=
  {| max_messages := max_messages window;
     max_tokens := max_tokens window;
     messages := messages |}.

Definition _trim_window (window : t) : t :=
  if max_messages window <? Z.of_nat (length (messages window))
  then with_messages window (py_suffix (messages window) (max_messages window))
  else window.

Definition add_message (window : t) (role content : string) : t :=
  _trim_window
    (with_messages window
       (messages window ++ [{| role := role; content := content |}])).

(** One line of [get_context]. *)
Definition context_line (msg : Message) : string :=
  (if String.eqb (role msg) "user" then "User" else "Assistant")
  +:+ ": " +:+ content msg.

Definition get_context (window : t) : string :=
  match messages window with
  | [] => EmptyString
  | _ => PyStr.join PyStr.nl (map context_line (py_suffix (messages window) 4))
  end.

Definition clear (window : t) : t := with_messages window [].

(** [ConversationManager.should_summarize]. *)
Definition should_summarize (window : t) : bool :=
  20 <? Z.of_nat (length (messages window)).

(** [ConversationManager.get_stats]: total, user and assistant messages. *)
Definition get_stats (window : t) : Z * Z * Z :=
  (Z.of_nat (length (messages window)),
   Z.of_nat (length (List.filter (fun m => String.eqb (role m) "user")
                       (messages window))),
   Z.of_nat (length (List.filter (fun m => String.eqb (role m) "assistant")
                       (messages window)))).

End ConversationWindow.

(** ** Prompts ([PromptLibrary], [PromptFormatter]) *)

Module PromptFormatter.

(** The double quote. *)
Definition dquote : string := String "034" EmptyString.

(** [PromptLibrary.get_rag_system_prompt()]. *)
Definition rag_system_prompt : string :=
  "You are a helpful assistant providing information about charitable organizations."
  +:+ PyStr.nl +:+ "        Your responses should:"
  +:+ PyStr.nl +:+ "1. Be based ONLY on the provided context/documents"
  +:+ PyStr.nl +:+ "2. Be accurate and factual"
  +:+ PyStr.nl +:+ "3. Cite information sources when possible"
  +:+ PyStr.nl +:+ "4. Say " +:+ dquote +:+ "I don't have information about that"
  +:+ dquote +:+ " if the context doesn't cover the topic"
  +:+ PyStr.nl +:+ "5. Be concise and clear"
  +:+ PyStr.nl
  +:+ PyStr.nl +:+ "You should NOT:"
  +:+ PyStr.nl +:+ "- Make up or invent information not in the context"
  +:+ PyStr.nl +:+ "- Provide information outside the context"
  +:+ PyStr.nl +:+ "- Make assumptions about details not mentioned"
  +:+ PyStr.nl
  +:+ PyStr.nl +:+ "Always prioritize accuracy over a perfect answer.".

(** [PromptLibrary.get_rag_user_template().format(...)]. *)
Definition format_user_prompt (query context charity_name : string) : string :=
  "Based on the following context about " +:+ charity_name
  +:+ ", answer this question: " +:+ query
  +:+ PyStr.nl +:+ PyStr.nl +:+ "CONTEXT:"
  +:+ PyStr.nl +:+ context
  +:+ PyStr.nl +:+ PyStr.nl +:+ "ANSWER:".

(** [format_rag_prompt]: the values of the keys ['system'] and ['user']. *)
Definition format_rag_prompt (query context charity_name : string)
  : string * string :=
  (rag_system_prompt, format_user_prompt query context charity_name).

(** [format_fallback_prompt]. *)
Definition format_fallback_prompt (query charity_name : string) : string :=
  "I don't have enough information from " +:+ charity_name
  +:+ "'s documents to answer: " +:+ query
  +:+ PyStr.nl +:+ PyStr.nl +:+ "You might want to:"
  +:+ PyStr.nl +:+ "1. Visit their website directly"
  +:+ PyStr.nl +:+ "2. Contact them for more specific information"
  +:+ PyStr.nl +:+ "3. Try a different question".

End PromptFormatter.

(** ** Question answering ([RAGSystem]) *)

Module RAGSystem.

Import ChromaVectorDB PromptFormatter.

(** A message of the conversation history.  [timestamp] is the reading of
    the clock when the message was made. *)
Record ConversationMessage := {
  role : string;
  content : string;
  timestamp : Z;
  metadata : gmap string SemanticRetriever.LogValue
}.

(** An item of the key ['sources'] of a result. *)
Record Source := {
  source_text : string;
  source_similarity : float;
  source_metadata : gmap string string
}.

(** The dictionary [query] returns: with the status ['success'] or
    ['error'].  [timestamp] is the reading of the clock whose ISO form the
    dictionary holds. *)
Inductive QueryResult :=
| Success (query response : string) (retrieved_chunks : Z)
    (sources : list Source) (processing_time : float) (timestamp : Z)
| Error (query error : string) (timestamp : Z).

(** The system.  [generate] is the method of the LLM provider, which
    answers or raises; its first argument is the number of calls made
    before, as the provider need not answer the same prompt twice alike.
    [log_error] is the logger called with a keyword argument.  [clock] is
    the sequence of the readings [datetime.now()] gives, in microseconds,
    and [ticks] the number of readings taken. *)
Record t := {
  retriever : SemanticRetriever.t;
  generate : nat -> string -> string -> Res string;
  log_error : Logger;
  llm_calls : nat;
  max_context_tokens : Z;
  conversation_history : list ConversationMessage;
  session_logs : list QueryResult;
  clock : nat -> Z;
  ticks : nat
}.

(** [datetime.now()]. *)
Definition now : M t Z :=
  fun s =>
    (Ok (clock s (ticks s)),
     {| retriever := retriever s; generate := generate s;
        log_error := log_error s;
        llm_calls := llm_calls s;
        max_context_tokens := max_context_tokens s;
        conversation_history := conversation_history s;
        session_logs := session_logs s;
        clock := clock s; ticks := S (ticks s) |}).

(** [(session_end - session_start).total_seconds()], for readings less than
    2^53 microseconds apart. *)
Definition total_seconds (session_start session_end : Z) : float :=
  let d := session_end - session_start in
  if 0 <=? d then (float_of_count d / 1000000)%float
  else (- (float_of_count (- d) / 1000000))%float.

(** A method of [self.retriever], run on the system's retriever. *)
Definition on_retriever {A} (m : M SemanticRetriever.t A) : M t A :=
  fun s =>
    let '(r, retriever') := m (retriever s) in
    (r, {| retriever := retriever'; generate := generate s;
           log_error := log_error s;
           llm_calls := llm_calls s;
           max_context_tokens := max_context_tokens s;
           conversation_history := conversation_history s;
           session_logs := session_logs s;
           clock := clock s; ticks := ticks s |}).

(** [self.llm_provider.generate(system_prompt=..., user_prompt=...)]. *)
Definition llm_generate (system_prompt user_prompt : string) : M t string :=
  fun s =>
    (generate s (llm_calls s) system_prompt user_prompt,
     {| retriever := retriever s; generate := generate s;
        log_error := log_error s;
        llm_calls := S (llm_calls s);
        max_context_tokens := max_context_tokens s;
        conversation_history := conversation_history s;
        session_logs := session_logs s;
        clock := clock s; ticks := ticks s |}).

(** [self.conversation_history.append(message)]. *)
Definition append_history (message : ConversationMessage) : M t unit :=
  modify (fun s =>
    {| retriever := retriever s; generate := generate s;
        log_error := log_error s;
       llm_calls := llm_calls s;
       max_context_tokens := max_context_tokens s;
       conversation_history := conversation_history s ++ [message];
       session_logs := session_logs s;
       clock := clock s; ticks := ticks s |}).

(** [self.session_logs.append(result)]. *)
Definition append_session_log (result : QueryResult) : M t unit :=
  modify (fun s =>
    {| retriever := retriever s; generate := generate s;
        log_error := log_error s;
       llm_calls := llm_calls s;
       max_context_tokens := max_context_tokens s;
       conversation_history := conversation_history s;
       session_logs := session_logs s ++ [result];
       clock := clock s; ticks := ticks s |}).

(** [charity_name or "this organization"]. *)
Definition name_or_default (charity_name : option string) : string :=
  match where_filter charity_name with
  | Some charity => charity
  | None => "this organization"
  end.

(** [text[:n]] of a string. *)
Fixpoint str_prefix (n : nat) (text : string) : string :=
  match n, text with
  | S n, String c text => String c (str_prefix n text)
  | _, _ => EmptyString
  end.

(** An item of ['sources']: the first hundred characters of the chunk and
    an ellipsis. *)
Definition source_of (chunk : RetrievedResult) : Source :=
  {| source_text := str_prefix 100 (text chunk) +:+ "...";
     source_similarity := similarity chunk;
     source_metadata := ChromaVectorDB.metadata chunk |}.

(** The body of the [try] of [query]. *)
Definition query_body (query : string) (charity_name : option string)
    (top_k : option Z) : M t QueryResult :=
  let* session_start := now in
  let* retrieved_chunks :=
    on_retriever (SemanticRetriever.retrieve query charity_name top_k) in
  let* max_tokens := (fun s => (Ok (max_context_tokens s), s)) in
  let context := ContextBuilder.build_context retrieved_chunks max_tokens true in
  let prompts :=
    format_rag_prompt query context (name_or_default charity_name) in
  let* response :=
    (if DocumentChunker.nonempty retrieved_chunks
     then llm_generate (fst prompts) (snd prompts)
     else ret (format_fallback_prompt query (name_or_default charity_name))) in
  let* session_end := now in
  let session_duration := total_seconds session_start session_end in
  let* stamp := now in
  let result :=
    Success query response (Z.of_nat (length retrieved_chunks))
      (map source_of retrieved_chunks) session_duration stamp in
  let* user_stamp := now in
  append_history
    {| role := "user"; content := query; timestamp := user_stamp;
       metadata := {["query_type" := SemanticRetriever.LStr "retrieval"]} |} ;;
  let* assistant_stamp := now in
  append_history
    {| role := "assistant"; content := response; timestamp := assistant_stamp;
       metadata :=
         {["sources" :=
             SemanticRetriever.LInt (Z.of_nat (length retrieved_chunks))]} |} ;;
  append_session_log result ;;
  ret result.

(** [logger.error(f"Query processing failed: {e}", exc_info=True)]. *)
Definition log_failure (e : PyExc) : M t unit :=
  fun s =>
    (log_error s ("Query processing failed: " +:+ exc_message e), s).

(** [query]: an exception is logged and answered by the dictionary with the
    status ['error'], unless the logger raises on its message. *)
Definition query (query : string) (charity_name : option string)
    (top_k : option Z) : M t QueryResult :=
  try_except (query_body query charity_name top_k)
    (fun e =>
       log_failure e ;;
       let* stamp := now in
       ret (Error query (exc_message e) stamp)).

(** [l.get('status') == 'success']. *)
Definition is_success (result : QueryResult) : bool :=
  match result with Success _ _ _ _ _ _ => true | Error _ _ _ => false end.

(** [l.get('processing_time', 0)] and [l.get('retrieved_chunks', 0)]. *)
Definition processing_time_of (result : QueryResult) : float :=
  match result with Success _ _ _ _ t _ => t | Error _ _ _ => 0%float end.

Definition retrieved_chunks_of (result : QueryResult) : Z :=
  match result with Success _ _ n _ _ _ => n | Error _ _ _ => 0 end.

(** The dictionary [get_session_stats] returns.  [avg_response_time] and
    [avg_sources_retrieved] are the one element of the set each key holds. *)
Record SessionStats := {
  total_queries : Z;
  successful_queries : Z;
  failed_queries : Z;
  avg_response_time : PyNum;
  avg_sources_retrieved : PyNum;
  conversation_turns : Z
}.

Definition get_session_stats (s : t) : SessionStats :=
  let successful := List.filter is_success (session_logs s) in
  {| total_queries := Z.of_nat (length (session_logs s));
     successful_queries := Z.of_nat (length successful);
     failed_queries :=
       Z.of_nat (length (session_logs s)) - Z.of_nat (length successful);
     avg_response_time :=
       if DocumentChunker.nonempty successful
       then PFloat (fold_left PrimFloat.add (map processing_time_of successful)
                      0%float
                    / float_of_count (Z.of_nat (length successful)))%float
       else PInt 0;
     avg_sources_retrieved :=
       if DocumentChunker.nonempty successful
       then PFloat (true_div (py_sum (map retrieved_chunks_of successful))
                      (Z.of_nat (length successful)))
       else PInt 0;
     conversation_turns :=
       Z.of_nat (length (conversation_history s)) / 2 |}.

(** [clear_conversation_history]. *)
Definition clear_conversation_history (s : t) : t :=
  {| retriever := retriever s; generate := generate s;
        log_error := log_error s;
     llm_calls := llm_calls s;
     max_context_tokens := max_context_tokens s;
     conversation_history := [];
     session_logs := session_logs s;
     clock := clock s; ticks := ticks s |}.

(** What a call of [query] leaves of the system besides the retriever, the
    clock and the call count: the history grown by [messages] and the
    session log by [results]. *)
Definition grows (s s' : t) (messages : list ConversationMessage)
    (results : list QueryResult) : Prop :=
  conversation_history s' = conversation_history s ++ messages
  /\ session_logs s' = session_logs s ++ results
  /\ max_context_tokens s' = max_context_tokens s.

End RAGSystem.

(** ** Example data *)

Module Examples.

Import ChromaVectorDB SemanticRetriever.

(** A chunking configuration and a paragraph of twenty words, estimated at
    26 tokens. *)
Definition ex_config : DocumentChunker.ChunkConfig :=
  {| DocumentChunker.chunk_size := 20;
     DocumentChunker.overlap := 0;
     DocumentChunker.strategy := "paragraph";
     DocumentChunker.min_chunk_size := 10 |}.

Definition ex_paragraph : string :=
  "the charity runs food banks and shelters in every city of the region and it trains new volunteers each spring".

Definition ex_meta : gmap string string := {["charity_name" := "Red Cross"]}.

(** Three stored passages at cosine distances 0.125, 0.5 and 1.25 from
    every query. *)
Definition ex_rows : QueryResult :=
  {| documents := [["blood drives"; "disaster relief"; "annual gala"]];
     metadatas := [[ex_meta; ex_meta; ex_meta]];
     distances := [[0.125%float; 0.5%float; 1.25%float]] |}.

(** A collection that answers with its nearest [n_results] passages and
    refuses a non-positive [n_results]. *)
Definition ex_collection : Collection :=
  {| name := "red_cross";
     query := fun _ n_results _ =>
       if 0 <? n_results then
         Ok {| documents := map (take (Z.to_nat n_results)) (documents ex_rows);
               metadatas := map (take (Z.to_nat n_results)) (metadatas ex_rows);
               distances := map (take (Z.to_nat n_results)) (distances ex_rows) |}
       else Raise {| exc_class := "ValueError";
                     exc_message := "n_results must be positive" |} |}.

(** A database that holds the collection and has it selected. *)
Definition ex_db : ChromaVectorDB.t :=
  {| client := {["red_cross" := ex_collection]};
     collection := Some ex_collection |}.

Definition ex_retriever (config : RetrievalConfig) : SemanticRetriever.t :=
  {| embed_query := fun _ => Ok [0.25%float; 0.5%float];
     vector_db := ex_db;
     config := config;
     retrieval_logs := [] |}.

(** A retriever whose embedding model is unavailable. *)
Definition ex_offline_retriever : SemanticRetriever.t :=
  {| embed_query := fun _ => Raise {| exc_class := "RuntimeError";
                                      exc_message := "model not loaded" |};
     vector_db := ex_db;
     config := SemanticRetriever.default_config;
     retrieval_logs := [] |}.

Definition ex_hit (rank : Z) (text : string) (similarity : float)
  : RetrievedResult :=
  {| rank := rank; text := text; similarity := similarity;
     metadata := ex_meta |}.

(** The two passages of the example that pass the default threshold. *)
Definition ex_hits : list RetrievedResult :=
  [ex_hit 1 "blood drives" 0.875; ex_hit 2 "disaster relief" 0.5].

(** A configuration that logs and one that does not. *)
Definition debug_config : RetrievalConfig := SemanticRetriever.default_config.

Definition quiet_config : RetrievalConfig :=
  {| top_k := 5; similarity_threshold := 0.25%float; rerank := true;
     include_metadata := true; debug := false |}.

(** A retriever that has logged one successful and one failed call. *)
Definition ex_logged_retriever : SemanticRetriever.t :=
  {| embed_query := fun _ => Ok [0.25%float; 0.5%float];
     vector_db := ex_db;
     config := debug_config;
     retrieval_logs :=
       [<["final_results_count" := LInt 2]> {["status" := LStr "success"]};
        {["status" := LStr "error"]}] |}.

(** Two short paragraphs separated by a blank line, and a blank text. *)
Definition ex_two_paragraphs : string :=
  "food banks in every city" +:+ PyStr.nl +:+ PyStr.nl +:+ "shelters".

Definition ex_blank_text : string :=
  "  " +:+ PyStr.nl +:+ PyStr.nl +:+ " ".

(** Three hits of two, five and one words. *)
Definition ex_three_hits : list RetrievedResult :=
  [ex_hit 1 "blood drives" 0.875;
   ex_hit 2 "disaster relief in five counties" 0.5;
   ex_hit 3 "gala" 0.25].

(** A conversation window of at most two messages that is full, and the
    same messages in a window whose limit is zero. *)
Definition ex_messages : list ConversationWindow.Message :=
  [{| ConversationWindow.role := "user";
      ConversationWindow.content := "who runs blood drives" |};
   {| ConversationWindow.role := "assistant";
      ConversationWindow.content := "the Red Cross" |}].

Definition ex_window (max_messages : Z) : ConversationWindow.t :=
  {| ConversationWindow.max_messages := max_messages;
     ConversationWindow.max_tokens := 4000;
     ConversationWindow.messages := ex_messages |}.

(** A question-answering system over the example retriever, with a
    provider that always gives the same answer, and one whose provider is
    unreachable. *)
Definition ex_rag_system (generate : nat -> string -> string -> Res string)
    (log_error : Logger) : RAGSystem.t :=
  {| RAGSystem.retriever := ex_retriever quiet_config;
     RAGSystem.generate := generate;
     RAGSystem.log_error := log_error;
     RAGSystem.llm_calls := 0;
     RAGSystem.max_context_tokens := 2000;
     RAGSystem.conversation_history := [];
     RAGSystem.session_logs := [];
     RAGSystem.clock := fun n => 1000 * Z.of_nat n;
     RAGSystem.ticks := 0 |}.

Definition ex_answering : nat -> string -> string -> Res string :=
  fun _ _ _ => Ok "The Red Cross runs blood drives.".

Definition ex_unreachable : nat -> string -> string -> Res string :=
  fun _ _ _ => Raise {| exc_class := "APIConnectionError";
                        exc_message := "Connection error." |}.

(** A provider whose error message holds braces, as a serialized error
    body does. *)
Definition ex_unauthorized : nat -> string -> string -> Res string :=
  fun _ _ _ => Raise {| exc_class := "AuthenticationError";
                        exc_message := "Error code: 401 - {'error': 'key'}" |}.

(** A message with a brace in it. *)
Fixpoint has_brace (message : string) : bool :=
  match message with
  | EmptyString => false
  | String c message =>
      Ascii.eqb c "{" || Ascii.eqb c "}" || has_brace message
  end.

(** A logger that accepts the messages without a brace, and raises on the
    others as [str.format] does on a field it has no argument for. *)
Definition ex_logger : Logger :=
  fun message =>
    if has_brace message
    then Raise {| exc_class := "KeyError"; exc_message := "'error'" |}
    else Ok tt.

(** A builder that refuses the empty metadata dictionary, and one that
    accepts every name and dictionary. *)
Definition ex_strict_builder : Builder :=
  fun name metadata =>
    if decide (metadata = ∅)
    then Raise {| exc_class := "ValueError";
                  exc_message := "Expected metadata to be a non-empty dict" |}
    else Ok {| ChromaVectorDB.name := name;
               ChromaVectorDB.query := ChromaVectorDB.query ex_collection |}.

Definition ex_lenient_builder : Builder :=
  fun name _ =>
    Ok {| ChromaVectorDB.name := name;
          ChromaVectorDB.query := ChromaVectorDB.query ex_collection |}.

(** A configuration with a negative threshold. *)
Definition negative_threshold_config : RetrievalConfig :=
  {| top_k := 5; similarity_threshold := (-0.5)%float; rerank := true;
     include_metadata := true; debug := false |}.

End Examples.

(** * Properties of the chunker *)

Section chunker_properties.

Import TokenCounter DocumentChunker Examples.

(** ** Splitting and joining *)

Section split_join.
Import PyStr.

Lemma append_cons (c : ascii) (s t : string) :
  String c s +:+ t = String c (s +:+ t).
Proof. reflexivity. Qed.

Lemma append_empty_l (s : string) : EmptyString +:+ s = s.
Proof. reflexivity. Qed.

Lemma append_empty_r (s : string) : s +:+ EmptyString = s.
Proof. induction s as [|c s IH]; [done|]. by rewrite append_cons, IH. Qed.

Lemma append_assoc (a b c : string) : (a +:+ b) +:+ c = a +:+ (b +:+ c).
Proof.
  induction a as [|x a IH]; [done|]. by rewrite !append_cons, IH.
Qed.

Lemma no_space_append (a b : string) :
  no_space (a +:+ b) = no_space a && no_space b.
Proof.
  induction a as [|c a IH]; [done|]. rewrite append_cons. simpl.
  rewrite IH. by rewrite andb_assoc.
Qed.

(** Every piece [split] returns is a word. *)
Lemma split_from_words (s cur : string) :
  no_space cur = true -> Forall (fun w => is_word w = true) (split_from cur s).
Proof.
  revert cur. induction s as [|c s IH]; intros cur Hcur; simpl.
  - destruct cur; [constructor|]. constructor; [|constructor].
    unfold is_word. by rewrite Hcur.
  - destruct (is_space c) eqn:Hc.
    + destruct cur as [|c' cur']; [by apply IH|].
      constructor; [unfold is_word; by rewrite Hcur|by apply IH].
    + apply IH. rewrite no_space_append, Hcur. simpl. by rewrite Hc.
Qed.

Lemma split_words (text : string) :
  Forall (fun w => is_word w = true) (split text).
Proof. by apply split_from_words. Qed.

(** Reading a run of non-whitespace characters extends the current word. *)
Lemma split_from_run (w cur rest : string) :
  no_space w = true ->
  split_from cur (w +:+ rest) = split_from (cur +:+ w) rest.
Proof.
  revert cur. induction w as [|c w IH]; intros cur Hw.
  - by rewrite append_empty_r.
  - simpl in Hw. apply andb_prop in Hw as [Hc Hw].
    apply negb_true_iff in Hc. rewrite append_cons. simpl.
    rewrite Hc, IH by done.
    by rewrite append_assoc.
Qed.

(** [split] undoes [" ".join] on a list of words. *)
Lemma split_join_words (ws : list string) :
  Forall (fun w => is_word w = true) ws -> split (join " " ws) = ws.
Proof.
  unfold split. induction ws as [|w ws IH]; intros Hws; [done|].
  inversion Hws as [|? ? Hw Hws']; subst.
  unfold is_word in Hw. apply andb_prop in Hw as [Hne Hns].
  destruct ws as [|w' ws].
  - simpl. rewrite <- (append_empty_r w) at 1.
    rewrite split_from_run by done. simpl. by destruct w.
  - change (join " " (w :: w' :: ws)) with (w +:+ " " +:+ join " " (w' :: ws)).
    rewrite split_from_run by done. rewrite append_empty_l, append_cons.
    simpl. destruct w as [|c w]; [done|]. f_equal. by apply IH.
Qed.

End split_join.

(** ** The token estimator *)

Lemma word_count_nonneg text : 0 <= word_count text.
Proof. unfold word_count. lia. Qed.

Lemma estimate_tokens_floor text :
  estimate_tokens text = Z.max 1 (4 * word_count text / 3).
Proof.
  unfold estimate_tokens. pose proof (word_count_nonneg text).
  by rewrite Z.quot_div_nonneg by lia.
Qed.

(** C3, as the code has it.  The estimator truncates: it returns
    [max(1, floor(word_count / 0.75))], which is the rounded value of the
    specification unless [word_count mod 3 = 2], where it is one less; the
    empty string yields 1. *)
Theorem estimate_tokens_truncates text :
  let words := word_count text in
  let tokens := estimate_tokens text in
  tokens = Z.max 1 (4 * words / 3)
  /\ (words = 0 -> tokens = 1)
  /\ (1 <= words -> 3 * tokens <= 4 * words < 3 * (tokens + 1))
  /\ (words mod 3 <> 2 -> tokens = spec_estimate text)
  /\ (words mod 3 = 2 -> tokens = spec_estimate text - 1)
  /\ estimate_tokens "" = 1.
Proof.
  intros words tokens. subst tokens.
  rewrite estimate_tokens_floor. unfold spec_estimate, round_quotient.
  fold words. pose proof (word_count_nonneg text) as Hw. fold words in Hw.
  assert ((4 * words) mod 3 = words mod 3) as Hmod.
  { replace (4 * words) with (words + words * 3) by lia.
    by rewrite Z.mod_add by lia. }
  pose proof (Z.div_mod (4 * words) 3 ltac:(lia)) as Hdiv.
  pose proof (Z.mod_pos_bound words 3 ltac:(lia)) as Hbound.
  rewrite Hmod in *.
  split; [|split; [|split; [|split; [|split]]]].
  - reflexivity.
  - intros ->. reflexivity.
  - intros H1. lia.
  - intros Hm. destruct (2 * (words mod 3) <? 3) eqn:E; [done|]. lia.
  - intros Hm. rewrite Hm. simpl. lia.
  - reflexivity.
Qed.

(** C3 fails as stated: a text of two words is estimated at 2 tokens, where
    [max(1, round(2 / 0.75))] is 3. *)
Lemma estimate_tokens_round_counterexample :
  word_count "food banks" = 2
  /\ estimate_tokens "food banks" = 2
  /\ spec_estimate "food banks" = 3.
Proof. repeat split; vm_compute; reflexivity. Qed.

(** The integer quotients of the model are what binary64 computes, for
    every count up to 4096. *)
Lemma binary64_quotients_agree :
  forallb (fun n => (float_tokens n =? Z.quot (4 * n) 3)
                    && (float_three_quarters n =? int_three_quarters n))
    (seqZ 0 4097) = true.
Proof. vm_compute. reflexivity. Qed.

(** ** Fixed-size chunking: progress and termination *)

Import DocumentChunker.

(** One pass through the loop body either breaks, its window reaching the
    end of the words, or moves the start at least one word forward. *)
Lemma fixed_step_progress config metadata words start_idx chunk_id chunks :
  match fixed_step config metadata words start_idx chunk_id chunks with
  | Continue start_idx' _ _ => start_idx + 1 <= start_idx'
  | Break _ => window_end config words start_idx = Z.of_nat (length words)
  end.
Proof.
  unfold fixed_step.
  destruct (min_chunk_size config <=? _);
    destruct ((start_idx <=? _) && (_ =? _)) eqn:E;
    try lia; apply andb_prop in E as [_ E]; lia.
Qed.

(** The loop returns once it has a unit of fuel for every word from
    [start_idx] on. *)
Lemma fixed_loop_returns config metadata words fuel start_idx chunk_id chunks :
  Z.of_nat (length words) - start_idx <= Z.of_nat fuel ->
  exists result,
    fixed_loop fuel config metadata words start_idx chunk_id chunks = Some result.
Proof.
  revert start_idx chunk_id chunks.
  induction fuel as [|fuel IH]; intros start_idx chunk_id chunks Hfuel; simpl.
  - destruct (start_idx <? Z.of_nat (length words)) eqn:E; [lia|eauto].
  - destruct (start_idx <? Z.of_nat (length words)) eqn:E; [|eauto].
    pose proof (fixed_step_progress config metadata words start_idx chunk_id
                  chunks) as Hstep.
    destruct (fixed_step config metadata words start_idx chunk_id chunks)
      as [start_idx' chunk_id' chunks'|chunks']; [|eauto].
    apply IH. lia.
Qed.

(** More fuel does not change what the loop returns. *)
Lemma fixed_loop_fuel config metadata words fuel fuel' start_idx chunk_id
    chunks result :
  fixed_loop fuel config metadata words start_idx chunk_id chunks = Some result ->
  (fuel <= fuel')%nat ->
  fixed_loop fuel' config metadata words start_idx chunk_id chunks = Some result.
Proof.
  revert fuel' start_idx chunk_id chunks.
  induction fuel as [|fuel IH]; intros fuel' start_idx chunk_id chunks; simpl.
  - destruct (start_idx <? Z.of_nat (length words)) eqn:E; [done|].
    intros H _. destruct fuel'; simpl; by rewrite E.
  - destruct (start_idx <? Z.of_nat (length words)) eqn:E.
    + intros H Hle. destruct fuel' as [|fuel']; [lia|]. simpl. rewrite E.
      destruct (fixed_step config metadata words start_idx chunk_id chunks)
        as [start_idx' chunk_id' chunks'|chunks']; [|done].
      apply IH; [done|lia].
    + intros H _. destruct fuel'; simpl; by rewrite E.
Qed.

(** C6. Fixed-strategy chunking terminates for every text and every
    configuration: each pass through the loop moves the window start at
    least one word forward or leaves the loop with the window at the end of
    the words, so one pass per word is enough for the loop to return, and
    more passes than that are never taken.  All-whitespace text and a single
    word are instances. *)
Theorem fixed_chunking_terminates config metadata text :
  (forall words start_idx chunk_id chunks,
     match fixed_step config metadata words start_idx chunk_id chunks with
     | Continue start_idx' _ _ => start_idx + 1 <= start_idx'
     | Break _ => window_end config words start_idx = Z.of_nat (length words)
     end)
  /\ (exists chunks,
        run_fixed config metadata text = Some chunks
        /\ _chunk_fixed_size config text metadata = chunks
        /\ forall fuel, (length (PyStr.split text) <= fuel)%nat ->
             fixed_loop fuel config metadata (PyStr.split text) 0 0 []
             = Some chunks)
  /\ run_fixed config metadata "   " = Some []
  /\ exists chunks, run_fixed config metadata "word" = Some chunks.
Proof.
  split; [intros; apply fixed_step_progress|]. split; [|split].
  - destruct (fixed_loop_returns config metadata (PyStr.split text)
                (length (PyStr.split text)) 0 0 []) as [chunks Hrun]; [lia|].
    exists chunks. unfold _chunk_fixed_size, run_fixed. rewrite Hrun.
    split; [done|]. split; [done|].
    intros fuel Hfuel. by eapply fixed_loop_fuel.
  - reflexivity.
  - apply fixed_loop_returns. lia.
Qed.

(** ** Slices and windows *)

Lemma slice_bound_nonneg (len i : Z) :
  0 <= i -> slice_bound len i = Z.min i len.
Proof. intros H. unfold slice_bound. destruct (i <? 0) eqn:E; [lia|done]. Qed.

Lemma py_slice_inside {A} (xs : list A) (lo hi : Z) :
  0 <= lo <= hi -> hi <= Z.of_nat (length xs) ->
  py_slice xs lo hi = take (Z.to_nat (hi - lo)) (drop (Z.to_nat lo) xs).
Proof.
  intros Hlo Hhi. unfold py_slice. rewrite !slice_bound_nonneg by lia.
  by rewrite !Z.min_l by lia.
Qed.

Lemma py_slice_Forall {A} (P : A -> Prop) (xs : list A) (lo hi : Z) :
  Forall P xs -> Forall P (py_slice xs lo hi).
Proof. intros H. unfold py_slice. by apply Forall_take, Forall_drop. Qed.

Lemma py_slice_length_inside {A} (xs : list A) (lo hi : Z) :
  0 <= lo <= hi -> hi <= Z.of_nat (length xs) ->
  Z.of_nat (length (py_slice xs lo hi)) = hi - lo.
Proof.
  intros Hlo Hhi. rewrite py_slice_inside by done.
  rewrite length_take, length_drop. lia.
Qed.

Lemma py_slice_lookup {A} (xs : list A) (lo hi i : Z) (x : A) :
  0 <= lo -> hi <= Z.of_nat (length xs) -> lo <= i < hi ->
  xs !! Z.to_nat i = Some x -> In x (py_slice xs lo hi).
Proof.
  intros Hlo Hhi Hi Hx. rewrite py_slice_inside by lia.
  apply list_elem_of_In, list_elem_of_lookup. exists (Z.to_nat (i - lo)).
  rewrite lookup_take_lt by lia. rewrite lookup_drop.
  by replace (Z.to_nat lo + Z.to_nat (i - lo))%nat with (Z.to_nat i) by lia.
Qed.

Section windows.
Import TokenCounter.
Variable config : ChunkConfig.
Variable metadata : option (gmap string string).
Variable words : list string.
Hypothesis words_are_words : Forall (fun w => PyStr.is_word w = true) words.

Lemma window_end_bounds start_idx :
  0 <= start_idx < Z.of_nat (length words) -> 0 <= words_per_chunk config ->
  start_idx <= window_end config words start_idx <= Z.of_nat (length words)
  /\ window_end config words start_idx - start_idx <= words_per_chunk config.
Proof. unfold window_end. lia. Qed.

(** The text of a window splits back into the words of the window. *)
Lemma split_window_text start_idx :
  PyStr.split (window_text config words start_idx)
  = py_slice words start_idx (window_end config words start_idx).
Proof.
  unfold window_text. apply split_join_words. by apply py_slice_Forall.
Qed.

Lemma window_tokens start_idx :
  0 <= start_idx < Z.of_nat (length words) -> 0 <= words_per_chunk config ->
  count_tokens_in_chunk (window_text config words start_idx)
  = Z.max 1 (4 * (window_end config words start_idx - start_idx) / 3).
Proof.
  intros Hs Hw. unfold count_tokens_in_chunk. rewrite estimate_tokens_floor.
  unfold word_count. rewrite split_window_text.
  destruct (window_end_bounds start_idx Hs Hw) as [? _].
  by rewrite py_slice_length_inside by lia.
Qed.

(** A property of the chunks that holds of every window chunk holds of all
    the chunks the loop returns. *)
Lemma fixed_loop_Forall (P : Chunk -> Prop) :
  (forall start_idx chunk_id,
     0 <= start_idx < Z.of_nat (length words) ->
     min_chunk_size config
       <= count_tokens_in_chunk (window_text config words start_idx) ->
     P (window_chunk config metadata words start_idx chunk_id)) ->
  forall fuel start_idx chunk_id chunks result,
    0 <= start_idx -> Forall P chunks ->
    fixed_loop fuel config metadata words start_idx chunk_id chunks = Some result ->
    Forall P result.
Proof.
  intros HP. induction fuel as [|fuel IH];
    intros start_idx chunk_id chunks result Hs Hchunks; simpl.
  - destruct (start_idx <? _); [done|]. by intros [= <-].
  - destruct (start_idx <? Z.of_nat (length words)) eqn:E;
      [|by intros [= <-]].
    unfold fixed_step.
    destruct (min_chunk_size config <=? _) eqn:Hmin;
      destruct ((start_idx <=? _) && (_ =? _)).
    + intros [= <-]. apply Forall_app. split; [done|].
      constructor; [|constructor]. apply HP; lia.
    + apply IH; [lia|]. apply Forall_app. split; [done|].
      constructor; [|constructor]. apply HP; lia.
    + by intros [= <-].
    + apply IH; [lia|done].
Qed.

(** The token count of a fixed-strategy chunk is within [chunk_size], or is
    the floor of 1. *)
Lemma fixed_loop_token_bound fuel result :
  0 <= chunk_size config ->
  fixed_loop fuel config metadata words 0 0 [] = Some result ->
  Forall (fun c => token_count c <= Z.max 1 (chunk_size config)) result.
Proof.
  intros Hcs. apply fixed_loop_Forall; [|lia|constructor].
  intros start_idx chunk_id Hs _. simpl.
  assert (0 <= words_per_chunk config /\ 4 * words_per_chunk config <= 3 * chunk_size config)
    as [Hw Hw'].
  { unfold words_per_chunk, int_three_quarters.
    rewrite Z.quot_div_nonneg by lia.
    pose proof (Z.div_mod (3 * chunk_size config) 4 ltac:(lia)).
    pose proof (Z.mod_pos_bound (3 * chunk_size config) 4 ltac:(lia)).
    split; [apply Z.div_pos; lia|lia]. }
  rewrite window_tokens by done.
  destruct (window_end_bounds start_idx Hs Hw) as [_ Hlen].
  apply Z.max_lub; [lia|].
  etransitivity; [|apply Z.le_max_r].
  apply Z.div_le_upper_bound; lia.
Qed.

End windows.

(** ** Token counts of the chunks *)

Lemma fixed_token_bound config text metadata :
  0 <= chunk_size config ->
  Forall (fun c => token_count c <= Z.max 1 (chunk_size config))
    (_chunk_fixed_size config text metadata).
Proof.
  intros Hcs. unfold _chunk_fixed_size, run_fixed.
  destruct (fixed_loop _ _ _ _ _ _ _) as [result|] eqn:Hrun; [|constructor].
  simpl. eapply fixed_loop_token_bound; [apply split_words|done|done].
Qed.

(** [splice] appends its sub-chunks, each under a new id. *)
Lemma splice_appends sub_chunks chunks chunk_id :
  exists renamed,
    fst (splice sub_chunks chunks chunk_id) = chunks ++ renamed
    /\ Forall2 (fun c' c => exists new_id, c' = set_id c new_id)
         renamed sub_chunks.
Proof.
  revert chunks chunk_id.
  induction sub_chunks as [|c sub IH]; intros chunks chunk_id; simpl.
  - exists []. by rewrite app_nil_r.
  - destruct (IH (chunks ++ [set_id c (chunk_name chunk_id)]) (chunk_id + 1))
      as (renamed & Heq & Hall).
    exists (set_id c (chunk_name chunk_id) :: renamed).
    rewrite Heq, <- app_assoc. split; [done|]. constructor; eauto.
Qed.

Lemma paragraph_step_invariant config metadata st para :
  0 <= chunk_size config ->
  paragraph_invariant config st ->
  paragraph_invariant config (paragraph_step config metadata st para).
Proof.
  intros Hcs [Hchunks Hcur]. unfold paragraph_step.
  destruct (negb (PyStr.truthy (PyStr.strip para))); [done|].
  destruct (chunk_size config <? _) eqn:Hbig.
  - match goal with
    | |- context [splice ?sub ?cs ?cid] =>
        destruct (splice_appends sub cs cid) as (renamed & Heq & Hren)
    end.
    destruct (splice _ _ _) as [chunks' chunk_id']. simpl in Heq. subst chunks'.
    split; simpl.
    + apply Forall_app. split.
      * destruct (nonempty (current_chunk st)) eqn:Hne; simpl; [|done].
        apply Forall_app. split; [done|]. constructor; [|constructor].
        simpl. specialize (Hcur eq_refl). lia.
      * pose proof (fixed_token_bound config (PyStr.strip para) metadata Hcs)
          as Hfix.
        revert Hfix. induction Hren as [|c' c ? ? [new_id ->] ? IH];
          intros Hfix; [constructor|].
        inversion Hfix; subst. constructor; [done|]. by apply IH.
    + destruct (nonempty (current_chunk st)) eqn:Hne; simpl; [done|].
      by rewrite Hne.
  - destruct (current_tokens st + _ <=? chunk_size config) eqn:Hfit; simpl.
    + split; simpl; [done|]. intros _. lia.
    + split; simpl; [|intros _; lia].
      destruct (nonempty (current_chunk st)) eqn:Hne; simpl; [|done].
      apply Forall_app. split; [done|]. constructor; [|constructor].
      simpl. specialize (Hcur eq_refl). lia.
Qed.

Lemma paragraph_fold_invariant config metadata paragraphs st :
  0 <= chunk_size config ->
  paragraph_invariant config st ->
  paragraph_invariant config
    (fold_left (paragraph_step config metadata) paragraphs st).
Proof.
  intros Hcs. revert st. induction paragraphs as [|p ps IH]; intros st Hst;
    simpl; [done|].
  apply IH. by apply paragraph_step_invariant.
Qed.

Lemma paragraph_token_bound config text metadata :
  0 <= chunk_size config ->
  Forall (fun c => token_count c <= Z.max 1 (chunk_size config))
    (_chunk_paragraph config text metadata).
Proof.
  intros Hcs. unfold _chunk_paragraph.
  destruct (paragraph_fold_invariant config metadata (PyStr.split_blank text)
              {| chunks := []; current_chunk := []; current_tokens := 0;
                 chunk_id := 0 |} Hcs) as [Hchunks Hcur].
  { split; [constructor|done]. }
  destruct (nonempty _) eqn:Hne; [|done].
  apply Forall_app. split; [done|]. constructor; [|constructor].
  simpl. specialize (Hcur eq_refl). lia.
Qed.

(** ** What becomes of an oversize paragraph *)

(** The paragraph loop only ever appends to [chunks]. *)
Lemma paragraph_step_appends config metadata st para :
  exists more, chunks (paragraph_step config metadata st para) = chunks st ++ more.
Proof.
  unfold paragraph_step.
  destruct (negb _); [exists []; by rewrite app_nil_r|].
  destruct (chunk_size config <? _).
  - match goal with
    | |- context [splice ?sub ?cs ?cid] =>
        destruct (splice_appends sub cs cid) as (renamed & Heq & _)
    end.
    destruct (splice _ _ _) as [chunks' chunk_id']. simpl in Heq. subst chunks'.
    simpl. destruct (nonempty (current_chunk st)); simpl.
    + rewrite <- app_assoc. eauto.
    + eauto.
  - destruct (_ <=? chunk_size config); simpl.
    + exists []. by rewrite app_nil_r.
    + destruct (nonempty (current_chunk st)); simpl; [eauto|].
      exists []. by rewrite app_nil_r.
Qed.

Lemma paragraph_fold_appends config metadata paragraphs st :
  exists more,
    chunks (fold_left (paragraph_step config metadata) paragraphs st)
    = chunks st ++ more.
Proof.
  revert st. induction paragraphs as [|p ps IH]; intros st; simpl.
  - exists []. by rewrite app_nil_r.
  - destruct (IH (paragraph_step config metadata st p)) as [more Hmore].
    destruct (paragraph_step_appends config metadata st p) as [more' Hmore'].
    rewrite Hmore, Hmore', <- app_assoc. eauto.
Qed.

Lemma Forall2_In_r {A B} (R : A -> B -> Prop) (l : list A) (k : list B) (y : B) :
  Forall2 R l k -> In y k -> exists x, In x l /\ R x y.
Proof.
  induction 1 as [|x y' l k HR _ IH]; simpl; [done|].
  intros [<-|Hy]; [eauto|]. destruct (IH Hy) as (x' & ? & ?). eauto.
Qed.

(** Every fixed-strategy chunk of an oversize paragraph is appended, under
    a new id, by the pass of the loop that meets the paragraph. *)
Lemma paragraph_step_oversize config metadata st para c :
  PyStr.truthy (PyStr.strip para) = true ->
  chunk_size config < TokenCounter.count_tokens_in_chunk (PyStr.strip para) ->
  In c (_chunk_fixed_size config (PyStr.strip para) metadata) ->
  exists new_id,
    In (set_id c new_id) (chunks (paragraph_step config metadata st para)).
Proof.
  intros Ht Hbig Hc. unfold paragraph_step. rewrite Ht. simpl.
  apply Z.ltb_lt in Hbig. rewrite Hbig.
  match goal with
  | |- context [splice ?sub ?cs ?cid] =>
      destruct (splice_appends sub cs cid) as (renamed & Heq & Hren)
  end.
  destruct (splice _ _ _) as [chunks' chunk_id']. simpl in Heq. subst chunks'.
  simpl. destruct (Forall2_In_r _ _ _ _ Hren Hc) as (c' & Hc' & new_id & ->).
  exists new_id. apply in_or_app. by right.
Qed.

Lemma paragraph_keeps_oversize_chunks config text metadata para c :
  In para (PyStr.split_blank text) ->
  PyStr.truthy (PyStr.strip para) = true ->
  chunk_size config < TokenCounter.count_tokens_in_chunk (PyStr.strip para) ->
  In c (_chunk_fixed_size config (PyStr.strip para) metadata) ->
  exists new_id, In (set_id c new_id) (_chunk_paragraph config text metadata).
Proof.
  intros Hpara Ht Hbig Hc. unfold _chunk_paragraph.
  apply in_split in Hpara as (before & after & ->).
  rewrite fold_left_app. simpl.
  match goal with
  | |- context [paragraph_step config metadata ?st para] =>
      destruct (paragraph_step_oversize config metadata st para c Ht Hbig Hc)
        as [new_id Hin];
      destruct (paragraph_fold_appends config metadata after
                  (paragraph_step config metadata st para)) as [more Hmore]
  end.
  exists new_id. rewrite Hmore.
  destruct (nonempty _); repeat (apply in_or_app; left); done.
Qed.

(** ** Coverage of the fixed strategy *)

Section coverage.
Variable config : ChunkConfig.
Variable metadata : option (gmap string string).
Variable words : list string.
Hypothesis words_are_words : Forall (fun w => PyStr.is_word w = true) words.
Hypothesis keeps_every_window : min_chunk_size config <= 1.
Hypothesis window_not_empty : 1 <= words_per_chunk config.
Hypothesis overlap_not_negative : 0 <= overlap_words config.

Lemma covered_app chunks more i : covered words chunks i -> covered words (chunks ++ more) i.
Proof.
  intros (c & a & b & Hc & ?). exists c, a, b. split; [|done].
  apply in_or_app. by left.
Qed.

Lemma window_chunk_covers chunks start_idx chunk_id i :
  0 <= start_idx <= i -> i < window_end config words start_idx ->
  covered words (chunks ++ [window_chunk config metadata words start_idx chunk_id]) i.
Proof.
  intros Hs Hi.
  exists (window_chunk config metadata words start_idx chunk_id),
    start_idx, (window_end config words start_idx).
  split; [apply in_or_app; right; by left|].
  split; [done|]. split; [|done]. unfold window_end in *. lia.
Qed.

Lemma fixed_loop_covers fuel start_idx chunk_id chunks result :
  0 <= start_idx ->
  (forall i, 0 <= i < start_idx -> i < Z.of_nat (length words) ->
             covered words chunks i) ->
  fixed_loop fuel config metadata words start_idx chunk_id chunks = Some result ->
  forall i, 0 <= i < Z.of_nat (length words) -> covered words result i.
Proof.
  revert start_idx chunk_id chunks.
  induction fuel as [|fuel IH]; intros start_idx chunk_id chunks Hs Hcov; simpl.
  - destruct (start_idx <? Z.of_nat (length words)) eqn:E; [done|].
    intros [= <-] i Hi. apply Hcov; lia.
  - destruct (start_idx <? Z.of_nat (length words)) eqn:E;
      [|intros [= <-] i Hi; apply Hcov; lia].
    unfold fixed_step.
    assert ((min_chunk_size config
             <=? TokenCounter.count_tokens_in_chunk
                   (window_text config words start_idx)) = true) as ->.
    { apply Z.leb_le. unfold TokenCounter.count_tokens_in_chunk,
        TokenCounter.estimate_tokens. lia. }
    assert (start_idx < window_end config words start_idx) as Hend
      by (unfold window_end; lia).
    destruct ((start_idx <=? _) && (_ =? _)) eqn:Hbreak.
    + intros [= <-] i Hi. apply andb_prop in Hbreak as [_ Hlen].
      destruct (Z.lt_ge_cases i start_idx).
      * apply covered_app, Hcov; lia.
      * apply window_chunk_covers; lia.
    + apply IH; [lia|]. intros i Hi Hlen.
      destruct (Z.lt_ge_cases i start_idx).
      * apply covered_app, Hcov; lia.
      * apply window_chunk_covers; lia.
Qed.

(** Every word occurs in the text of a chunk the loop returns. *)
Lemma fixed_loop_keeps_words fuel result w :
  fixed_loop fuel config metadata words 0 0 [] = Some result ->
  In w words ->
  exists c, In c result /\ In w (PyStr.split (text c)).
Proof.
  intros Hrun Hw. apply list_elem_of_In, list_elem_of_lookup in Hw as [n Hn].
  assert (n < length words)%nat as Hlt by (by eapply lookup_lt_Some).
  assert (0 <= Z.of_nat n < Z.of_nat (length words)) as Hn' by lia.
  assert (forall i, 0 <= i < 0 -> i < Z.of_nat (length words) ->
                    covered words [] i) as Hnone by (intros; lia).
  destruct (fixed_loop_covers fuel 0 0 [] result (Z.le_refl 0) Hnone
              Hrun (Z.of_nat n) Hn') as (c & a & b & Hc & Ha & Hb & Htext).
  exists c. split; [done|]. rewrite Htext.
  rewrite split_join_words by (by apply py_slice_Forall).
  apply (py_slice_lookup words a b (Z.of_nat n)); [lia|lia|lia|].
  by rewrite Nat2Z.id.
Qed.

End coverage.

Lemma fixed_chunks_reach_min config text metadata :
  Forall (fun c => min_chunk_size config <= token_count c)
    (_chunk_fixed_size config text metadata).
Proof.
  unfold _chunk_fixed_size, run_fixed.
  destruct (fixed_loop _ _ _ _ _ _ _) as [result|] eqn:Hrun; [|constructor].
  simpl. eapply (fixed_loop_Forall config metadata (PyStr.split text));
    [|reflexivity|constructor|exact Hrun].
  intros start_idx chunk_id _ Hmin. exact Hmin.
Qed.

Lemma fixed_keeps_words config text metadata w :
  min_chunk_size config <= 1 -> 2 <= chunk_size config -> 0 <= overlap config ->
  In w (PyStr.split text) ->
  exists c, In c (_chunk_fixed_size config text metadata)
            /\ In w (PyStr.split (DocumentChunker.text c)).
Proof.
  intros Hmin Hcs Hov Hw. unfold _chunk_fixed_size, run_fixed.
  destruct (fixed_loop_returns config metadata (PyStr.split text)
              (length (PyStr.split text)) 0 0 []) as [result Hrun]; [lia|].
  rewrite Hrun. simpl.
  eapply (fixed_loop_keeps_words config metadata (PyStr.split text));
    [apply split_words|done| | |exact Hrun|done].
  - unfold words_per_chunk, int_three_quarters.
    rewrite Z.quot_div_nonneg by lia. apply Z.div_le_lower_bound; lia.
  - unfold overlap_words, int_three_quarters. apply Z.quot_pos; lia.
Qed.

(** C4, as the code has it.  With a [chunk_size] that is not negative, the
    [token_count] of every chunk of the fixed and of the paragraph strategy
    is at most [max(1, chunk_size)].  A paragraph whose own token count
    exceeds [chunk_size] is split by the fixed strategy, whose chunks all
    enter the result and all reach [min_chunk_size]: the windows below
    [min_chunk_size] are dropped, and every word of the paragraph is kept
    when [min_chunk_size <= 1], [chunk_size >= 2] and [overlap >= 0]. *)
Theorem chunk_token_bound_and_oversize_split config text metadata :
  0 <= chunk_size config ->
  (forall c, In c (_chunk_fixed_size config text metadata) ->
     token_count c <= Z.max 1 (chunk_size config))
  /\ (forall c, In c (_chunk_paragraph config text metadata) ->
        token_count c <= Z.max 1 (chunk_size config))
  /\ (forall para,
        In para (PyStr.split_blank text) ->
        PyStr.truthy (PyStr.strip para) = true ->
        chunk_size config
          < TokenCounter.count_tokens_in_chunk (PyStr.strip para) ->
        (forall c,
           In c (_chunk_fixed_size config (PyStr.strip para) metadata) ->
           min_chunk_size config <= token_count c
           /\ exists new_id,
                In (set_id c new_id) (_chunk_paragraph config text metadata))
        /\ (min_chunk_size config <= 1 -> 2 <= chunk_size config ->
            0 <= overlap config ->
            forall w, In w (PyStr.split (PyStr.strip para)) ->
              exists c, In c (_chunk_paragraph config text metadata)
                        /\ In w (PyStr.split (DocumentChunker.text c)))).
Proof.
  intros Hcs. split; [|split].
  - apply List.Forall_forall, fixed_token_bound, Hcs.
  - apply List.Forall_forall, paragraph_token_bound, Hcs.
  - intros para Hpara Ht Hbig. split.
    + intros c Hc. split.
      * by apply (proj1 (List.Forall_forall _ _)
                    (fixed_chunks_reach_min config (PyStr.strip para) metadata)).
      * by apply (paragraph_keeps_oversize_chunks config text metadata para).
    + intros Hmin Hcs2 Hov w Hw.
      destruct (fixed_keeps_words config (PyStr.strip para) metadata w
                  Hmin Hcs2 Hov Hw) as (c & Hc & Hwc).
      destruct (paragraph_keeps_oversize_chunks config text metadata para c
                  Hpara Ht Hbig Hc) as [new_id Hin].
      exists (set_id c new_id). split; [done|]. done.
Qed.

Lemma chunk_token_bound_and_oversize_split_witness :
  (forall c, In c (_chunk_fixed_size ex_config ex_paragraph None) ->
     token_count c <= Z.max 1 20)
  /\ (forall c, In c (_chunk_paragraph ex_config ex_paragraph None) ->
        token_count c <= Z.max 1 20).
Proof.
  pose proof (chunk_token_bound_and_oversize_split ex_config ex_paragraph None
                ltac:(simpl; lia)) as (Hfixed & Hparagraph & _).
  split; assumption.
Defined.

(** C4 fails as stated: the twenty-word paragraph exceeds [chunk_size], and
    the only chunk made of it holds its first fifteen words; the window with
    the last five words is below [min_chunk_size] and is dropped. *)
Lemma oversize_paragraph_dropped_counterexample :
  TokenCounter.count_tokens_in_chunk (PyStr.strip ex_paragraph) = 26
  /\ chunk_size ex_config = 20
  /\ map text (_chunk_paragraph ex_config ex_paragraph None)
     = ["the charity runs food banks and shelters in every city of the region and it"]
  /\ In "volunteers" (PyStr.split ex_paragraph).
Proof.
  split; [vm_compute; reflexivity|]. split; [reflexivity|].
  split; [vm_compute; reflexivity|]. vm_compute. tauto.
Qed.

End chunker_properties.

(** * Properties of the retriever and of the context builder *)

Section retrieval_properties.

Import ChromaVectorDB SemanticRetriever ContextBuilder Examples.

Arguments total_tokens : simpl never.

(** ** Comparisons of binary64 numbers *)

Lemma SFcompare_antisym (x y : spec_float) :
  SFcompare y x = option_map CompOpp (SFcompare x y).
Proof.
  destruct x as [sx| sx | |sx mx ex], y as [sy|sy| |sy my ey]; simpl;
    try reflexivity;
    try (destruct sx; reflexivity); try (destruct sy; reflexivity);
    try (destruct sx, sy; reflexivity).
  destruct sx, sy; simpl; try reflexivity;
    rewrite (Z.compare_antisym ex ey); destruct (ex ?= ey); simpl; try reflexivity;
    change (Pos.compare_cont Eq my mx) with (my ?= mx)%positive;
    change (Pos.compare_cont Eq mx my) with (mx ?= my)%positive;
    rewrite (Pos.compare_antisym mx my); destruct (mx ?= my)%positive; reflexivity.
Qed.

(** [x >= y] excludes [x < y]. *)
Lemma float_leb_not_ltb (x y : float) :
  (y <=? x)%float = true -> (x <? y)%float = false.
Proof.
  rewrite FloatAxioms.leb_spec, FloatAxioms.ltb_spec. unfold SFleb, SFltb.
  rewrite (SFcompare_antisym (Prim2SF x) (Prim2SF y)).
  destruct (SFcompare (Prim2SF x) (Prim2SF y)) as [[]|]; simpl; congruence.
Qed.

(** ** The retriever *)


Lemma py_prefix_In {A} (xs : list A) (k : Z) (x : A) :
  In x (py_prefix xs k) -> In x xs.
Proof.
  unfold py_prefix. rewrite <- !list_elem_of_In. apply subseteq_take.
Qed.

Lemma py_prefix_length_le {A} (xs : list A) (k : Z) :
  (length (py_prefix xs k) <= length xs)%nat.
Proof. unfold py_prefix. rewrite length_take. lia. Qed.

Lemma py_prefix_length_bound {A} (xs : list A) (k : Z) :
  0 <= k -> Z.of_nat (length (py_prefix xs k)) <= k.
Proof.
  intros Hk. unfold py_prefix, slice_bound. rewrite length_take.
  destruct (k <? 0) eqn:E; lia.
Qed.

Lemma insert_desc_perm (x : RetrievedResult) (l : list RetrievedResult) :
  insert_desc x l ≡ₚ x :: l.
Proof.
  induction l as [|y l IH]; simpl; [done|].
  destruct (similarity x <? similarity y)%float; [|done].
  rewrite IH. apply Permutation_swap.
Qed.

Lemma rerank_perm (results : list RetrievedResult) (qe : list float) :
  _rerank_results results qe ≡ₚ results.
Proof.
  unfold _rerank_results. induction results as [|x l IH]; simpl; [done|].
  rewrite insert_desc_perm. by rewrite IH.
Qed.

Lemma final_results_In config qe k results r :
  In r (final_results config qe k results) ->
  In r results /\ (similarity_threshold config <=? similarity r)%float = true.
Proof.
  unfold final_results. intros H. apply py_prefix_In in H.
  assert (In r (filter_threshold config results)) as Hf.
  { destruct (rerank config && _); [|done].
    rewrite <- list_elem_of_In in *. by rewrite rerank_perm in H. }
  unfold filter_threshold in Hf. by apply filter_In in Hf.
Qed.

Lemma final_results_length config qe k results :
  (length (final_results config qe k results)
   <= length (filter_threshold config results))%nat.
Proof.
  unfold final_results. etransitivity; [apply py_prefix_length_le|].
  destruct (rerank config && _); [|done].
  by rewrite rerank_perm.
Qed.

Lemma search_and_select_run config qe cn k fr :
  exists fr',
    search_and_select config qe cn k fr =
      (Ok (final_results config qe k
             (search (vector_db (self fr)) qe (k * 2) cn 0%float)), fr')
    /\ vector_db (self fr') = vector_db (self fr).
Proof.
  unfold search_and_select, final_results, bind, when, ret, set_log,
    append_log, modify.
  destruct (debug config), (rerank config),
    (1 <? Z.of_nat (length (filter_threshold config _))); simpl; eauto.
Qed.

Lemma retrieve_embedding_fails query charity_name top_k s e :
  embed_query s query = Raise e ->
  exists s', retrieve query charity_name top_k s = (Ok [], s')
             /\ vector_db s' = vector_db s.
Proof.
  intros He. unfold retrieve, try_except, retrieve_body, bind. simpl.
  rewrite He. unfold retrieve_handler, bind, when, ret, set_log, append_log, modify.
  destruct (debug (config s)); simpl; eauto.
Qed.

Lemma retrieve_missing_collection query charity top_k s qe :
  embed_query s query = Ok qe ->
  PyStr.truthy charity = true ->
  client (vector_db s) !! normalized_name charity = None ->
  exists s', retrieve query (Some charity) top_k s = (Ok [], s')
             /\ vector_db s' = vector_db s
             /\ retrieval_logs s' = retrieval_logs s.
Proof.
  intros He Ht Hc. unfold retrieve, try_except, retrieve_body, bind. simpl.
  rewrite He, Ht.
  unfold when, ret, set_log, modify, on_vector_db, get_collection, try_except,
    bind, lift, client_get_collection.
  destruct (debug (config s)); simpl; rewrite Hc; simpl; eexists; split;
    try reflexivity; simpl; by destruct (vector_db s).
Qed.

Lemma retrieve_found_collection query charity top_k s qe col :
  embed_query s query = Ok qe ->
  PyStr.truthy charity = true ->
  client (vector_db s) !! normalized_name charity = Some col ->
  let k := or_default top_k (SemanticRetriever.top_k (config s)) in
  let db := {| client := client (vector_db s); collection := Some col |} in
  exists s',
    retrieve query (Some charity) top_k s =
      (Ok (final_results (config s) qe k
             (search db qe (k * 2) (Some charity) 0%float)), s')
    /\ vector_db s' = db.
Proof.
  intros He Ht Hc k db. unfold retrieve, try_except, retrieve_body, bind. simpl.
  rewrite He, Ht.
  unfold when at 1. unfold ret, set_log, modify, on_vector_db, get_collection,
    try_except, bind, lift, client_get_collection.
  fold k.
  destruct (debug (config s)) eqn:Hd; simpl; rewrite Hc; simpl;
    match goal with
    | |- context [search_and_select ?c ?q ?n ?kk ?fr] =>
        destruct (search_and_select_run c q n kk fr) as (fr' & Hrun & Hdb);
        rewrite Hrun; simpl; exists (self fr'); split; [reflexivity|];
        rewrite Hdb; reflexivity
    end.
Qed.

Lemma retrieve_unnamed query charity_name top_k s qe :
  embed_query s query = Ok qe ->
  where_filter charity_name = None ->
  let k := or_default top_k (SemanticRetriever.top_k (config s)) in
  exists s',
    retrieve query charity_name top_k s =
      (Ok (final_results (config s) qe k
             (search (vector_db s) qe (k * 2) charity_name 0%float)), s')
    /\ vector_db s' = vector_db s.
Proof.
  intros He Hn k. unfold retrieve, try_except, retrieve_body, bind. simpl.
  rewrite He. fold k.
  assert (forall fr,
    match charity_name with
    | Some charity =>
        if PyStr.truthy charity then
          bind (try_except
                  (on_vector_db (get_collection
                     (normalized_name charity)) ;; ret true)
                  (fun _ => ret false))
            (fun found : bool =>
               if found then search_and_select (config s) qe charity_name k
               else ret [])
        else search_and_select (config s) qe charity_name k
    | None => search_and_select (config s) qe charity_name k
    end fr = search_and_select (config s) qe charity_name k fr) as Hsel.
  { intros fr. destruct charity_name as [c|]; [|done].
    simpl in Hn. by destruct (PyStr.truthy c). }
  unfold when at 1. unfold ret, set_log, modify.
  destruct (debug (config s)) eqn:Hd; simpl; unfold bind in Hsel; rewrite Hsel;
    match goal with
    | |- context [search_and_select ?c ?q ?n ?kk ?fr] =>
        destruct (search_and_select_run c q n kk fr) as (fr' & Hrun & Hdb);
        rewrite Hrun; simpl; exists (self fr'); split; [reflexivity|];
        rewrite Hdb; reflexivity
    end.
Qed.


(** The result of [retrieve] is empty, or it is what [final_results] selects
    from the search of the database the call leaves selected. *)
Lemma retrieve_result query charity_name top_k s rs s' :
  retrieve query charity_name top_k s = (Ok rs, s') ->
  let k := or_default top_k (SemanticRetriever.top_k (config s)) in
  rs = [] \/
  exists qe,
    embed_query s query = Ok qe /\
    rs = final_results (config s) qe k
           (search (vector_db s') qe (k * 2) charity_name 0%float).
Proof.
  intros H k.
  destruct (embed_query s query) as [qe|e] eqn:He.
  - destruct (where_filter charity_name) as [charity|] eqn:Hn.
    + assert (charity_name = Some charity /\ PyStr.truthy charity = true)
        as [-> Ht].
      { destruct charity_name as [c|]; [|done]. simpl in Hn.
        destruct (PyStr.truthy c) eqn:E; [|done]. by inversion Hn; subst. }
      destruct (client (vector_db s) !! normalized_name charity) as [col|] eqn:Hc.
      * destruct (retrieve_found_collection query charity top_k s qe col He Ht Hc)
          as (s'' & Hrun & Hdb).
        rewrite Hrun in H. inversion H; subst. right. exists qe.
        split; [done|]. by rewrite Hdb.
      * destruct (retrieve_missing_collection query charity top_k s qe He Ht Hc)
          as (s'' & Hrun & _).
        rewrite Hrun in H. inversion H. by left.
    + destruct (retrieve_unnamed query charity_name top_k s qe He Hn)
        as (s'' & Hrun & Hdb).
      rewrite Hrun in H. inversion H; subst. right. exists qe.
      split; [done|]. by rewrite Hdb.
  - destruct (retrieve_embedding_fails query charity_name top_k s e He)
      as (s'' & Hrun & _).
    rewrite Hrun in H. inversion H. by left.
Qed.

Lemma retrieve_returns query charity_name top_k s :
  exists rs s', retrieve query charity_name top_k s = (Ok rs, s').
Proof.
  destruct (embed_query s query) as [qe|e] eqn:He.
  - destruct (where_filter charity_name) as [charity|] eqn:Hn.
    + assert (charity_name = Some charity /\ PyStr.truthy charity = true)
        as [-> Ht].
      { destruct charity_name as [c|]; [|done]. simpl in Hn.
        destruct (PyStr.truthy c) eqn:E; [|done]. by inversion Hn; subst. }
      destruct (client (vector_db s) !! normalized_name charity) as [col|] eqn:Hc.
      * destruct (retrieve_found_collection query charity top_k s qe col He Ht Hc)
          as (s'' & Hrun & _); eauto.
      * destruct (retrieve_missing_collection query charity top_k s qe He Ht Hc)
          as (s'' & Hrun & _); eauto.
    + destruct (retrieve_unnamed query charity_name top_k s qe He Hn)
        as (s'' & Hrun & _); eauto.
  - destruct (retrieve_embedding_fails query charity_name top_k s e He)
      as (s'' & Hrun & _); eauto.
Qed.

(** Every item [search] returns passed its threshold test, and its
    similarity is one minus a distance the collection reported. *)
Lemma format_results_In i rows threshold r :
  In r (format_results i rows threshold) ->
  (threshold <=? similarity r)%float = true /\
  exists doc meta distance,
    In (doc, meta, distance) rows /\ similarity r = (1 - distance)%float.
Proof.
  revert i. induction rows as [|[[doc meta] distance] rows IH]; intros i; simpl;
    [done|].
  destruct (threshold <=? 1 - distance)%float eqn:E.
  - intros [<-|H]; simpl.
    + split; [done|]. exists doc, meta, distance. auto.
    + destruct (IH _ H) as (? & d & m & x & ? & ?). split; [done|].
      exists d, m, x. auto.
  - intros H. destruct (IH _ H) as (? & d & m & x & ? & ?). split; [done|].
    exists d, m, x. auto.
Qed.

Lemma zip3_In_distance {A B C} (a : list A) (b : list B) (c : list C) x y z :
  In (x, y, z) (zip3 a b c) -> In z c.
Proof.
  revert b c. induction a as [|x' a IH]; intros [|y' b] [|z' c]; simpl; try done.
  intros [H|H]; [inversion H; auto|]. right. eauto.
Qed.

Lemma search_In db qe n name threshold r :
  In r (search db qe n name threshold) ->
  (threshold <=? similarity r)%float = true /\
  exists col results dists distance,
    collection db = Some col /\
    query col qe n (where_filter name) = Ok results /\
    distances results = dists :: tail (distances results) /\
    In distance dists /\
    similarity r = (1 - distance)%float.
Proof.
  unfold search. destruct (collection db) as [col|]; [|done].
  unfold search_body.
  destruct (query col qe n (where_filter name)) as [results|e] eqn:Hq; [|done].
  destruct (documents results) as [|docs ?]; [done|].
  destruct (DocumentChunker.nonempty docs); [|done].
  destruct (metadatas results) as [|metas ?]; [done|]. simpl.
  destruct (distances results) as [|dists ?] eqn:Hd; [done|]. simpl.
  intros H. apply format_results_In in H as (Hle & doc & meta & d & Hin & Hs).
  split; [done|]. exists col, results, dists, d.
  rewrite Hd. simpl. repeat split; try done.
  by apply zip3_In_distance in Hin.
Qed.


Example retrieve_example :
  fst (retrieve "who runs blood drives" (Some "Red Cross") None
         (ex_retriever SemanticRetriever.default_config))
  = Ok ex_hits.
Proof. vm_compute. reflexivity. Qed.

(** C1. Every item [retrieve] returns has a similarity greater than or equal
    to the configured [similarity_threshold], and a candidate whose
    similarity is strictly below the threshold is not in the result. *)
Theorem retrieve_threshold_invariant query charity_name top_k s rs s' :
  retrieve query charity_name top_k s = (Ok rs, s') ->
  (forall r, In r rs ->
     (similarity_threshold (config s) <=? similarity r)%float = true)
  /\ (forall c, (similarity c <? similarity_threshold (config s))%float = true ->
        ~ In c rs).
Proof.
  intros H.
  assert (forall r, In r rs ->
            (similarity_threshold (config s) <=? similarity r)%float = true) as Hge.
  { intros r Hr. destruct (retrieve_result _ _ _ _ _ _ H) as [->|(qe & _ & ->)];
      [done|].
    by apply final_results_In in Hr as [_ ?]. }
  split; [done|]. intros c Hlt Hc.
  apply Hge, float_leb_not_ltb in Hc. congruence.
Qed.

Lemma retrieve_threshold_invariant_witness :
  (forall r,
     In r ex_hits ->
     (similarity_threshold SemanticRetriever.default_config <=? similarity r)%float
     = true)
  /\ (forall c,
        (similarity c <? similarity_threshold SemanticRetriever.default_config)%float
        = true ->
        ~ In c ex_hits).
Proof.
  eapply (retrieve_threshold_invariant "who runs blood drives"
            (Some "Red Cross") None
            (ex_retriever SemanticRetriever.default_config)).
  vm_compute. reflexivity.
Defined.

(** C10. [search] returns only items whose similarity, one minus the
    distance the collection reported, is at least its [threshold] argument;
    every item [retrieve] returns comes from a [search] with threshold 0.0;
    so no item [retrieve] returns has a negative similarity, whatever the
    configured [similarity_threshold]. *)
Theorem retrieve_similarity_nonnegative query charity_name top_k s rs s' :
  retrieve query charity_name top_k s = (Ok rs, s') ->
  (forall db qe n name threshold r,
     In r (search db qe n name threshold) ->
     (threshold <=? similarity r)%float = true
     /\ exists col results dists distance,
          collection db = Some col
          /\ ChromaVectorDB.query col qe n (where_filter name) = Ok results
          /\ distances results = dists :: tail (distances results)
          /\ In distance dists
          /\ similarity r = (1 - distance)%float)
  /\ (exists qe,
        forall r, In r rs ->
          In r (search (vector_db s') qe
                  (or_default top_k (SemanticRetriever.top_k (config s)) * 2)
                  charity_name 0%float))
  /\ (forall r, In r rs ->
        (0 <=? similarity r)%float = true
        /\ (similarity r <? 0)%float = false).
Proof.
  intros H. split; [|split].
  - intros db qe n nm threshold r. apply search_In.
  - destruct (retrieve_result _ _ _ _ _ _ H) as [->|(qe & _ & ->)].
    + exists []. intros r [].
    + exists qe. intros r Hr. by apply final_results_In in Hr as [? _].
  - intros r Hr.
    assert ((0 <=? similarity r)%float = true) as H0.
    { destruct (retrieve_result _ _ _ _ _ _ H) as [->|(qe & _ & ->)]; [done|].
      apply final_results_In in Hr as [Hr _]. by apply search_In in Hr as [? _]. }
    split; [done|]. by apply float_leb_not_ltb.
Qed.

Lemma retrieve_similarity_nonnegative_witness :
  fst (retrieve "who runs blood drives" (Some "Red Cross") None
         (ex_retriever negative_threshold_config))
  = Ok ex_hits
  /\ (forall r,
        In r ex_hits ->
        (0 <=? similarity r)%float = true /\ (similarity r <? 0)%float = false).
Proof.
  split; [vm_compute; reflexivity|].
  eapply (retrieve_similarity_nonnegative "who runs blood drives"
            (Some "Red Cross") None (ex_retriever negative_threshold_config)).
  vm_compute. reflexivity.
Defined.

(** C7, as the code has it.  With [k] the per-call [top_k] when it is given
    and not zero, and the configured default otherwise: [retrieve] returns
    at most [k] items when [k] is not negative, and never more items than
    the search of the selected collection leaves after the threshold
    filter. *)
Theorem retrieve_top_k_bound query charity_name top_k s rs s' :
  retrieve query charity_name top_k s = (Ok rs, s') ->
  let k := or_default top_k (SemanticRetriever.top_k (config s)) in
  (0 <= k -> Z.of_nat (length rs) <= k)
  /\ (forall qe, embed_query s query = Ok qe ->
        (length rs <=
         length (filter_threshold (config s)
                   (search (vector_db s') qe (k * 2) charity_name 0%float)))%nat).
Proof.
  intros H k. destruct (retrieve_result _ _ _ _ _ _ H) as [->|(qe & He & ->)].
  - split; simpl; intros; lia.
  - split.
    + intros Hk. by apply py_prefix_length_bound.
    + intros qe' He'. rewrite He in He'. inversion He'; subst.
      apply final_results_length.
Qed.

Lemma retrieve_top_k_bound_witness :
  Z.of_nat (length [ex_hit 1 "blood drives" 0.875]) <= 1.
Proof.
  eapply (retrieve_top_k_bound "who runs blood drives" (Some "Red Cross")
            (Some 1) (ex_retriever SemanticRetriever.default_config)).
  - vm_compute. reflexivity.
  - vm_compute. discriminate.
Defined.

(** C7 fails as stated: called with [top_k = 0], [retrieve] falls back to
    the configured default of 5 and returns two items, which is more than
    the 0 it was called with. *)
Lemma retrieve_top_k_zero_counterexample :
  or_default (Some 0) (SemanticRetriever.top_k SemanticRetriever.default_config) = 5
  /\ fst (retrieve "who runs blood drives" (Some "Red Cross") (Some 0)
            (ex_retriever SemanticRetriever.default_config))
     = Ok ex_hits
  /\ ~ Z.of_nat (length ex_hits) <= 0.
Proof.
  split; [reflexivity|]. split; [vm_compute; reflexivity|]. simpl. lia.
Qed.

(** C8, as the code has it.  Called with a non-empty [charity_name] whose
    normalised collection name the client does not hold, [retrieve] returns
    the empty list and leaves the selected collection as it was; when the
    query was embedded it returns before anything is searched or logged. *)
Theorem retrieve_missing_collection_empty query charity top_k s :
  PyStr.truthy charity = true ->
  client (vector_db s) !! normalized_name charity = None ->
  exists s', retrieve query (Some charity) top_k s = (Ok [], s')
             /\ vector_db s' = vector_db s
             /\ (forall qe, embed_query s query = Ok qe ->
                   retrieval_logs s' = retrieval_logs s).
Proof.
  intros Ht Hc. destruct (embed_query s query) as [qe|e] eqn:He.
  - destruct (retrieve_missing_collection query charity top_k s qe He Ht Hc)
      as (s' & Hrun & Hdb & Hlogs).
    exists s'. repeat split; done.
  - destruct (retrieve_embedding_fails query (Some charity) top_k s e He)
      as (s' & Hrun & Hdb).
    exists s'. repeat split; done.
Qed.

Lemma retrieve_missing_collection_empty_witness :
  exists s',
    retrieve "what do they do" (Some "Oxfam GB") None
      (ex_retriever SemanticRetriever.default_config) = (Ok [], s')
    /\ vector_db s' = ex_db
    /\ (forall qe,
          embed_query (ex_retriever SemanticRetriever.default_config)
            "what do they do" = Ok qe ->
          retrieval_logs s' = []).
Proof.
  apply (retrieve_missing_collection_empty "what do they do" "Oxfam GB" None
           (ex_retriever SemanticRetriever.default_config)).
  - reflexivity.
  - vm_compute. reflexivity.
Defined.

(** C8 fails as stated: the empty [charity_name] names no collection of the
    client, yet [retrieve] searches the collection that is selected and
    returns its passages. *)
Lemma retrieve_empty_name_counterexample :
  client ex_db !! normalized_name "" = None
  /\ fst (retrieve "who runs blood drives" (Some "") None
            (ex_retriever SemanticRetriever.default_config))
     = Ok ex_hits.
Proof. split; vm_compute; reflexivity. Qed.

(** With the embedding model unavailable the call returns the empty list
    and logs the error. *)
Example retrieve_offline :
  exists s',
    retrieve "who runs blood drives" (Some "Red Cross") None ex_offline_retriever
    = (Ok [], s')
    /\ (fun log => log !! "error") <$> retrieval_logs s'
       = [Some (LStr "model not loaded")].
Proof. eexists. split; vm_compute; reflexivity. Qed.


(** ** The context builder *)


Lemma total_tokens_cons c cs :
  total_tokens (c :: cs) = chunk_tokens (text c) + total_tokens cs.
Proof. reflexivity. Qed.

(** The loop started in any state includes a prefix of the chunks it is
    given: every inclusion keeps the running total within the budget, and the
    chunk after the prefix, if there is one, would exceed it. *)
Lemma context_loop_prefix chunks max_tokens include_sources parts token_count :
  exists n : nat,
    (n <= length chunks)%nat
    /\ context_loop chunks max_tokens include_sources parts token_count
       = (parts ++ map (format_chunk include_sources) (take n chunks),
          token_count + total_tokens (take n chunks))
    /\ (forall m, (0 < m <= n)%nat ->
          token_count + total_tokens (take m chunks) <= max_tokens)
    /\ (forall c, chunks !! n = Some c ->
          max_tokens < token_count + total_tokens (take n chunks)
                       + chunk_tokens (text c)).
Proof.
  revert parts token_count.
  induction chunks as [|c cs IH]; intros parts token_count.
  - exists 0%nat. simpl. unfold total_tokens. simpl. rewrite app_nil_r, Z.add_0_r.
    repeat split; [lia|intros; lia|done].
  - simpl. destruct (max_tokens <? token_count + chunk_tokens (text c)) eqn:E.
    + exists 0%nat. simpl. unfold total_tokens. simpl.
      rewrite app_nil_r, Z.add_0_r.
      repeat split; [lia|intros; lia|]. intros c' [= <-]. lia.
    + destruct (IH (parts ++ [format_chunk include_sources c])
                  (token_count + chunk_tokens (text c)))
        as (n & Hn & Hrun & Hin & Hout).
      exists (S n). simpl. rewrite Hrun, <- app_assoc. simpl.
      rewrite total_tokens_cons.
      repeat split; [lia|f_equal; lia| |].
      * intros [|m] Hm; [lia|]. simpl. rewrite total_tokens_cons.
        destruct m as [|m]; [rewrite take_0; unfold total_tokens; simpl; lia|].
        specialize (Hin (S m)). lia.
      * intros c' Hc'. specialize (Hout c' Hc'). lia.
Qed.

Lemma chunk_tokens_nonneg chunk_text : 0 <= chunk_tokens chunk_text.
Proof.
  unfold chunk_tokens, TokenCounter.word_count. apply Z.div_pos; lia.
Qed.

(** The builder's estimate is the token estimator's on every text that has
    a word; on a text without words it is 0 where the estimator says 1. *)
Lemma chunk_tokens_estimate chunk_text :
  (1 <= TokenCounter.word_count chunk_text ->
   chunk_tokens chunk_text = TokenCounter.estimate_tokens chunk_text)
  /\ (TokenCounter.word_count chunk_text = 0 ->
      chunk_tokens chunk_text = 0
      /\ TokenCounter.estimate_tokens chunk_text = 1).
Proof.
  unfold chunk_tokens, TokenCounter.estimate_tokens.
  split.
  - intros Hw. rewrite Z.quot_div_nonneg by lia.
    pose proof (Z.div_le_lower_bound (4 * TokenCounter.word_count chunk_text)
                  3 1 ltac:(lia) ltac:(lia)).
    lia.
  - intros ->. split; reflexivity.
Qed.

(** The text of a chunk is the head of the part it is formatted into. *)
Lemma format_chunk_whole include_sources chunk :
  exists rest, format_chunk include_sources chunk = text chunk +:+ rest.
Proof. unfold format_chunk. destruct include_sources; eauto. Qed.

(** With a budget of 4 tokens the two-word passage is included, the walk
    stops at the five-word passage, and the one-word passage after it, which
    would fit, is left out. *)
Example build_context_stops :
  build_context
    [ex_hit 1 "blood drives" 0.875;
     ex_hit 2 "disaster relief in five counties" 0.5;
     ex_hit 3 "gala" 0.25] 4 false
  = "blood drives" +:+ PyStr.nl.
Proof. vm_compute. reflexivity. Qed.

Lemma total_tokens_nonneg chunks : 0 <= total_tokens chunks.
Proof.
  induction chunks as [|c cs IH]; [done|]. rewrite total_tokens_cons.
  pose proof (chunk_tokens_nonneg (text c)). lia.
Qed.

(** C2, as the code has it.  [build_context] includes a prefix of the
    results, in their order and each one whole: every inclusion keeps the sum
    of the estimated token counts within [max_tokens], the walk stops at the
    first chunk that would exceed it, and nothing after that chunk is
    included.  The sum of what is included is within [max_tokens] when
    [max_tokens] is not negative; with a negative [max_tokens] nothing is
    included. *)
Theorem build_context_greedy_prefix chunks max_tokens include_sources :
  exists n : nat,
    let kept := take n chunks in
    (n <= length chunks)%nat
    /\ context_loop chunks max_tokens include_sources [] 0
       = (map (format_chunk include_sources) kept, total_tokens kept)
    /\ (chunks <> [] ->
        build_context chunks max_tokens include_sources
        = PyStr.join ContextBuilder.separator
            (map (format_chunk include_sources) kept))
    /\ (forall c, In c kept ->
          exists rest, format_chunk include_sources c = text c +:+ rest)
    /\ (forall m, (0 < m <= n)%nat -> total_tokens (take m chunks) <= max_tokens)
    /\ (forall c, chunks !! n = Some c ->
          max_tokens < total_tokens kept + chunk_tokens (text c))
    /\ (0 <= max_tokens -> total_tokens kept <= max_tokens)
    /\ (max_tokens < 0 -> kept = []).
Proof.
  destruct (context_loop_prefix chunks max_tokens include_sources [] 0)
    as (n & Hn & Hrun & Hin & Hout).
  exists n. simpl in *.
  assert ((0 < n)%nat -> total_tokens (take n chunks) <= max_tokens) as Hpos.
  { intros H. apply (Hin n). lia. }
  split; [done|]. split; [done|]. split; [|split; [|split; [|split; [|split]]]].
  - intros Hne. unfold build_context. destruct chunks as [|c cs]; [done|].
    by rewrite Hrun.
  - intros c _. apply format_chunk_whole.
  - done.
  - done.
  - intros H0. destruct n; [by rewrite take_0|]. apply Hpos. lia.
  - intros Hneg. destruct n; [by rewrite take_0|].
    pose proof (total_tokens_nonneg (take (S n) chunks)).
    specialize (Hpos ltac:(lia)). lia.
Qed.

(** C2 fails as stated: with [max_tokens = -1] no chunk is included, and the
    sum over no chunk, 0, exceeds [max_tokens]. *)
Lemma build_context_negative_budget_counterexample :
  context_loop [ex_hit 1 "blood drives" 0.875] (-1) false [] 0 = ([], 0)
  /\ build_context [ex_hit 1 "blood drives" 0.875] (-1) false = EmptyString
  /\ -1 < 0.
Proof. split; [|split]; [vm_compute; reflexivity..|lia]. Qed.

End retrieval_properties.

(** * Cosine similarity *)

Section embedding_properties.

Import SpecFloat EmbeddingGenerator.

















End embedding_properties.

(** * Grouping of sentences and paragraphs *)

Section grouping_properties.

Import PyStr TokenCounter DocumentChunker Examples.

(** ** Stripping *)

Lemma lstrip_clean (s : string) :
  match s with String c _ => is_space c = false | EmptyString => True end ->
  lstrip s = s.
Proof. destruct s as [|c s]; [done|]. simpl. by intros ->. Qed.

Lemma lstrip_starts (s : string) :
  match lstrip s with String c _ => is_space c = false | EmptyString => True end.
Proof.
  induction s as [|c s IH]; [done|]. simpl.
  destruct (is_space c) eqn:Hc; [done|]. by simpl.
Qed.

Lemma rstrip_starts (s : string) :
  match s with String c _ => is_space c = false | EmptyString => True end ->
  match rstrip s with String c _ => is_space c = false | EmptyString => True end.
Proof.
  destruct s as [|c s]; [done|]. simpl. intros Hc.
  destruct (rstrip s); [by rewrite Hc|done].
Qed.

Lemma rstrip_idem (s : string) : rstrip (rstrip s) = rstrip s.
Proof.
  induction s as [|c s IH]; [done|]. simpl.
  destruct (rstrip s) as [|c' r] eqn:Hr.
  - destruct (is_space c) eqn:Hc; [done|]. simpl. by rewrite Hc.
  - change (rstrip (String c (String c' r))) with
      (match rstrip (String c' r) with
       | EmptyString =>
           if is_space c then EmptyString else String c EmptyString
       | r' => String c r'
       end).
    by rewrite IH.
Qed.

Lemma strip_idem (s : string) : strip (strip s) = strip s.
Proof.
  unfold strip.
  rewrite (lstrip_clean (rstrip (lstrip s)))
    by apply rstrip_starts, lstrip_starts.
  apply rstrip_idem.
Qed.

Lemma split_into_sentences_clean text :
  Forall clean (_split_into_sentences text).
Proof.
  unfold _split_into_sentences.
  induction (split_sentences_from "" "" false text) as [|p ps IH];
    [constructor|].
  simpl. destruct (truthy (strip p)) eqn:Ht; [|done].
  constructor; [|done]. split; [apply strip_idem|done].
Qed.

(** ** The grouping loop *)

Section loop.

Variable build : Z -> list string -> Z -> Chunk.
Variable config : ChunkConfig.

Lemma group_tokens_app a b :
  group_tokens (a ++ b) = group_tokens a + group_tokens b.
Proof.
  unfold group_tokens, py_sum. induction a as [|x a IH]; simpl; lia.
Qed.

Lemma group_tokens_one piece :
  group_tokens [piece] = count_tokens_in_chunk piece.
Proof. unfold group_tokens. simpl. lia. Qed.

Lemma chunks_of_groups_snoc groups group :
  chunks_of_groups build (groups ++ [group]) =
    chunks_of_groups build groups
    ++ [build (Z.of_nat (length groups)) group (group_tokens group)].
Proof.
  unfold chunks_of_groups. rewrite imap_app. simpl.
  by rewrite Nat.add_0_r.
Qed.

Lemma group_step_grouping seen st piece :
  grouping build config seen st ->
  grouping build config (seen ++ [piece]) (group_step build config st piece).
Proof.
  intros (groups & Hcat & Hne & Hbound & Hchunks & Hid & Htok & Hcur).
  unfold group_step.
  destruct (current_tokens st + count_tokens_in_chunk piece <=? chunk_size config)
    eqn:Hfit.
  - exists groups. simpl. rewrite app_assoc, Hcat.
    split; [done|]. split; [done|]. split; [done|]. split; [done|].
    split; [done|]. rewrite group_tokens_app, group_tokens_one, <- Htok.
    split; [done|]. left. by apply Z.leb_le in Hfit.
  - destruct (current_chunk st) as [|p cur] eqn:Hc.
    + exists groups. simpl. rewrite app_nil_r in Hcat. rewrite Hcat.
      split; [done|]. split; [done|]. split; [done|]. split; [done|].
      split; [done|]. split; [by rewrite group_tokens_one|].
      right. by left.
    + exists (groups ++ [p :: cur]). simpl.
      rewrite concat_app. simpl. rewrite app_nil_r, Hcat.
      split; [done|].
      split; [apply Forall_app; split; [done|by repeat constructor]|].
      split.
      { apply Forall_app. split; [done|]. constructor; [|constructor].
        destruct Hcur as [H|[H|H]]; [by left|by right|done]. }
      split; [by rewrite chunks_of_groups_snoc, Hchunks, Hid, Htok|].
      split; [rewrite length_app; simpl; lia|].
      split; [by rewrite group_tokens_one|].
      right. by left.
Qed.

Lemma group_fold_grouping pieces seen st :
  grouping build config seen st ->
  grouping build config (seen ++ pieces)
    (fold_left (group_step build config) pieces st).
Proof.
  revert seen st. induction pieces as [|p ps IH]; intros seen st Hst; simpl.
  - by rewrite app_nil_r.
  - replace (seen ++ p :: ps) with ((seen ++ [p]) ++ ps)
      by (by rewrite <- app_assoc).
    apply IH. by apply group_step_grouping.
Qed.

Lemma grouping_initial :
  grouping build config []
    {| chunks := []; current_chunk := []; current_tokens := 0; chunk_id := 0 |}.
Proof.
  exists []. simpl. repeat split; try done. by right; right.
Qed.

(** The chunks once the open group is flushed. *)
Lemma grouping_flush seen st :
  grouping build config seen st ->
  exists groups,
    concat groups = seen
    /\ Forall (fun group => nonempty group = true) groups
    /\ Forall (fun group => group_tokens group <= chunk_size config
                            \/ length group = 1%nat) groups
    /\ (if nonempty (current_chunk st)
        then chunks st ++ [build (chunk_id st) (current_chunk st)
                             (current_tokens st)]
        else chunks st) = chunks_of_groups build groups.
Proof.
  intros (groups & Hcat & Hne & Hbound & Hchunks & Hid & Htok & Hcur).
  destruct (current_chunk st) as [|p cur] eqn:Hc.
  - exists groups. rewrite app_nil_r in Hcat. by simpl.
  - exists (groups ++ [p :: cur]). rewrite concat_app. simpl.
    rewrite app_nil_r.
    split; [done|].
    split; [apply Forall_app; split; [done|by repeat constructor]|].
    split.
    { apply Forall_app. split; [done|]. constructor; [|constructor].
      destruct Hcur as [H|[H|H]]; [by left|by right|done]. }
    by rewrite chunks_of_groups_snoc, Hchunks, Hid, Htok.
Qed.

End loop.

(** On clean pieces the sentence loop is the grouping loop. *)
Lemma semantic_step_group config metadata st piece :
  clean piece ->
  semantic_step config metadata st piece =
    group_step (semantic_chunk metadata) config st piece.
Proof.
  intros [Hs Ht]. unfold semantic_step, group_step. rewrite Hs, Ht. simpl.
  destruct (_ <=? _); [done|]. by destruct (nonempty (current_chunk st)).
Qed.

Lemma semantic_fold_group config metadata pieces st :
  Forall clean pieces ->
  fold_left (semantic_step config metadata) pieces st =
    fold_left (group_step (semantic_chunk metadata) config) pieces st.
Proof.
  intros Hp. revert st. induction Hp as [|p ps Hc _ IH]; intros st; [done|].
  simpl. by rewrite semantic_step_group, IH.
Qed.

(** X11. The sentence-based strategy loses no sentence: its chunks are
    consecutive non-empty groups of the sentences of the text, in order; the
    chunk of a group is the group joined without any separator, numbered by
    its position, and its [token_count] is the sum of the estimates of its
    sentences.  The sum is within [chunk_size] unless the group is a single
    sentence. *)
Theorem semantic_chunks_group_sentences config text metadata :
  exists groups,
    concat groups = _split_into_sentences text
    /\ Forall (fun group => nonempty group = true) groups
    /\ _chunk_semantic config text metadata =
         chunks_of_groups (semantic_chunk metadata) groups
    /\ Forall (fun group => group_tokens group <= chunk_size config
                            \/ length group = 1%nat) groups.
Proof.
  unfold _chunk_semantic. cbv zeta.
  rewrite semantic_fold_group by apply split_into_sentences_clean.
  destruct (grouping_flush (semantic_chunk metadata) config
              (_split_into_sentences text) _
              (group_fold_grouping _ config (_split_into_sentences text) [] _
                 (grouping_initial _ config)))
    as (groups & Hcat & Hne & Hbound & Hchunks).
  exists groups. by rewrite Hchunks.
Qed.

(** A stripped, non-empty paragraph within [chunk_size] is grouped. *)
Lemma paragraph_step_group config metadata st para :
  count_tokens_in_chunk (strip para) <= chunk_size config ->
  paragraph_step config metadata st para =
    if truthy (strip para)
    then group_step (paragraph_chunk metadata) config st (strip para)
    else st.
Proof.
  intros Hle. unfold paragraph_step, group_step.
  destruct (truthy (strip para)); [|done]. simpl.
  apply Z.ltb_ge in Hle. rewrite Hle.
  destruct (_ <=? _); [done|]. by destruct (nonempty (current_chunk st)).
Qed.

Lemma paragraph_fold_group config metadata paragraphs st :
  Forall (fun para => count_tokens_in_chunk (strip para) <= chunk_size config)
    paragraphs ->
  fold_left (paragraph_step config metadata) paragraphs st =
    fold_left (group_step (paragraph_chunk metadata) config)
      (List.filter truthy (map strip paragraphs)) st.
Proof.
  intros Hp. revert st. induction Hp as [|p ps Hc _ IH]; intros st; [done|].
  simpl. rewrite paragraph_step_group by done.
  destruct (truthy (strip p)); simpl; by rewrite IH.
Qed.

(** X12. When no paragraph of the text is estimated above [chunk_size],
    the paragraph strategy loses no paragraph: its chunks are consecutive
    non-empty groups of the stripped non-empty paragraphs, in order, each
    joined by a blank line, with the sum of the paragraph estimates as
    [token_count], which is within [chunk_size]. *)
Theorem paragraph_chunks_group_paragraphs config text metadata :
  Forall (fun para => count_tokens_in_chunk (strip para) <= chunk_size config)
    (split_blank text) ->
  exists groups,
    concat groups = List.filter truthy (map strip (split_blank text))
    /\ Forall (fun group => nonempty group = true) groups
    /\ _chunk_paragraph config text metadata =
         chunks_of_groups (paragraph_chunk metadata) groups
    /\ Forall (fun group => group_tokens group <= chunk_size config) groups.
Proof.
  intros Hsmall. unfold _chunk_paragraph. cbv zeta.
  rewrite paragraph_fold_group by done.
  destruct (grouping_flush (paragraph_chunk metadata) config _ _
              (group_fold_grouping _ config
                 (List.filter truthy (map strip (split_blank text))) [] _
                 (grouping_initial _ config)))
    as (groups & Hcat & Hne & Hbound & Hchunks).
  exists groups. rewrite Hchunks. split; [done|]. split; [done|].
  split; [done|].
  assert (Forall (fun p => count_tokens_in_chunk p <= chunk_size config)
            (concat groups)) as Hall.
  { rewrite Hcat. apply List.Forall_forall. intros p Hin.
    apply filter_In in Hin as [Hin _]. apply in_map_iff in Hin as (q & <- & Hq).
    by apply (proj1 (List.Forall_forall _ _) Hsmall). }
  clear Hcat Hchunks Hne.
  induction Hbound as [|g gs Hg _ IH]; [constructor|].
  simpl in Hall. apply Forall_app in Hall as [Hg' Hgs].
  constructor; [|by apply IH].
  destruct Hg as [Hg|Hg]; [done|].
  destruct g as [|p [|q g]]; try done.
  inversion Hg' as [|? ? Hp _]; subst.
  by rewrite group_tokens_one.
Qed.

Lemma paragraph_chunks_group_paragraphs_witness :
  exists groups,
    concat groups
      = List.filter truthy (map strip (split_blank ex_two_paragraphs))
    /\ Forall (fun group => nonempty group = true) groups
    /\ _chunk_paragraph ex_config ex_two_paragraphs None =
         chunks_of_groups (paragraph_chunk None) groups
    /\ Forall (fun group => group_tokens group <= chunk_size ex_config) groups.
Proof.
  apply (paragraph_chunks_group_paragraphs ex_config ex_two_paragraphs None).
  vm_compute. repeat constructor; discriminate.
Defined.

End grouping_properties.

(** * Chunk ids *)

Section numbering_properties.

Import PyStr TokenCounter DocumentChunker Examples.

Lemma chunk_name_inj a b : chunk_name a = chunk_name b -> a = b.
Proof.
  unfold chunk_name. intros H. apply String.app_inj in H.
  by apply pretty_Z_inj in H.
Qed.

Lemma numbered_snoc chunks c :
  numbered chunks ->
  id c = chunk_name (Z.of_nat (length chunks)) ->
  numbered (chunks ++ [c]).
Proof.
  intros Hn Hc i c' Hl. apply lookup_app_Some in Hl as [Hl|[Hi Hl]].
  - by apply Hn.
  - apply list_lookup_singleton_Some in Hl as [Hz <-].
    rewrite Hc. f_equal. lia.
Qed.

Lemma numbered_NoDup chunks : numbered chunks -> NoDup (map id chunks).
Proof.
  intros Hn. apply NoDup_alt. intros i j x Hi Hj.
  apply list_lookup_fmap_Some in Hi as (ci & -> & Hci).
  apply list_lookup_fmap_Some in Hj as (cj & Heq & Hcj).
  rewrite (Hn i ci Hci), (Hn j cj Hcj) in Heq.
  apply chunk_name_inj in Heq. lia.
Qed.

Lemma fixed_loop_numbered config metadata words fuel :
  forall start_idx chunk_id chunks result,
    chunk_id = Z.of_nat (length chunks) -> numbered chunks ->
    fixed_loop fuel config metadata words start_idx chunk_id chunks
      = Some result ->
    numbered result.
Proof.
  induction fuel as [|fuel IH]; intros start_idx chunk_id chunks result Hid Hn;
    simpl.
  - destruct (start_idx <? _); [done|]. by intros [= <-].
  - destruct (start_idx <? Z.of_nat (length words)); [|by intros [= <-]].
    unfold fixed_step.
    assert (numbered (chunks ++ [window_chunk config metadata words start_idx
                                   chunk_id])) as Hn'
      by (apply numbered_snoc; [done|simpl; by rewrite Hid]).
    destruct (min_chunk_size config <=? _);
      destruct ((start_idx <=? _) && (_ =? _)).
    + by intros [= <-].
    + apply IH; [rewrite length_app; simpl; lia|done].
    + by intros [= <-].
    + by apply IH.
Qed.

Lemma fixed_numbered config text metadata :
  numbered (_chunk_fixed_size config text metadata).
Proof.
  unfold _chunk_fixed_size, run_fixed.
  destruct (fixed_loop _ _ _ _ _ _ _) as [result|] eqn:Hr; simpl.
  - by apply (fixed_loop_numbered _ _ _ _ _ _ _ _ eq_refl
                (fun i c (H : [] !! i = Some c) => ltac:(done)) Hr).
  - intros i c Hl. done.
Qed.

Lemma splice_numbered sub_chunks :
  forall chunks chunk_id,
    chunk_id = Z.of_nat (length chunks) -> numbered chunks ->
    snd (splice sub_chunks chunks chunk_id)
      = Z.of_nat (length (fst (splice sub_chunks chunks chunk_id)))
    /\ numbered (fst (splice sub_chunks chunks chunk_id)).
Proof.
  induction sub_chunks as [|c sub IH]; intros chunks chunk_id Hid Hn; simpl.
  - done.
  - apply IH; [rewrite length_app; simpl; lia|].
    apply numbered_snoc; [done|]. simpl. by rewrite Hid.
Qed.

Lemma paragraph_step_numbered config metadata st para :
  chunk_id st = Z.of_nat (length (chunks st)) -> numbered (chunks st) ->
  chunk_id (paragraph_step config metadata st para)
    = Z.of_nat (length (chunks (paragraph_step config metadata st para)))
  /\ numbered (chunks (paragraph_step config metadata st para)).
Proof.
  intros Hid Hn. unfold paragraph_step.
  destruct (negb (truthy (strip para))); [done|].
  assert (numbered (chunks st ++
            [paragraph_chunk metadata (chunk_id st) (current_chunk st)
               (current_tokens st)])) as Hn'
    by (apply numbered_snoc; [done|simpl; by rewrite Hid]).
  destruct (chunk_size config <? _).
  - destruct (nonempty (current_chunk st)); simpl.
    + destruct (splice _ _ _) as [chunks' id'] eqn:Hs. simpl.
      pose proof (splice_numbered
        (_chunk_fixed_size config (strip para) metadata)
        (chunks st ++ [paragraph_chunk metadata (chunk_id st)
                         (current_chunk st) (current_tokens st)])
        (chunk_id st + 1)) as Hsp.
      rewrite Hs in Hsp. simpl in Hsp. apply Hsp; [|done].
      rewrite length_app. simpl. lia.
    + destruct (splice _ _ _) as [chunks' id'] eqn:Hs. simpl.
      pose proof (splice_numbered
        (_chunk_fixed_size config (strip para) metadata)
        (chunks st) (chunk_id st) Hid Hn) as Hsp.
      by rewrite Hs in Hsp.
  - destruct (_ <=? _); [done|].
    destruct (nonempty (current_chunk st)); simpl; [|done].
    split; [rewrite length_app; simpl; lia|done].
Qed.

Lemma semantic_step_numbered config metadata st sentence :
  chunk_id st = Z.of_nat (length (chunks st)) -> numbered (chunks st) ->
  chunk_id (semantic_step config metadata st sentence)
    = Z.of_nat (length (chunks (semantic_step config metadata st sentence)))
  /\ numbered (chunks (semantic_step config metadata st sentence)).
Proof.
  intros Hid Hn. unfold semantic_step.
  destruct (negb (truthy (strip sentence))); [done|].
  destruct (_ <=? _); [done|].
  destruct (nonempty (current_chunk st)); simpl; [|done].
  split; [rewrite length_app; simpl; lia|].
  apply numbered_snoc; [done|simpl; by rewrite Hid].
Qed.

Lemma fold_numbered (step : ParagraphState -> string -> ParagraphState) :
  (forall st piece,
     chunk_id st = Z.of_nat (length (chunks st)) -> numbered (chunks st) ->
     chunk_id (step st piece) = Z.of_nat (length (chunks (step st piece)))
     /\ numbered (chunks (step st piece))) ->
  forall pieces st,
    chunk_id st = Z.of_nat (length (chunks st)) -> numbered (chunks st) ->
    chunk_id (fold_left step pieces st)
      = Z.of_nat (length (chunks (fold_left step pieces st)))
    /\ numbered (chunks (fold_left step pieces st)).
Proof.
  intros Hstep. induction pieces as [|p ps IH]; intros st Hid Hn; [done|].
  simpl. destruct (Hstep st p Hid Hn) as [Hid' Hn']. by apply IH.
Qed.

Lemma numbered_nil : numbered [].
Proof. intros i c Hl. done. Qed.

(** X13. Under every strategy the chunks of [chunk_document] carry the ids
    [chunk_0], [chunk_1], ... in the order of the list, also where the
    paragraph strategy renames the sub-chunks of a split paragraph; so no two
    chunks of a document share an id. *)
Theorem chunk_ids_consecutive config text metadata :
  numbered (chunk_document config text metadata)
  /\ NoDup (map id (chunk_document config text metadata)).
Proof.
  assert (numbered (chunk_document config text metadata)) as Hn.
  { unfold chunk_document.
    destruct (String.eqb (strategy config) "semantic").
    - unfold _chunk_semantic. cbv zeta.
      destruct (fold_numbered (semantic_step config metadata)
                  (semantic_step_numbered config metadata)
                  (_split_into_sentences text)
                  {| chunks := []; current_chunk := []; current_tokens := 0;
                     chunk_id := 0 |} eq_refl numbered_nil) as [Hid Hn].
      destruct (nonempty _); [|done].
      apply numbered_snoc; [done|simpl; by rewrite Hid].
    - destruct (String.eqb (strategy config) "paragraph").
      + unfold _chunk_paragraph. cbv zeta.
        destruct (fold_numbered (paragraph_step config metadata)
                    (paragraph_step_numbered config metadata)
                    (split_blank text)
                    {| chunks := []; current_chunk := []; current_tokens := 0;
                       chunk_id := 0 |} eq_refl numbered_nil) as [Hid Hn].
        destruct (nonempty _); [|done].
        apply numbered_snoc; [done|simpl; by rewrite Hid].
      + apply fixed_numbered. }
  split; [done|by apply numbered_NoDup].
Qed.

End numbering_properties.

(** * Blank text *)

Section blank_text.

Import PyStr TokenCounter DocumentChunker Examples.

Lemma all_space_append a b :
  all_space (a +:+ b) = all_space a && all_space b.
Proof.
  induction a as [|c a IH]; [done|]. rewrite append_cons. simpl.
  by rewrite IH, andb_assoc.
Qed.

Lemma split_all_space s : all_space s = true -> split s = [].
Proof.
  unfold split. induction s as [|c s IH]; [done|]. simpl.
  intros [Hc Hs]%andb_prop. rewrite Hc. by apply IH.
Qed.

Lemma strip_all_space s : all_space s = true -> strip s = "".
Proof.
  unfold strip. induction s as [|c s IH]; [done|]. simpl.
  intros [Hc Hs]%andb_prop. rewrite Hc. by apply IH.
Qed.

Lemma split_blank_from_two cur c c' s :
  split_blank_from cur (String c (String c' s)) =
    if (Ascii.eqb c "010" && Ascii.eqb c' "010")%bool
    then cur :: split_blank_from EmptyString s
    else split_blank_from (cur +:+ String c EmptyString) (String c' s).
Proof. reflexivity. Qed.

Lemma split_blank_all_space_upto (n : nat) :
  forall s cur,
    (String.length s <= n)%nat ->
    all_space cur = true -> all_space s = true ->
    Forall (fun p => all_space p = true) (split_blank_from cur s).
Proof.
  induction n as [|n IH]; intros s cur Hlen Hcur Hs.
  - destruct s; [|simpl in Hlen; lia]. by repeat constructor.
  - destruct s as [|c [|c' s']]; [simpl|simpl|rewrite split_blank_from_two].
    + by repeat constructor.
    + repeat constructor. rewrite all_space_append, Hcur. simpl in *.
      by rewrite Hs.
    + simpl in Hs, Hlen. apply andb_prop in Hs as [Hc Hs].
      destruct (Ascii.eqb c "010" && Ascii.eqb c' "010")%bool.
      * constructor; [done|]. apply IH; [lia|done|].
        by apply andb_prop in Hs as [_ Hs].
      * apply IH; [simpl; lia| |done].
        rewrite all_space_append, Hcur. simpl. by rewrite Hc.
Qed.

Lemma split_blank_all_space s :
  all_space s = true ->
  Forall (fun p => all_space p = true) (split_blank s).
Proof.
  intros Hs. by apply (split_blank_all_space_upto (String.length s)).
Qed.

Lemma space_not_capital c : is_space c = true -> is_capital c = false.
Proof. destruct c as [[] [] [] [] [] [] [] []]; done. Qed.

Lemma split_sentences_all_space s :
  forall cur pending after_stop,
    all_space cur = true -> all_space pending = true -> all_space s = true ->
    Forall (fun p => all_space p = true)
      (split_sentences_from cur pending after_stop s).
Proof.
  induction s as [|c s IH]; intros cur pending after_stop Hcur Hp Hs; simpl.
  - repeat constructor. by rewrite all_space_append, Hcur, Hp.
  - simpl in Hs. apply andb_prop in Hs as [Hc Hs].
    destruct (Ascii.eqb c " ") eqn:Hsp.
    + destruct pending as [|p pending].
      * destruct after_stop; apply IH; try done.
        by rewrite all_space_append, Hcur.
      * apply IH; try done. by rewrite all_space_append, Hp.
    + destruct pending as [|p pending].
      * apply IH; try done. rewrite all_space_append, Hcur. simpl.
        by rewrite Hc.
      * rewrite (space_not_capital c Hc). apply IH; try done.
        rewrite !all_space_append, Hcur, Hp. simpl. by rewrite Hc.
Qed.

Lemma sentences_all_space text :
  all_space text = true -> _split_into_sentences text = [].
Proof.
  intros Hs. unfold _split_into_sentences.
  pose proof (split_sentences_all_space text "" "" false eq_refl eq_refl Hs)
    as Hall.
  induction Hall as [|p ps Hp _ IH]; [done|].
  simpl. by rewrite (strip_all_space p Hp).
Qed.

Lemma paragraph_fold_all_space config metadata paragraphs st :
  Forall (fun p => all_space p = true) paragraphs ->
  fold_left (paragraph_step config metadata) paragraphs st = st.
Proof.
  intros Hall. revert st. induction Hall as [|p ps Hp _ IH]; intros st; [done|].
  simpl. unfold paragraph_step at 2. rewrite (strip_all_space p Hp). simpl.
  apply IH.
Qed.

(** X14. A text of whitespace only (the empty text included) gives no
    chunk, under every strategy and configuration. *)
Theorem blank_text_no_chunks config text metadata :
  all_space text = true ->
  chunk_document config text metadata = []
  /\ _chunk_semantic config text metadata = []
  /\ _chunk_paragraph config text metadata = []
  /\ _chunk_fixed_size config text metadata = [].
Proof.
  intros Hs.
  assert (_chunk_semantic config text metadata = []) as H1
    by (unfold _chunk_semantic; by rewrite sentences_all_space).
  assert (_chunk_paragraph config text metadata = []) as H2.
  { unfold _chunk_paragraph. cbv zeta.
    by rewrite paragraph_fold_all_space
      by (by apply split_blank_all_space). }
  assert (_chunk_fixed_size config text metadata = []) as H3
    by (unfold _chunk_fixed_size, run_fixed; by rewrite split_all_space).
  split; [|done]. unfold chunk_document.
  destruct (String.eqb (strategy config) "semantic"); [done|].
  by destruct (String.eqb (strategy config) "paragraph").
Qed.

Lemma blank_text_no_chunks_witness :
  chunk_document ex_config ex_blank_text None = []
  /\ _chunk_semantic ex_config ex_blank_text None = []
  /\ _chunk_paragraph ex_config ex_blank_text None = []
  /\ _chunk_fixed_size ex_config ex_blank_text None = [].
Proof.
  apply (blank_text_no_chunks ex_config ex_blank_text None). reflexivity.
Defined.

End blank_text.

(** * Windows of the fixed-size strategy *)

Section fixed_structure.

Import PyStr TokenCounter DocumentChunker Examples.

Lemma StronglySorted_snoc {A} (R : A -> A -> Prop) (l : list A) (x : A) :
  StronglySorted R l -> Forall (fun y => R y x) l ->
  StronglySorted R (l ++ [x]).
Proof.
  induction 1 as [|y l Hl IH Hy]; intros Hx; simpl.
  - repeat constructor.
  - inversion Hx as [|? ? Hyx Hx']; subst.
    constructor; [by apply IH|].
    apply Forall_app. split; [done|by repeat constructor].
Qed.

Lemma increasing_length (starts : list Z) :
  StronglySorted Z.lt starts ->
  forall lo hi, Forall (fun x => lo <= x < hi) starts ->
  Z.of_nat (length starts) <= Z.max 0 (hi - lo).
Proof.
  induction 1 as [|x l Hl IH Hx]; intros lo hi Hb; simpl; [lia|].
  inversion Hb as [|? ? Hxb Hb']; subst.
  assert (Forall (fun y => x + 1 <= y < hi) l) as Hb2.
  { apply List.Forall_forall. intros y Hy.
    pose proof (proj1 (List.Forall_forall _ _) Hx y Hy).
    pose proof (proj1 (List.Forall_forall _ _) Hb' y Hy). simpl in *. lia. }
  specialize (IH (x + 1) hi Hb2). lia.
Qed.

Section loop.

Variable config : ChunkConfig.
Variable metadata : option (gmap string string).
Variable words : list string.

Lemma window_chunk_is_window start_idx chunk_id :
  0 <= start_idx < Z.of_nat (length words) ->
  min_chunk_size config
    <= count_tokens_in_chunk (window_text config words start_idx) ->
  is_window config metadata words
    (window_chunk config metadata words start_idx chunk_id) start_idx.
Proof. intros Hs Hmin. by repeat split; try lia. Qed.

Lemma fixed_loop_windows fuel :
  forall start_idx chunk_id chunks starts result,
    0 <= start_idx ->
    Forall2 (is_window config metadata words) chunks starts ->
    StronglySorted Z.lt starts ->
    Forall (fun x => x < start_idx) starts ->
    fixed_loop fuel config metadata words start_idx chunk_id chunks
      = Some result ->
    exists starts',
      Forall2 (is_window config metadata words) result starts'
      /\ StronglySorted Z.lt starts'.
Proof.
  induction fuel as [|fuel IH];
    intros start_idx chunk_id chunks starts result Hs Hw Hsorted Hlt; simpl.
  - destruct (start_idx <? _); [done|]. intros [= <-]. by exists starts.
  - destruct (start_idx <? Z.of_nat (length words)) eqn:E;
      [|intros [= <-]; by exists starts].
    apply Z.ltb_lt in E.
    pose proof (fixed_step_progress config metadata words start_idx chunk_id
                  chunks) as Hprog.
    unfold fixed_step in *.
    destruct (min_chunk_size config <=? _) eqn:Hmin;
      destruct ((start_idx <=? _) && (_ =? _)).
    + intros [= <-]. exists (starts ++ [start_idx]). split.
      * apply Forall2_app; [done|]. constructor; [|constructor].
        apply window_chunk_is_window; [lia|by apply Z.leb_le].
      * by apply StronglySorted_snoc.
    + apply (IH _ _ _ (starts ++ [start_idx])); [lia| | |].
      * apply Forall2_app; [done|]. constructor; [|constructor].
        apply window_chunk_is_window; [lia|by apply Z.leb_le].
      * by apply StronglySorted_snoc.
      * apply Forall_app. split.
        -- eapply Forall_impl; [exact Hlt|]. simpl. intros; lia.
        -- constructor; [lia|constructor].
    + intros [= <-]. by exists starts.
    + apply (IH _ _ _ starts); [lia|done|done|].
      eapply Forall_impl; [exact Hlt|]. simpl. intros; lia.
Qed.

End loop.

(** X15. The chunks of the fixed-size strategy are windows of the words of
    the text at strictly increasing start positions: each records its start
    and end index, its text is the words of that window joined by a space,
    its [token_count] is the estimate of that text and reaches
    [min_chunk_size], and its metadata is the document's.  Hence there are
    never more chunks than words. *)
Theorem fixed_chunks_are_increasing_windows config text metadata :
  exists starts,
    Forall2 (is_window config metadata (split text))
      (_chunk_fixed_size config text metadata) starts
    /\ StronglySorted Z.lt starts
    /\ (length (_chunk_fixed_size config text metadata)
        <= length (split text))%nat.
Proof.
  unfold _chunk_fixed_size, run_fixed.
  destruct (fixed_loop _ _ _ _ _ _ _) as [result|] eqn:Hr; simpl.
  - destruct (fixed_loop_windows config metadata (split text) _ 0 0 [] []
                result (Z.le_refl 0) (List.Forall2_nil _)
                (SSorted_nil _) (List.Forall_nil _) Hr)
      as (starts & Hw & Hsorted).
    exists starts. split; [done|]. split; [done|].
    rewrite (Forall2_length _ _ _ Hw).
    assert (Forall (fun x => 0 <= x < Z.of_nat (length (split text))) starts)
      as Hb.
    { clear Hsorted Hr. induction Hw as [|c x cs xs Hc _ IH]; [constructor|].
      constructor; [by destruct Hc|done]. }
    pose proof (increasing_length starts Hsorted _ _ Hb). lia.
  - exists []. split; [constructor|]. split; [constructor|]. simpl. lia.
Qed.

End fixed_structure.

(** * Evaluation of a chunking *)

Section evaluation_properties.

Import PyStr TokenCounter DocumentChunker Examples.

Lemma fold_min_le (xs : list Z) (x : Z) :
  fold_left Z.min xs x <= x
  /\ Forall (fun y => fold_left Z.min xs x <= y) xs
  /\ (fold_left Z.min xs x = x \/ In (fold_left Z.min xs x) xs).
Proof.
  revert x. induction xs as [|y xs IH]; intros x; simpl.
  - split; [lia|]. split; [constructor|by left].
  - destruct (IH (Z.min x y)) as (H1 & H2 & H3).
    split; [lia|]. split; [constructor; [lia|done]|].
    destruct H3 as [H3|H3]; [|right; by right].
    rewrite H3.
    destruct (Z.min_spec x y) as [[_ E]|[_ E]]; [by left|right; by left].
Qed.

Lemma fold_max_ge (xs : list Z) (x : Z) :
  x <= fold_left Z.max xs x
  /\ Forall (fun y => y <= fold_left Z.max xs x) xs
  /\ (fold_left Z.max xs x = x \/ In (fold_left Z.max xs x) xs).
Proof.
  revert x. induction xs as [|y xs IH]; intros x; simpl.
  - split; [lia|]. split; [constructor|by left].
  - destruct (IH (Z.max x y)) as (H1 & H2 & H3).
    split; [lia|]. split; [constructor; [lia|done]|].
    destruct H3 as [H3|H3]; [|right; by right].
    rewrite H3.
    destruct (Z.max_spec x y) as [[_ E]|[_ E]]; [right; by left|by left].
Qed.

Lemma py_min_spec (xs : list Z) :
  xs <> [] ->
  In (py_min xs) xs /\ Forall (fun y => py_min xs <= y) xs.
Proof.
  destruct xs as [|x xs]; [done|]. intros _. unfold py_min.
  destruct (fold_min_le xs x) as (H1 & H2 & H3).
  split; [destruct H3 as [->|H3]; [by left|by right]|].
  by constructor.
Qed.

Lemma py_max_spec (xs : list Z) :
  xs <> [] ->
  In (py_max xs) xs /\ Forall (fun y => y <= py_max xs) xs.
Proof.
  destruct xs as [|x xs]; [done|]. intros _. unfold py_max.
  destruct (fold_max_ge xs x) as (H1 & H2 & H3).
  split; [destruct H3 as [->|H3]; [by left|by right]|].
  by constructor.
Qed.

Lemma py_sum_between (xs : list Z) (lo hi : Z) :
  Forall (fun y => lo <= y <= hi) xs ->
  lo * Z.of_nat (length xs) <= py_sum xs <= hi * Z.of_nat (length xs).
Proof.
  unfold py_sum. induction 1 as [|x xs Hx _ IH]; simpl; lia.
Qed.

(** X16. [evaluate_chunking] reports as [min_tokens] and [max_tokens] token
    counts that chunks of the list have and that bound the token count of
    every chunk; [total_tokens] lies between [min_tokens] and [max_tokens]
    times the number of chunks; and for no chunk at all every figure is 0. *)
Theorem evaluate_chunking_bounds (chunks : list Chunk) :
  (forall c, In c chunks ->
     min_tokens (evaluate_chunking chunks) <= token_count c
     <= max_tokens (evaluate_chunking chunks))
  /\ (chunks <> [] ->
        exists smallest largest,
          In smallest chunks /\ In largest chunks
          /\ token_count smallest = min_tokens (evaluate_chunking chunks)
          /\ token_count largest = max_tokens (evaluate_chunking chunks))
  /\ min_tokens (evaluate_chunking chunks)
       * total_chunks (evaluate_chunking chunks)
     <= total_tokens (evaluate_chunking chunks)
     <= max_tokens (evaluate_chunking chunks)
        * total_chunks (evaluate_chunking chunks)
  /\ (chunks = [] ->
        evaluate_chunking chunks =
          {| total_chunks := 0; avg_tokens := PInt 0; min_tokens := 0;
             max_tokens := 0; total_tokens := 0 |}).
Proof.
  destruct chunks as [|c0 chunks].
  { simpl. split; [done|]. split; [done|]. split; [lia|done]. }
  set (all := c0 :: chunks). set (stats := evaluate_chunking all).
  assert (map token_count all <> []) as Hne by done.
  destruct (py_min_spec _ Hne) as [Hmin_in Hmin].
  destruct (py_max_spec _ Hne) as [Hmax_in Hmax].
  assert (min_tokens stats = py_min (map token_count all)) as Emin by done.
  assert (max_tokens stats = py_max (map token_count all)) as Emax by done.
  assert (forall c, In c all ->
            min_tokens stats <= token_count c <= max_tokens stats) as Hb.
  { intros c Hc. rewrite Emin, Emax.
    pose proof (in_map token_count _ _ Hc) as Hin.
    split; [by apply (proj1 (List.Forall_forall _ _) Hmin)
           |by apply (proj1 (List.Forall_forall _ _) Hmax)]. }
  split; [done|]. split.
  { intros _. apply in_map_iff in Hmin_in as (lo & Hlo & Hlo_in).
    apply in_map_iff in Hmax_in as (hi & Hhi & Hhi_in).
    exists lo, hi. by rewrite Emin, Emax. }
  split; [|done].
  assert (Forall (fun y => min_tokens stats <= y <= max_tokens stats)
            (map token_count all)) as Hall.
  { apply List.Forall_forall. intros y Hy.
    apply in_map_iff in Hy as (c & <- & Hc). by apply Hb. }
  pose proof (py_sum_between _ _ _ Hall) as Hs.
  rewrite length_map in Hs. exact Hs.
Qed.

End evaluation_properties.

(** * Order of the retrieved items *)

Section ordering_properties.

Import ChromaVectorDB SemanticRetriever ContextBuilder Examples.

(** ** More on the comparisons of binary64 numbers *)

Lemma SFcompare_defined (x y : spec_float) :
  SFcompare x x = Some Eq -> SFcompare y y = Some Eq ->
  exists c, SFcompare x y = Some c.
Proof.
  destruct x as [sx|sx| |sx mx ex], y as [sy|sy| |sy my ey]; simpl;
    try discriminate; eauto.
Qed.

Lemma float_eqb_refl_compare (x : float) :
  (x =? x)%float = true -> SFcompare (Prim2SF x) (Prim2SF x) = Some Eq.
Proof.
  rewrite FloatAxioms.eqb_spec. unfold SFeqb.
  destruct (SFcompare (Prim2SF x) (Prim2SF x)) as [[]|]; congruence.
Qed.

(** Two numbers that are not NaN are comparable. *)
Lemma float_leb_total (x y : float) :
  (x =? x)%float = true -> (y =? y)%float = true ->
  (x <? y)%float = false -> (y <=? x)%float = true.
Proof.
  intros Hx Hy. apply float_eqb_refl_compare in Hx, Hy.
  destruct (SFcompare_defined _ _ Hx Hy) as [c Hc].
  rewrite FloatAxioms.leb_spec, FloatAxioms.ltb_spec. unfold SFleb, SFltb.
  rewrite (SFcompare_antisym (Prim2SF x) (Prim2SF y)), Hc.
  destruct c; simpl; congruence.
Qed.

Lemma float_ltb_leb (x y : float) :
  (x <? y)%float = true -> (x <=? y)%float = true.
Proof.
  rewrite FloatAxioms.leb_spec, FloatAxioms.ltb_spec. unfold SFleb, SFltb.
  destruct (SFcompare (Prim2SF x) (Prim2SF y)) as [[]|]; congruence.
Qed.

Lemma SFcompare_refl (x : spec_float) :
  x <> S754_nan -> SFcompare x x = Some Eq.
Proof.
  destruct x as [s|s| |s m e]; simpl; try done.
  - by destruct s.
  - intros _. destruct s; rewrite Z.compare_refl;
      change (Pos.compare_cont Eq m m) with (m ?= m)%positive;
      by rewrite Pos.compare_refl.
Qed.

(** A number that passed a comparison is not a NaN. *)
Lemma float_leb_not_nan (a x : float) :
  (a <=? x)%float = true -> (x =? x)%float = true.
Proof.
  rewrite FloatAxioms.leb_spec, FloatAxioms.eqb_spec. unfold SFleb, SFeqb.
  intros H. rewrite SFcompare_refl; [done|].
  intros Hx. rewrite Hx in H. by destruct (Prim2SF a).
Qed.

(** ** Reranking *)

Lemma descending_nil : descending [].
Proof. intros i x y H. by rewrite lookup_nil in H. Qed.

Lemma descending_singleton r : descending [r].
Proof. intros i x y _ H. by rewrite lookup_cons, lookup_nil in H. Qed.

Lemma descending_cons x y l :
  (similarity y <=? similarity x)%float = true ->
  descending (y :: l) -> descending (x :: y :: l).
Proof.
  intros Hxy Hl [|i] a b Ha Hb; simpl in *.
  - by inversion Ha; inversion Hb; subst.
  - by apply (Hl i a b).
Qed.

Lemma descending_tail x l : descending (x :: l) -> descending l.
Proof. intros H i a b Ha Hb. by apply (H (S i) a b). Qed.

Lemma descending_head x y l :
  descending (x :: y :: l) -> (similarity y <=? similarity x)%float = true.
Proof. intros H. by apply (H 0%nat x y). Qed.

Lemma descending_take n l : descending l -> descending (take n l).
Proof.
  intros H i a b Ha Hb.
  apply lookup_take_Some in Ha as [Ha _], Hb as [Hb _]. by apply (H i a b).
Qed.

(** Inserting into a descending list keeps it descending. *)
Lemma insert_desc_descending x l :
  (similarity x =? similarity x)%float = true -> no_nan l ->
  descending l -> descending (insert_desc x l).
Proof.
  intros Hx. induction l as [|y l IH]; intros Hnan Hl; simpl.
  - apply descending_singleton.
  - inversion Hnan as [|? ? Hy Hnan']; subst.
    destruct (similarity x <? similarity y)%float eqn:E.
    + specialize (IH Hnan' (descending_tail _ _ Hl)).
      destruct l as [|z l]; simpl in *.
      * apply descending_cons; [by apply float_ltb_leb|apply descending_singleton].
      * destruct (similarity x <? similarity z)%float.
        -- apply descending_cons; [by apply descending_head in Hl|done].
        -- apply descending_cons; [by apply float_ltb_leb|done].
    + apply descending_cons; [by apply float_leb_total|done].
Qed.

Lemma rerank_descending results query_embedding :
  no_nan results -> descending (_rerank_results results query_embedding).
Proof.
  unfold _rerank_results. induction results as [|x l IH]; intros Hnan; simpl.
  - apply descending_nil.
  - inversion Hnan as [|? ? Hx Hl]; subst.
    apply insert_desc_descending; [done| |by apply IH].
    change (no_nan (_rerank_results l query_embedding)).
    unfold no_nan. by rewrite rerank_perm.
Qed.

(** Numbers that compare equal compare alike with every number. *)
Lemma SFcompare_Eq_congr (a b c : spec_float) :
  SFcompare a b = Some Eq -> SFcompare a c = SFcompare b c.
Proof.
  intros H.
  destruct a as [sa|sa| |sa ma ea], b as [sb|sb| |sb mb eb]; simpl in H;
    try discriminate;
    try (destruct sa; discriminate); try (destruct sb; discriminate).
  - by destruct c.
  - destruct sa, sb; try discriminate; reflexivity.
  - assert (sa = sb /\ ea = eb /\ ma = mb) as (-> & -> & ->); [|done].
    destruct sa, sb; try discriminate;
      destruct (ea ?= eb) eqn:He; try discriminate;
      apply Z.compare_eq in He;
      change (Pos.compare_cont Eq ma mb) with (ma ?= mb)%positive in H;
      destruct (ma ?= mb)%positive eqn:Hm; try discriminate;
      apply Pos.compare_eq in Hm; done.
Qed.

Lemma float_eqb_ltb_apart (x y v : float) :
  (x =? v)%float = true -> (x <? y)%float = true -> (y =? v)%float = false.
Proof.
  rewrite !FloatAxioms.eqb_spec, FloatAxioms.ltb_spec. unfold SFeqb, SFltb.
  intros Hxv Hxy.
  destruct (SFcompare (Prim2SF x) (Prim2SF v)) as [[]|] eqn:E1; try done.
  rewrite (SFcompare_Eq_congr _ _ (Prim2SF y) E1) in Hxy.
  rewrite (SFcompare_antisym (Prim2SF v) (Prim2SF y)).
  destruct (SFcompare (Prim2SF v) (Prim2SF y)) as [[]|]; done.
Qed.

(** Stability: the items of one similarity keep their order. *)
Lemma insert_desc_filter (v : float) x l :
  List.filter (fun r => (similarity r =? v)%float) (insert_desc x l)
  = (if (similarity x =? v)%float then [x] else [])
    ++ List.filter (fun r => (similarity r =? v)%float) l.
Proof.
  induction l as [|y l IH]; simpl; [by destruct (_ =? _)%float|].
  destruct (similarity x <? similarity y)%float eqn:Hlt; simpl.
  - rewrite IH. destruct (similarity x =? v)%float eqn:Hx; [|done].
    by rewrite (float_eqb_ltb_apart _ _ _ Hx Hlt).
  - by destruct (similarity x =? v)%float.
Qed.

Lemma rerank_stable (v : float) results qe :
  List.filter (fun r => (similarity r =? v)%float) (_rerank_results results qe)
  = List.filter (fun r => (similarity r =? v)%float) results.
Proof.
  unfold _rerank_results. induction results as [|x l IH]; [done|].
  simpl. rewrite insert_desc_filter, IH.
  by destruct (similarity x =? v)%float.
Qed.

(** X1. On a list in which no similarity is a NaN, [_rerank_results] is
    the stable sort by descending similarity: it returns the items
    reordered, nothing lost and nothing added, in descending order, and the
    items of one similarity keep the order they had. *)
Theorem rerank_sorts_descending results query_embedding :
  no_nan results ->
  _rerank_results results query_embedding ≡ₚ results
  /\ length (_rerank_results results query_embedding) = length results
  /\ descending (_rerank_results results query_embedding)
  /\ forall v,
       List.filter (fun r => (similarity r =? v)%float)
         (_rerank_results results query_embedding)
       = List.filter (fun r => (similarity r =? v)%float) results.
Proof.
  intros Hnan.
  split; [apply rerank_perm|]. split; [by rewrite rerank_perm|].
  split; [by apply rerank_descending|].
  intros v. apply rerank_stable.
Qed.

Lemma rerank_sorts_descending_witness :
  _rerank_results (rev ex_three_hits) [] ≡ₚ rev ex_three_hits
  /\ length (_rerank_results (rev ex_three_hits) []) = length (rev ex_three_hits)
  /\ descending (_rerank_results (rev ex_three_hits) [])
  /\ forall v,
       List.filter (fun r => (similarity r =? v)%float)
         (_rerank_results (rev ex_three_hits) [])
       = List.filter (fun r => (similarity r =? v)%float) (rev ex_three_hits).
Proof.
  apply (rerank_sorts_descending (rev ex_three_hits) []).
  repeat constructor.
Defined.

(** X2. Reranking a list that is already in descending order of similarity
    leaves it as it is. *)
Theorem rerank_descending_noop results query_embedding :
  descending results -> _rerank_results results query_embedding = results.
Proof.
  unfold _rerank_results. induction results as [|x l IH]; intros Hl; [done|].
  simpl. rewrite IH by (by eapply descending_tail).
  destruct l as [|y l]; [done|]. simpl.
  by rewrite (float_leb_not_ltb _ _ (descending_head _ _ _ Hl)).
Qed.

Lemma rerank_descending_noop_witness :
  _rerank_results ex_hits [] = ex_hits.
Proof.
  apply rerank_descending_noop.
  intros [|[|i]] x y Hx Hy; simpl in *; inversion Hx; inversion Hy; subst.
  reflexivity.
Defined.

(** ** Ranks of the search results *)

Lemma zip3_lookup {A B C} (a : list A) (b : list B) (c : list C) j x y z :
  zip3 a b c !! j = Some (x, y, z) ->
  a !! j = Some x /\ b !! j = Some y /\ c !! j = Some z.
Proof.
  revert b c j. induction a as [|x' a IH]; intros [|y' b] [|z' c] j; simpl;
    try done.
  destruct j as [|j]; simpl; [by intros [= -> -> ->]|]. apply IH.
Qed.

(** An item of [format_results] is the row at the position its rank names. *)
Lemma format_results_position i rows threshold r :
  In r (format_results i rows threshold) ->
  exists (j : nat) distance,
    rows !! j = Some (text r, metadata r, distance)
    /\ rank r = i + Z.of_nat j + 1
    /\ similarity r = (1 - distance)%float.
Proof.
  revert i. induction rows as [|[[doc meta] distance] rows IH]; intros i; simpl;
    [done|].
  assert (In r (format_results (i + 1) rows threshold) ->
          exists (j : nat) distance0,
            ((doc, meta, distance) :: rows) !! j
              = Some (text r, metadata r, distance0)
            /\ rank r = i + Z.of_nat j + 1
            /\ similarity r = (1 - distance0)%float) as Hrest.
  { intros H. destruct (IH _ H) as (j & d & Hj & Hrank & Hsim).
    exists (S j), d. simpl. split; [done|]. split; [lia|done]. }
  destruct (threshold <=? 1 - distance)%float; [|done].
  intros [<-|H]; [|by apply Hrest].
  exists 0%nat, distance. simpl. split; [done|]. split; [lia|done].
Qed.

Lemma format_results_rank_order i rows threshold :
  in_rank_order (format_results i rows threshold)
  /\ Forall (fun r => i < rank r) (format_results i rows threshold).
Proof.
  revert i. induction rows as [|[[doc meta] distance] rows IH]; intros i; simpl.
  - split; constructor.
  - destruct (IH (i + 1)) as [Hsorted Hlow].
    assert (Forall (fun r => i < rank r) (format_results (i + 1) rows threshold))
      as Hlow'.
    { eapply Forall_impl; [exact Hlow|]. simpl. intros; lia. }
    destruct (threshold <=? 1 - distance)%float; [|done].
    split.
    + constructor; [done|]. eapply Forall_impl; [exact Hlow|]. simpl. intros; lia.
    + constructor; [simpl; lia|done].
Qed.

Lemma search_in_rank_order db qe n name threshold :
  in_rank_order (search db qe n name threshold).
Proof.
  unfold search. destruct (collection db) as [col|]; [|constructor].
  unfold search_body.
  destruct (ChromaVectorDB.query col qe n (where_filter name))
    as [results|e]; [|constructor].
  destruct (documents results) as [|docs ?]; [constructor|].
  destruct (DocumentChunker.nonempty docs); [|constructor].
  destruct (metadatas results) as [|metas ?]; [constructor|].
  destruct (distances results) as [|dists ?]; [constructor|].
  apply format_results_rank_order.
Qed.

(** X3. Every item [search] returns carries the 1-based position its passage
    has in the answer of the collection, also when passages before it were
    dropped by the threshold: its text, metadata and distance are those at
    that position, and the ranks of the list increase strictly. *)
Theorem search_rank_is_position db query_embedding n_results name threshold :
  in_rank_order (search db query_embedding n_results name threshold)
  /\ (forall r,
        In r (search db query_embedding n_results name threshold) ->
        exists col results docs metas dists (j : nat) distance,
          collection db = Some col
          /\ ChromaVectorDB.query col query_embedding n_results
               (where_filter name) = Ok results
          /\ head (documents results) = Some docs
          /\ head (metadatas results) = Some metas
          /\ head (distances results) = Some dists
          /\ rank r = Z.of_nat j + 1
          /\ docs !! j = Some (text r)
          /\ metas !! j = Some (metadata r)
          /\ dists !! j = Some distance
          /\ similarity r = (1 - distance)%float).
Proof.
  unfold search. destruct (collection db) as [col|]; [|split; [constructor|done]].
  unfold search_body.
  destruct (ChromaVectorDB.query col query_embedding n_results (where_filter name))
    as [results|e] eqn:Hq; [|split; [constructor|done]].
  destruct (documents results) as [|docs ?] eqn:Hdocs;
    [split; [constructor|done]|].
  destruct (DocumentChunker.nonempty docs); [|split; [constructor|done]].
  destruct (metadatas results) as [|metas ?] eqn:Hmetas;
    [split; [constructor|done]|].
  destruct (distances results) as [|dists ?] eqn:Hdists;
    [split; [constructor|done]|].
  simpl. split; [apply format_results_rank_order|].
  intros r Hr. apply format_results_position in Hr as (j & d & Hj & Hrank & Hsim).
  apply zip3_lookup in Hj as (Hdoc & Hmeta & Hdist).
  exists col, results, docs, metas, dists, j, d.
  rewrite Hdocs, Hmetas, Hdists. simpl. repeat split; done.
Qed.

(** ** Order of the retrieved items *)

Lemma in_rank_order_filter f results :
  in_rank_order results -> in_rank_order (List.filter f results).
Proof.
  unfold in_rank_order. induction 1 as [|x l Hl IH Hx]; simpl; [constructor|].
  destruct (f x); [|done]. constructor; [done|].
  apply List.Forall_forall. intros y Hy. apply filter_In in Hy as [Hy _].
  by apply (proj1 (List.Forall_forall _ _) Hx).
Qed.

Lemma in_rank_order_take n results :
  in_rank_order results -> in_rank_order (take n results).
Proof.
  unfold in_rank_order. intros H. revert n.
  induction H as [|x l Hl IH Hx]; intros [|n]; simpl; try constructor.
  - apply IH.
  - by apply Forall_take.
Qed.

Lemma search_no_nan db qe n name threshold :
  no_nan (search db qe n name threshold).
Proof.
  apply List.Forall_forall. intros r Hr. apply search_In in Hr as [Hr _].
  by eapply float_leb_not_nan.
Qed.

Lemma filter_threshold_no_nan config results :
  no_nan (filter_threshold config results).
Proof.
  apply List.Forall_forall. intros r Hr. apply filter_In in Hr as [_ Hr].
  by eapply float_leb_not_nan.
Qed.

Lemma final_results_order config qe k results :
  (rerank config = true -> descending (final_results config qe k results))
  /\ (rerank config = false -> in_rank_order results ->
      in_rank_order (final_results config qe k results)).
Proof.
  unfold final_results, py_prefix. split.
  - intros ->. simpl. apply descending_take.
    destruct (1 <? Z.of_nat (length (filter_threshold config results))) eqn:E.
    + apply rerank_descending, filter_threshold_no_nan.
    + apply Z.ltb_ge in E.
      destruct (filter_threshold config results) as [|x [|y l]];
        [apply descending_nil|apply descending_singleton|].
      cbn [length] in E. lia.
  - intros -> Hr. simpl. by apply in_rank_order_take, in_rank_order_filter.
Qed.

(** X4. The items [retrieve] returns are in descending order of similarity
    when reranking is on; when it is off they keep the order of the index,
    their ranks increasing. *)
Theorem retrieve_order query charity_name top_k s rs s' :
  retrieve query charity_name top_k s = (Ok rs, s') ->
  (rerank (config s) = true -> descending rs)
  /\ (rerank (config s) = false -> in_rank_order rs).
Proof.
  intros H. destruct (retrieve_result _ _ _ _ _ _ H) as [->|(qe & _ & ->)].
  - split; intros _; [apply descending_nil|constructor].
  - split; intros Hr.
    + by apply final_results_order.
    + apply final_results_order; [done|]. apply search_in_rank_order.
Qed.

Lemma retrieve_order_witness : descending ex_hits.
Proof.
  edestruct (retrieve_order "who runs blood drives" (Some "Red Cross") None
               (ex_retriever SemanticRetriever.default_config) ex_hits)
    as [Hsorted _]; [vm_compute; reflexivity|].
  exact (Hsorted eq_refl).
Defined.

End ordering_properties.

(** * Retrieval log and statistics *)

Section log_properties.

Import ChromaVectorDB SemanticRetriever ContextBuilder Examples.

Lemma search_and_select_log config qe cn k fr :
  exists fr',
    search_and_select config qe cn k fr =
      (Ok (final_results config qe k
             (search (vector_db (self fr)) qe (k * 2) cn 0%float)), fr')
    /\ vector_db (self fr') = vector_db (self fr)
    /\ embed_query (self fr') = embed_query (self fr)
    /\ SemanticRetriever.config (self fr') = SemanticRetriever.config (self fr)
    /\ exists new,
         retrieval_logs (self fr') = retrieval_logs (self fr) ++ new
         /\ (debug config = false -> new = [])
         /\ (debug config = true ->
             exists entry,
               new = [entry]
               /\ entry !! "status" = Some (LStr "success")
               /\ entry !! "final_results_count"
                  = Some (LInt (Z.of_nat (length
                       (final_results config qe k
                          (search (vector_db (self fr)) qe (k * 2) cn
                             0%float)))))).
Proof.
  unfold search_and_select, final_results, bind, when, ret, set_log,
    append_log, modify.
  destruct (debug config) eqn:Hd.
  - destruct (rerank config),
      (1 <? Z.of_nat (length (filter_threshold config _))); simpl;
      (eexists; split; [reflexivity|]; simpl; repeat (split; [reflexivity|]);
       eexists; split; [reflexivity|]; split; [done|]; intros _;
       eexists; split; [reflexivity|]; split;
       [by rewrite lookup_insert_eq
       |by rewrite lookup_insert_ne, lookup_insert_eq]).
  - destruct (rerank config),
      (1 <? Z.of_nat (length (filter_threshold config _))); simpl;
      (eexists; split; [reflexivity|]; simpl; repeat (split; [reflexivity|]);
       exists []; rewrite app_nil_r; split; [reflexivity|]; split; done).
Qed.

Lemma logged_embedding_fails query charity_name top_k s e :
  embed_query s query = Raise e ->
  exists s' new,
    retrieve query charity_name top_k s = (Ok [], s') /\ logged s s' [] new.
Proof.
  intros He. unfold retrieve, try_except, retrieve_body, bind. simpl.
  rewrite He. unfold retrieve_handler, bind, when, ret, set_log, append_log, modify.
  destruct (debug (config s)) eqn:Hd; simpl.
  - eexists _, [_]. split; [reflexivity|].
    split; [repeat split; reflexivity|]. split; [congruence|].
    split; [simpl; lia|].
    intros entry [<-|[]]. right. split; [|done].
    by rewrite lookup_insert_ne, lookup_insert_eq.
  - eexists _, []. split; [reflexivity|].
    split; [repeat split; try reflexivity; simpl; by rewrite app_nil_r|].
    split; [done|]. split; [simpl; lia|]. intros entry [].
Qed.

Lemma logged_missing_collection query charity top_k s qe :
  embed_query s query = Ok qe ->
  PyStr.truthy charity = true ->
  client (vector_db s) !! normalized_name charity = None ->
  exists s',
    retrieve query (Some charity) top_k s = (Ok [], s') /\ logged s s' [] [].
Proof.
  intros He Ht Hc. unfold retrieve, try_except, retrieve_body, bind. simpl.
  rewrite He, Ht.
  unfold when, ret, set_log, modify, on_vector_db, get_collection, try_except,
    bind, lift, client_get_collection.
  destruct (debug (config s)); simpl; rewrite Hc; simpl;
    (eexists; split; [reflexivity|]; split;
     [repeat split; try reflexivity; simpl; by rewrite app_nil_r|];
     split; [done|]; split; [simpl; lia|]; intros entry []).
Qed.

Lemma logged_search (s : SemanticRetriever.t) db log qe cn k :
  client db = client (vector_db s) ->
  exists fr' new,
    search_and_select (config s) qe cn k
      {| self := {| embed_query := embed_query s; vector_db := db;
                    config := config s;
                    retrieval_logs := retrieval_logs s |};
         log_entry := log |}
    = (Ok (final_results (config s) qe k (search db qe (k * 2) cn 0%float)),
       fr')
    /\ vector_db (self fr') = db
    /\ logged s (self fr')
         (final_results (config s) qe k (search db qe (k * 2) cn 0%float)) new.
Proof.
  intros Hdb.
  destruct (search_and_select_log (config s) qe cn k
              {| self := {| embed_query := embed_query s; vector_db := db;
                            config := config s;
                            retrieval_logs := retrieval_logs s |};
                 log_entry := log |})
    as (fr' & Hrun & Hv & He & Hc & new & Hlogs & Hoff & Hon).
  simpl in *. exists fr', new. split; [done|]. split; [done|].
  split; [repeat split; try done; by rewrite Hv|].
  split; [done|].
  destruct (debug (config s)) eqn:Hd.
  - destruct (Hon eq_refl) as (entry & -> & Hs & Hn).
    split; [simpl; lia|]. intros entry' [<-|[]]. by left.
  - rewrite (Hoff eq_refl). split; [simpl; lia|]. intros entry [].
Qed.

Lemma logged_found_collection query charity top_k s qe col :
  embed_query s query = Ok qe ->
  PyStr.truthy charity = true ->
  client (vector_db s) !! normalized_name charity = Some col ->
  let k := or_default top_k (SemanticRetriever.top_k (config s)) in
  let db := {| client := client (vector_db s); collection := Some col |} in
  exists s' new,
    retrieve query (Some charity) top_k s =
      (Ok (final_results (config s) qe k
             (search db qe (k * 2) (Some charity) 0%float)), s')
    /\ vector_db s' = db
    /\ logged s s'
         (final_results (config s) qe k
            (search db qe (k * 2) (Some charity) 0%float)) new.
Proof.
  intros He Ht Hc k db. unfold retrieve, try_except, retrieve_body, bind. simpl.
  rewrite He, Ht.
  unfold when at 1. unfold ret, set_log, modify, on_vector_db, get_collection,
    try_except, bind, lift, client_get_collection.
  fold k.
  destruct (debug (config s)) eqn:Hd; simpl; rewrite Hc; simpl;
    match goal with
    | |- context [search_and_select ?c ?q ?n ?kk
                    {| self := _; log_entry := ?log |}] =>
        destruct (logged_search s db log q n kk eq_refl)
          as (fr' & new & Hrun & Hdb & Hlog);
        unfold db in Hrun |- *; rewrite Hrun; simpl;
        exists (self fr'), new; done
    end.
Qed.

Lemma logged_unnamed query charity_name top_k s qe :
  embed_query s query = Ok qe ->
  where_filter charity_name = None ->
  let k := or_default top_k (SemanticRetriever.top_k (config s)) in
  exists s' new,
    retrieve query charity_name top_k s =
      (Ok (final_results (config s) qe k
             (search (vector_db s) qe (k * 2) charity_name 0%float)), s')
    /\ vector_db s' = vector_db s
    /\ logged s s'
         (final_results (config s) qe k
            (search (vector_db s) qe (k * 2) charity_name 0%float)) new.
Proof.
  intros He Hn k. unfold retrieve, try_except, retrieve_body, bind. simpl.
  rewrite He. fold k.
  assert (forall fr,
    match charity_name with
    | Some charity =>
        if PyStr.truthy charity then
          bind (try_except
                  (on_vector_db (get_collection (normalized_name charity)) ;;
                   ret true)
                  (fun _ => ret false))
            (fun found : bool =>
               if found then search_and_select (config s) qe charity_name k
               else ret [])
        else search_and_select (config s) qe charity_name k
    | None => search_and_select (config s) qe charity_name k
    end fr = search_and_select (config s) qe charity_name k fr) as Hsel.
  { intros fr. destruct charity_name as [c|]; [|done].
    simpl in Hn. by destruct (PyStr.truthy c). }
  unfold when at 1. unfold ret, set_log, modify.
  destruct s as [emb db cfg logs]. simpl in *.
  destruct (debug cfg) eqn:Hd; simpl; unfold bind in Hsel; rewrite Hsel;
    match goal with
    | |- context [search_and_select ?c ?q ?n ?kk
                    {| self := ?r; log_entry := ?log |}] =>
        destruct (logged_search r db log q n kk eq_refl)
          as (fr' & new & Hrun & Hdb & Hlog);
        simpl in Hrun |- *; rewrite Hrun; simpl; exists (self fr'), new; done
    end.
Qed.

Lemma retrieve_logged query charity_name top_k s :
  exists rs s' new,
    retrieve query charity_name top_k s = (Ok rs, s') /\ logged s s' rs new.
Proof.
  destruct (embed_query s query) as [qe|e] eqn:He.
  2: { destruct (logged_embedding_fails query charity_name top_k s e He)
         as (s' & new & Hr & Hl). by exists [], s', new. }
  destruct (where_filter charity_name) as [c|] eqn:Hw.
  - destruct charity_name as [c'|]; [|done]. simpl in Hw.
    destruct (PyStr.truthy c') eqn:Ht; [|done].
    destruct (client (vector_db s) !! normalized_name c') as [col|] eqn:Hc.
    + destruct (logged_found_collection query c' top_k s qe col He Ht Hc)
        as (s' & new & Hr & _ & Hl). by eexists _, s', new.
    + destruct (logged_missing_collection query c' top_k s qe He Ht Hc)
        as (s' & Hr & Hl). by exists [], s', [].
  - destruct (logged_unnamed query charity_name top_k s qe He Hw)
      as (s' & new & Hr & _ & Hl). by eexists _, s', new.
Qed.

(** X5. Every call of [retrieve] returns a list and appends at most one
    entry to [retrieval_logs], keeping the earlier entries: none when [debug]
    is off; an entry has the status ['success'] and the number of items
    returned as its [final_results_count], or the status ['error'], and then
    the call returned no item.  The embedding method, the configuration and
    the collections of the client are left as they were. *)
Theorem retrieve_log_growth query charity_name top_k s :
  exists rs s' new,
    retrieve query charity_name top_k s = (Ok rs, s')
    /\ retrieval_logs s' = retrieval_logs s ++ new
    /\ (length new <= 1)%nat
    /\ (debug (config s) = false -> new = [])
    /\ (forall entry, In entry new ->
          (entry !! "status" = Some (LStr "success")
           /\ entry !! "final_results_count"
              = Some (LInt (Z.of_nat (length rs))))
          \/ (entry !! "status" = Some (LStr "error") /\ rs = []))
    /\ embed_query s' = embed_query s
    /\ config s' = config s
    /\ client (vector_db s') = client (vector_db s).
Proof.
  destruct (retrieve_logged query charity_name top_k s)
    as (rs & s' & new & Hr & (He & Hc & Hcl & Hlogs) & Hoff & Hlen & Hent).
  by exists rs, s', new.
Qed.

(** X6. [retrieve] keeps the log settled: when every entry of
    [retrieval_logs] has the status ['success'] or ['error'] before a call,
    every entry has one of them after it. *)
Theorem retrieve_keeps_log_settled query charity_name top_k s r s' :
  Forall log_settled (retrieval_logs s) ->
  retrieve query charity_name top_k s = (r, s') ->
  Forall log_settled (retrieval_logs s').
Proof.
  intros Hs Hr.
  destruct (retrieve_logged query charity_name top_k s)
    as (rs & s2 & new & Hr2 & (_ & _ & _ & Hlogs) & _ & _ & Hent).
  rewrite Hr in Hr2. injection Hr2 as -> ->. rewrite Hlogs.
  apply Forall_app. split; [done|].
  apply List.Forall_forall. intros entry Hin.
  destruct (Hent entry Hin) as [[H _]|[H _]]; [by left|by right].
Qed.

Lemma retrieve_keeps_log_settled_witness :
  Forall log_settled
    (retrieval_logs
       (snd (retrieve "who runs blood drives" (Some "Red Cross") None
               (ex_retriever debug_config)))).
Proof.
  eapply (retrieve_keeps_log_settled "who runs blood drives"
            (Some "Red Cross") None (ex_retriever debug_config)).
  - constructor.
  - apply surjective_pairing.
Defined.

Lemma settled_partition (logs : list (gmap string LogValue)) :
  Forall log_settled logs ->
  (length (List.filter (has_status "success") logs)
   + length (List.filter (has_status "error") logs))%nat = length logs.
Proof.
  induction 1 as [|entry logs Hs _ IH]; [done|].
  cbn [List.filter].
  assert (has_status "success" entry = negb (has_status "error" entry)) as ->
    by (unfold has_status; by destruct Hs as [-> | ->]).
  destruct (has_status "error" entry); cbn [negb length]; lia.
Qed.

(** X7. On a log that is not empty and whose entries all have the status
    ['success'] or ['error'], [get_retrieval_stats] reports counts that add
    up: ['successful_retrievals'] plus ['failed_retrievals'] is
    ['total_retrievals'], the number of entries. *)
Theorem retrieval_stats_add_up (s : SemanticRetriever.t) :
  Forall log_settled (retrieval_logs s) ->
  retrieval_logs s <> [] ->
  exists successful failed,
    get_retrieval_stats s !! "successful_retrievals" = Some (PInt successful)
    /\ get_retrieval_stats s !! "failed_retrievals" = Some (PInt failed)
    /\ get_retrieval_stats s !! "total_retrievals"
       = Some (PInt (successful + failed))
    /\ 0 <= successful /\ 0 <= failed
    /\ successful + failed = Z.of_nat (length (retrieval_logs s)).
Proof.
  intros Hs Hne. unfold get_retrieval_stats.
  pose proof (settled_partition _ Hs) as Hp.
  destruct (retrieval_logs s) as [|entry logs] eqn:Hl; [done|].
  cbv zeta. eexists _, _.
  split; [by rewrite lookup_insert_ne, lookup_insert_eq|].
  split; [rewrite !lookup_insert_ne by done; by rewrite lookup_insert_eq|].
  split; [rewrite lookup_insert_eq; do 2 f_equal; lia|].
  split; [lia|]. split; [lia|]. lia.
Qed.

Lemma retrieval_stats_add_up_witness :
  exists successful failed,
    get_retrieval_stats ex_logged_retriever !! "successful_retrievals"
      = Some (PInt successful)
    /\ get_retrieval_stats ex_logged_retriever !! "failed_retrievals"
       = Some (PInt failed)
    /\ get_retrieval_stats ex_logged_retriever !! "total_retrievals"
       = Some (PInt (successful + failed))
    /\ 0 <= successful /\ 0 <= failed
    /\ successful + failed
       = Z.of_nat (length (retrieval_logs ex_logged_retriever)).
Proof.
  apply (retrieval_stats_add_up ex_logged_retriever).
  - constructor; [left; vm_compute; reflexivity|].
    constructor; [right; vm_compute; reflexivity|constructor].
  - discriminate.
Defined.



End log_properties.

(** * Collections *)

Section collection_properties.

Import ChromaVectorDB SemanticRetriever Examples.

Lemma create_collection_built build name metadata created db :
  build name (default ∅ metadata) = Ok created ->
  create_collection build name metadata db =
    (Ok tt, {| client := <[name := created]> (client db);
               collection := Some created |}).
Proof.
  intros Hb.
  unfold create_collection, try_except, bind, client_delete_collection,
    client_create_collection, modify, ret.
  destruct (client db !! name) as [old|] eqn:Hc; simpl; rewrite Hb.
  - rewrite lookup_delete_eq. simpl. by rewrite insert_delete_eq.
  - by rewrite Hc.
Qed.

Lemma create_collection_refused build name metadata e db :
  build name (default ∅ metadata) = Raise e ->
  create_collection build name metadata db =
    (Raise e, {| client := delete name (client db);
                 collection := collection db |}).
Proof.
  intros Hb.
  unfold create_collection, try_except, bind, client_delete_collection,
    client_create_collection, modify, ret.
  destruct (client db !! name) as [old|] eqn:Hc; simpl; rewrite Hb; [done|].
  rewrite delete_id by done. by destruct db.
Qed.

Lemma get_collection_held name col db :
  client db !! name = Some col ->
  get_collection name db =
    (Ok tt, {| client := client db; collection := Some col |}).
Proof.
  intros Hc. unfold get_collection, try_except, bind, client_get_collection,
    modify. by rewrite Hc.
Qed.

Lemma get_collection_missing name db :
  client db !! name = None ->
  exists e, get_collection name db = (Raise e, db).
Proof.
  intros Hc. unfold get_collection, try_except, bind, client_get_collection,
    modify, lift. rewrite Hc. by eexists.
Qed.

Lemma delete_collection_held name col db :
  client db !! name = Some col ->
  delete_collection name db =
    (Ok tt, {| client := delete name (client db); collection := None |}).
Proof.
  intros Hc. unfold delete_collection, try_except, bind,
    client_delete_collection, modify. by rewrite Hc.
Qed.

Lemma delete_collection_missing name db :
  client db !! name = None ->
  exists e, delete_collection name db = (Raise e, db).
Proof.
  intros Hc. unfold delete_collection, try_except, bind,
    client_delete_collection, modify, lift. rewrite Hc. by eexists.
Qed.

Lemma list_collections_elem (db : ChromaVectorDB.t) (n : string) :
  names_agree db ->
  In n (list_collections db) <-> is_Some (client db !! n).
Proof.
  intros Hn. unfold list_collections. rewrite in_map_iff. split.
  - intros ([key c] & <- & Hin). simpl.
    apply (proj2 (list_elem_of_In _ _)) in Hin.
    apply elem_of_map_to_list in Hin.
    rewrite (Hn key c Hin). by exists c.
  - intros [c Hc]. exists (n, c). split; [simpl; by apply Hn|].
    apply list_elem_of_In. by apply elem_of_map_to_list.
Qed.

(** X8. [create_collection] deletes the collection of the name, if the
    client holds one, before it asks the client for a new collection with
    [metadata or {}].  When the client refuses the name or the metadata,
    [create_collection] raises what the client raised, the earlier
    collection of that name is gone and the selection is as it was.  When
    the client builds the collection, that new collection, never the earlier
    one, is registered under the name and selected; the other collections
    are untouched, [get_collection] of the name then succeeds without
    changing anything, and when the client keeps every collection under its
    own name it still does and the name is listed by [list_collections]. *)
Theorem create_collection_outcome build name metadata db :
  (forall e,
     build name (default ∅ metadata) = Raise e ->
     create_collection build name metadata db =
       (Raise e, {| client := delete name (client db);
                    collection := collection db |}))
  /\ (forall created,
        build name (default ∅ metadata) = Ok created ->
        exists db',
          create_collection build name metadata db = (Ok tt, db')
          /\ client db' !! name = Some created
          /\ collection db' = Some created
          /\ (forall other, other <> name ->
                client db' !! other = client db !! other)
          /\ get_collection name db' = (Ok tt, db')
          /\ (ChromaVectorDB.name created = name -> names_agree db ->
                names_agree db' /\ In name (list_collections db'))).
Proof.
  split; [intros e; apply create_collection_refused|].
  intros created Hb.
  eexists. split; [by apply create_collection_built|]. simpl.
  split; [by rewrite lookup_insert_eq|]. split; [done|].
  split; [intros other Ho; by rewrite lookup_insert_ne|].
  split.
  - erewrite get_collection_held; [done|]. simpl. by rewrite lookup_insert_eq.
  - intros Hname Hagree.
    assert (names_agree {| client := <[name := created]> (client db);
                           collection := Some created |}) as Hagree'.
    { intros key c. simpl. destruct (decide (key = name)) as [->|Hne].
      - rewrite lookup_insert_eq. by intros [= <-].
      - rewrite lookup_insert_ne by done. apply Hagree. }
    split; [done|]. apply list_collections_elem; [done|]. simpl.
    rewrite lookup_insert_eq. by eexists.
Qed.

Lemma create_collection_outcome_witness :
  (exists e db',
     create_collection ex_strict_builder "red_cross" None ex_db = (Raise e, db')
     /\ exc_class e = "ValueError"
     /\ client db' !! "red_cross" = None
     /\ collection db' = Some ex_collection)
  /\ (exists db',
        create_collection ex_lenient_builder "red_cross" None ex_db
          = (Ok tt, db')
        /\ client db' !! "red_cross"
           = Some {| ChromaVectorDB.name := "red_cross";
                     ChromaVectorDB.query := ChromaVectorDB.query ex_collection |}).
Proof.
  destruct (create_collection_outcome ex_strict_builder "red_cross" None ex_db)
    as [Hrefused _].
  destruct (create_collection_outcome ex_lenient_builder "red_cross" None ex_db)
    as [_ Hbuilt].
  split.
  - eexists _, _. split; [apply Hrefused; reflexivity|].
    split; [reflexivity|]. split; [vm_compute; reflexivity|reflexivity].
  - destruct (Hbuilt _ eq_refl) as (db' & Hrun & Hlookup & _).
    by exists db'.
Defined.

(** X9. [delete_collection] of a name the client does not hold raises and
    changes nothing.  Of a name it holds, it removes that collection and
    clears the selection, whichever collection was selected: afterwards
    [get_collection] of the name raises, every [search] returns the empty
    list, and the name is no longer listed by [list_collections]. *)
Theorem delete_collection_effect name db :
  (client db !! name = None ->
     exists e, delete_collection name db = (Raise e, db))
  /\ (is_Some (client db !! name) ->
        exists db',
          delete_collection name db = (Ok tt, db')
          /\ client db' = delete name (client db)
          /\ collection db' = None
          /\ (exists e, get_collection name db' = (Raise e, db'))
          /\ (forall qe n filter threshold,
                search db' qe n filter threshold = [])
          /\ (names_agree db ->
                names_agree db' /\ ~ In name (list_collections db'))).
Proof.
  split; [apply delete_collection_missing|].
  intros [col Hc]. eexists. split; [by apply (delete_collection_held _ col)|].
  simpl. split; [done|]. split; [done|]. split.
  { apply get_collection_missing. simpl. by rewrite lookup_delete_eq. }
  split; [done|]. intros Hagree.
  assert (names_agree {| client := delete name (client db);
                         collection := None |}) as Hagree'.
  { intros key c. simpl. intros Hl. apply lookup_delete_Some in Hl as [_ Hl].
    by apply Hagree. }
  split; [done|]. rewrite list_collections_elem by done. simpl.
  rewrite lookup_delete_eq. by intros [? ?].
Qed.

End collection_properties.

(** * Search of the embedding pipeline *)

Section pipeline_properties.

Import ChromaVectorDB Examples.

(** X24. When the query is embedded, [EmbeddingPipeline.search] returns a
    list: only items whose similarity is at least 0.3, the default threshold
    of the database search, with strictly increasing ranks, and the empty
    list when no collection is selected (it selects none itself).  When the
    embedding raises, it logs the failure and returns the empty list if the
    logger accepts the message, and raises what the logger raises
    otherwise. *)
Theorem pipeline_search_results log_error embed_query vector_db query
    charity_name n_results :
  (forall query_embedding,
     embed_query query = Ok query_embedding ->
     exists results,
       EmbeddingPipeline.search log_error embed_query vector_db query
         charity_name n_results = Ok results
       /\ (forall r, In r results ->
             (0x1.3333333333333p-2 <=? similarity r)%float = true)
       /\ in_rank_order results
       /\ (collection vector_db = None -> results = []))
  /\ (forall e,
        embed_query query = Raise e ->
        (log_error ("Search failed: " +:+ exc_message e) = Ok tt ->
         EmbeddingPipeline.search log_error embed_query vector_db query
           charity_name n_results = Ok [])
        /\ (forall e',
              log_error ("Search failed: " +:+ exc_message e) = Raise e' ->
              EmbeddingPipeline.search log_error embed_query vector_db query
                charity_name n_results = Raise e')).
Proof.
  unfold EmbeddingPipeline.search. split.
  - intros qe ->. eexists. split; [done|].
    split; [intros r Hr; by apply search_In in Hr as [Hr _]|].
    split; [apply search_in_rank_order|].
    intros Hc. unfold search. by rewrite Hc.
  - intros e ->. split; [by intros ->|]. by intros e' ->.
Qed.

Lemma pipeline_search_results_witness :
  (exists results,
     EmbeddingPipeline.search ex_logger (fun _ => Ok [0.25%float; 0.5%float])
       ex_db "who runs blood drives" "Red Cross" 5 = Ok results
     /\ (forall r, In r results ->
           (0x1.3333333333333p-2 <=? similarity r)%float = true)
     /\ in_rank_order results
     /\ (collection ex_db = None -> results = []))
  /\ (exists e',
        EmbeddingPipeline.search ex_logger
          (fun _ => Raise {| exc_class := "RuntimeError";
                             exc_message := "bad token {" |})
          ex_db "who runs blood drives" "Red Cross" 5 = Raise e').
Proof.
  split.
  - destruct (pipeline_search_results ex_logger
                (fun _ => Ok [0.25%float; 0.5%float]) ex_db
                "who runs blood drives" "Red Cross" 5) as [Hok _].
    exact (Hok _ eq_refl).
  - destruct (pipeline_search_results ex_logger
                (fun _ => Raise {| exc_class := "RuntimeError";
                                   exc_message := "bad token {" |}) ex_db
                "who runs blood drives" "Red Cross" 5) as [_ Hraise].
    destruct (Hraise _ eq_refl) as [_ Hlogger].
    eexists. apply Hlogger. vm_compute. reflexivity.
Defined.

End pipeline_properties.

(** * Further properties of the context builder *)

Section context_properties.

Import ChromaVectorDB SemanticRetriever ContextBuilder Examples.

Arguments total_tokens : simpl never.

Lemma context_loop_extends chunks max_tokens include_sources parts token_count :
  exists more,
    fst (context_loop chunks max_tokens include_sources parts token_count)
      = parts ++ more.
Proof.
  destruct (context_loop_prefix chunks max_tokens include_sources parts
              token_count) as (n & _ & -> & _).
  by eexists.
Qed.

Lemma context_loop_monotone chunks include_sources :
  forall low high parts token_count,
    low <= high ->
    exists more,
      fst (context_loop chunks high include_sources parts token_count)
        = fst (context_loop chunks low include_sources parts token_count)
          ++ more.
Proof.
  induction chunks as [|c chunks IH]; intros low high parts token_count Hle;
    simpl.
  - exists []. by rewrite app_nil_r.
  - destruct (low <? token_count + chunk_tokens (text c)) eqn:Hl.
    + destruct (high <? token_count + chunk_tokens (text c)).
      * exists []. by rewrite app_nil_r.
      * simpl.
        destruct (context_loop_extends chunks high include_sources
                    (parts ++ [format_chunk include_sources c])
                    (token_count + chunk_tokens (text c))) as (more & ->).
        rewrite <- app_assoc. by eexists.
    + apply Z.ltb_ge in Hl.
      assert ((high <? token_count + chunk_tokens (text c)) = false) as ->
        by (apply Z.ltb_ge; lia).
      by apply IH.
Qed.

Lemma context_loop_count chunks max_tokens include_sources :
  exists n : nat,
    (n <= length chunks)%nat
    /\ fst (context_loop chunks max_tokens include_sources [] 0)
       = map (format_chunk include_sources) (take n chunks).
Proof.
  destruct (context_loop_prefix chunks max_tokens include_sources [] 0)
    as (n & Hn & -> & _).
  by exists n.
Qed.

Lemma build_context_parts c chunks max_tokens include_sources :
  build_context (c :: chunks) max_tokens include_sources
  = PyStr.join separator
      (fst (context_loop (c :: chunks) max_tokens include_sources [] 0)).
Proof.
  unfold build_context. by destruct (context_loop _ _ _ _ _).
Qed.

(** X17. A larger budget never shortens the context: for
    [low <= high], [build_context] with [max_tokens = high] includes at
    least the chunks it includes with [max_tokens = low], both taking a
    prefix of the results. *)
Theorem build_context_budget_monotone chunks include_sources low high :
  low <= high ->
  chunks <> [] ->
  exists n_low n_high : nat,
    (n_low <= n_high <= length chunks)%nat
    /\ build_context chunks low include_sources
       = PyStr.join separator
           (map (format_chunk include_sources) (take n_low chunks))
    /\ build_context chunks high include_sources
       = PyStr.join separator
           (map (format_chunk include_sources) (take n_high chunks)).
Proof.
  intros Hle Hne. destruct chunks as [|c chunks]; [done|].
  destruct (context_loop_count (c :: chunks) low include_sources)
    as (n_low & Hlow & Elow).
  destruct (context_loop_count (c :: chunks) high include_sources)
    as (n_high & Hhigh & Ehigh).
  destruct (context_loop_monotone (c :: chunks) include_sources low high [] 0
              Hle) as (more & Hmore).
  exists n_low, n_high.
  rewrite !build_context_parts, Elow, Ehigh.
  split; [|done]. split; [|done].
  rewrite Elow, Ehigh in Hmore.
  apply (f_equal length) in Hmore.
  rewrite length_app, !length_map, !length_take in Hmore. lia.
Qed.

Lemma context_loop_all chunks include_sources :
  forall max_tokens parts token_count,
    token_count + total_tokens chunks <= max_tokens ->
    context_loop chunks max_tokens include_sources parts token_count
      = (parts ++ map (format_chunk include_sources) chunks,
         token_count + total_tokens chunks).
Proof.
  induction chunks as [|c chunks IH]; intros max_tokens parts token_count Hfit.
  - simpl. rewrite app_nil_r. unfold total_tokens. simpl. f_equal. lia.
  - rewrite total_tokens_cons in Hfit. simpl.
    pose proof (total_tokens_nonneg chunks).
    assert ((max_tokens <? token_count + chunk_tokens (text c)) = false) as ->
      by (apply Z.ltb_ge; lia).
    rewrite IH by lia. rewrite <- app_assoc. simpl.
    rewrite total_tokens_cons. f_equal. lia.
Qed.

Lemma build_context_budget_monotone_witness :
  exists n_low n_high : nat,
    (n_low <= n_high <= length ex_three_hits)%nat
    /\ build_context ex_three_hits 4 false
       = PyStr.join separator
           (map (format_chunk false) (take n_low ex_three_hits))
    /\ build_context ex_three_hits 10 false
       = PyStr.join separator
           (map (format_chunk false) (take n_high ex_three_hits)).
Proof.
  apply (build_context_budget_monotone ex_three_hits false 4 10);
    [lia|discriminate].
Defined.

(** X18. When the estimated tokens of all the results fit in [max_tokens],
    [build_context] includes every one of them, in order. *)
Theorem build_context_includes_all chunks max_tokens include_sources :
  chunks <> [] ->
  total_tokens chunks <= max_tokens ->
  build_context chunks max_tokens include_sources
  = PyStr.join separator (map (format_chunk include_sources) chunks).
Proof.
  intros Hne Hfit. destruct chunks as [|c chunks]; [done|].
  rewrite build_context_parts.
  by rewrite context_loop_all by lia.
Qed.

Lemma last_char_append (a b : string) :
  b <> EmptyString -> last_char (a +:+ b) = last_char b.
Proof.
  intros Hb. induction a as [|c a IH]; [done|].
  rewrite append_cons.
  change (last_char (String c (a +:+ b))) with
    (match a +:+ b with
     | EmptyString => Some c
     | _ => last_char (a +:+ b)
     end).
  destruct (a +:+ b) eqn:E; [|done].
  destruct a; [|done]. by rewrite append_empty_l in E.
Qed.

Lemma format_chunk_last include_sources c :
  last_char (format_chunk include_sources c) = Some "010"%char.
Proof.
  unfold format_chunk. destruct include_sources.
  - rewrite <- !append_assoc. by rewrite last_char_append.
  - by rewrite last_char_append.
Qed.

Lemma join_last sep parts p :
  Forall (fun q => last_char q = Some "010"%char) (p :: parts) ->
  last_char (PyStr.join sep (p :: parts)) = Some "010"%char.
Proof.
  revert p. induction parts as [|q parts IH]; intros p Hall.
  - by inversion Hall.
  - inversion Hall as [|? ? Hp Hrest]; subst.
    change (PyStr.join sep (p :: q :: parts))
      with (p +:+ sep +:+ PyStr.join sep (q :: parts)).
    specialize (IH q Hrest).
    rewrite <- append_assoc, last_char_append; [done|].
    intros E. by rewrite E in IH.
Qed.

Lemma build_context_includes_all_witness :
  build_context ex_three_hits 2000 true
  = PyStr.join separator (map (format_chunk true) ex_three_hits).
Proof.
  apply (build_context_includes_all ex_three_hits 2000 true);
    [discriminate|vm_compute; discriminate].
Defined.

(** X19. [build_context] returns the sentence "No relevant information
    found." exactly when it is given no result, and the empty string exactly
    when the first result alone is estimated above [max_tokens]: results
    that do not fit give an empty context, not the sentence. *)
Theorem build_context_degenerate_results chunks max_tokens include_sources :
  (build_context chunks max_tokens include_sources
     = "No relevant information found." <-> chunks = [])
  /\ (build_context chunks max_tokens include_sources = EmptyString <->
        exists c rest,
          chunks = c :: rest /\ max_tokens < chunk_tokens (text c)).
Proof.
  destruct chunks as [|c chunks].
  { split; [done|]. split; [done|]. by intros (? & ? & ? & _). }
  rewrite build_context_parts.
  destruct (context_loop_prefix (c :: chunks) max_tokens include_sources [] 0)
    as (n & Hn & -> & Hfit & Hstop).
  simpl fst. destruct n as [|n].
  - simpl. split; [done|]. split; [|done]. intros _. exists c, chunks.
    split; [done|]. specialize (Hstop c eq_refl).
    unfold total_tokens in Hstop. simpl in Hstop. lia.
  - assert (last_char
              (PyStr.join separator
                 (map (format_chunk include_sources) (take (S n) (c :: chunks))))
            = Some "010"%char) as Hlast.
    { simpl. apply join_last. constructor; [apply format_chunk_last|].
      apply List.Forall_forall. intros q Hq.
      apply in_map_iff in Hq as (x & <- & _). apply format_chunk_last. }
    split; split; try done.
    + intros E. by rewrite E in Hlast.
    + intros E. by rewrite E in Hlast.
    + intros (c' & rest & [= <- <-] & Hbig).
      assert ((0 < 1 <= S n)%nat) as H1 by lia.
      specialize (Hfit 1%nat H1). simpl in Hfit.
      rewrite total_tokens_cons in Hfit. unfold total_tokens in Hfit.
      simpl in Hfit. lia.
Qed.

End context_properties.

(** * Conversation window *)

Section window_properties.

Import ConversationWindow Examples.

Lemma py_suffix_positive {A} (xs : list A) (k : Z) :
  0 < k ->
  py_suffix xs k = drop (length xs - Z.to_nat k) xs.
Proof.
  intros Hk. unfold py_suffix, slice_bound.
  assert ((- k <? 0) = true) as -> by (apply Z.ltb_lt; lia).
  f_equal. lia.
Qed.

Lemma py_suffix_zero {A} (xs : list A) : py_suffix xs 0 = xs.
Proof. unfold py_suffix, slice_bound. simpl. by rewrite Z.min_l by lia. Qed.

Lemma py_suffix_length {A} (xs : list A) (k : Z) :
  0 < k ->
  Z.of_nat (length (py_suffix xs k)) = Z.min k (Z.of_nat (length xs)).
Proof.
  intros Hk. rewrite py_suffix_positive by done. rewrite length_drop. lia.
Qed.

Lemma py_suffix_app {A} (older recent : list A) (k : Z) :
  0 < k -> Z.of_nat (length recent) = k ->
  py_suffix (older ++ recent) k = recent.
Proof.
  intros Hk Hlen. rewrite py_suffix_positive by done.
  rewrite length_app.
  replace (length older + length recent - Z.to_nat k)%nat
    with (length older) by lia.
  by rewrite drop_app_length.
Qed.

Lemma add_message_messages window role content :
  0 < max_messages window ->
  messages (add_message window role content)
  = py_suffix (messages window ++ [{| role := role; content := content |}])
      (max_messages window).
Proof.
  intros Hk. unfold add_message, _trim_window. simpl.
  destruct (_ <? _) eqn:E; [done|]. simpl.
  apply Z.ltb_ge in E. rewrite py_suffix_positive by done.
  replace (_ - _)%nat with 0%nat by lia. done.
Qed.

(** X20. With a positive [max_messages], [add_message] keeps the window
    within the limit whatever its length was: afterwards the window holds
    [min(max_messages, n + 1)] messages, they are the last ones of the old
    messages followed by the new message, which is the last; so with a limit
    of at most 20 [should_summarize] is false after every [add_message]. *)
Theorem add_message_keeps_latest window role content :
  0 < max_messages window ->
  max_messages (add_message window role content) = max_messages window
  /\ Z.of_nat (length (messages (add_message window role content)))
     = Z.min (max_messages window) (Z.of_nat (length (messages window)) + 1)
  /\ last (messages (add_message window role content))
     = Some {| role := role; content := content |}
  /\ (exists dropped,
        messages window ++ [{| role := role; content := content |}]
        = dropped ++ messages (add_message window role content))
  /\ (max_messages window <= 20 ->
        should_summarize (add_message window role content) = false).
Proof.
  intros Hk.
  assert (max_messages (add_message window role content) = max_messages window)
    as Hmax.
  { unfold add_message, _trim_window. simpl. by destruct (_ <? _). }
  pose proof (add_message_messages window role content Hk) as Hm.
  assert (Z.of_nat (length (messages (add_message window role content)))
          = Z.min (max_messages window)
              (Z.of_nat (length (messages window)) + 1)) as Hlen.
  { rewrite Hm, py_suffix_length by done. rewrite length_app. simpl. lia. }
  split; [done|]. split; [done|]. split.
  { rewrite Hm, py_suffix_positive by done.
    rewrite length_app. simpl.
    rewrite drop_app_le by lia. by rewrite last_snoc. }
  split.
  { rewrite Hm, py_suffix_positive by done.
    eexists. by rewrite take_drop. }
  intros Hsmall. unfold should_summarize. rewrite Hlen.
  apply Z.ltb_ge. lia.
Qed.

Lemma add_message_keeps_latest_witness :
  ConversationWindow.max_messages (add_message (ex_window 2) "user" "thanks")
    = 2
  /\ Z.of_nat (length (messages (add_message (ex_window 2) "user" "thanks")))
     = Z.min 2 (Z.of_nat (length ex_messages) + 1)
  /\ last (messages (add_message (ex_window 2) "user" "thanks"))
     = Some {| role := "user"; content := "thanks" |}
  /\ (exists dropped,
        ex_messages ++ [{| role := "user"; content := "thanks" |}]
        = dropped ++ messages (add_message (ex_window 2) "user" "thanks"))
  /\ (2 <= 20 ->
        should_summarize (add_message (ex_window 2) "user" "thanks") = false).
Proof.
  apply (add_message_keeps_latest (ex_window 2) "user" "thanks").
  simpl. lia.
Defined.

(** X21. With [max_messages = 0] the window is never trimmed: the slice
    [messages[-0:]] is the whole list, so [add_message] keeps every
    message. *)
Theorem add_message_zero_limit_keeps_all window role content :
  max_messages window = 0 ->
  messages (add_message window role content)
  = messages window ++ [{| role := role; content := content |}].
Proof.
  intros Hk. unfold add_message, _trim_window. simpl. rewrite Hk.
  destruct (_ <? _); [|done]. simpl. apply py_suffix_zero.
Qed.

Lemma add_message_zero_limit_keeps_all_witness :
  messages (add_message (ex_window 0) "user" "thanks")
  = ex_messages ++ [{| role := "user"; content := "thanks" |}].
Proof.
  apply (add_message_zero_limit_keeps_all (ex_window 0) "user" "thanks").
  reflexivity.
Defined.

(** X22. [get_context] shows the last four messages only: whatever older
    messages the window holds, the context is the lines of the last four,
    one per message and joined by a line feed. *)
Theorem get_context_last_four window older recent :
  length recent = 4%nat ->
  get_context (with_messages window (older ++ recent))
  = PyStr.join PyStr.nl (map context_line recent)
  /\ get_context (with_messages window (older ++ recent))
     = get_context (with_messages window recent).
Proof.
  intros Hlen.
  assert (forall front, get_context (with_messages window (front ++ recent))
            = PyStr.join PyStr.nl (map context_line recent)) as H.
  { intros front. unfold get_context. simpl.
    rewrite py_suffix_app by lia.
    destruct (front ++ recent) eqn:E; [|done].
    apply app_eq_nil in E as [_ ->]. done. }
  split; [apply H|]. rewrite H. by rewrite <- (H []).
Qed.

Lemma filter_role_counts (msgs : list Message) :
  (length (List.filter (fun m => String.eqb (role m) "user") msgs)
   + length (List.filter (fun m => String.eqb (role m) "assistant") msgs)
   <= length msgs)%nat
  /\ (Forall (fun m => role m = "user" \/ role m = "assistant") msgs ->
      (length (List.filter (fun m => String.eqb (role m) "user") msgs)
       + length (List.filter (fun m => String.eqb (role m) "assistant") msgs)
       = length msgs)%nat).
Proof.
  induction msgs as [|m msgs [IH1 IH2]]; [done|]. simpl.
  destruct (String.eqb (role m) "user") eqn:Eu.
  - apply String.eqb_eq in Eu. rewrite Eu. simpl. split; [lia|].
    intros Hall. inversion Hall; subst. specialize (IH2 ltac:(done)). lia.
  - destruct (String.eqb (role m) "assistant") eqn:Ea; simpl.
    + split; [lia|]. intros Hall. inversion Hall; subst.
      specialize (IH2 ltac:(done)). lia.
    + split; [lia|]. intros Hall. inversion Hall as [|? ? [Hm|Hm] ?]; subst.
      * rewrite Hm in Eu. done.
      * rewrite Hm in Ea. done.
Qed.

Lemma get_context_last_four_witness :
  get_context (with_messages (ex_window 10) (ex_messages ++ ex_messages ++ ex_messages))
  = PyStr.join PyStr.nl (map context_line (ex_messages ++ ex_messages))
  /\ get_context (with_messages (ex_window 10)
                    (ex_messages ++ ex_messages ++ ex_messages))
     = get_context (with_messages (ex_window 10) (ex_messages ++ ex_messages)).
Proof.
  apply (get_context_last_four (ex_window 10) ex_messages
           (ex_messages ++ ex_messages)).
  reflexivity.
Defined.

(** X23. In [get_stats] the user and the assistant messages never count
    more than [total_messages], and they add up to it when every message of
    the window has the role ['user'] or ['assistant']. *)
Theorem get_stats_counts window :
  exists total users assistants,
    get_stats window = (total, users, assistants)
    /\ 0 <= users /\ 0 <= assistants
    /\ users + assistants <= total
    /\ (Forall (fun m => role m = "user" \/ role m = "assistant")
          (messages window) -> users + assistants = total).
Proof.
  unfold get_stats. eexists _, _, _. split; [done|].
  destruct (filter_role_counts (messages window)) as [H1 H2].
  split; [lia|]. split; [lia|]. split; [lia|].
  intros Hall. specialize (H2 Hall). lia.
Qed.

End window_properties.

(** * Question answering *)

Section rag_properties.

Import ChromaVectorDB PromptFormatter RAGSystem Examples.

Arguments format_user_prompt : simpl never.
Arguments format_fallback_prompt : simpl never.
Arguments rag_system_prompt : simpl never.
Arguments ContextBuilder.build_context : simpl never.
Arguments source_of : simpl never.

(** The three ways through [query]: nothing retrieved, an answer of the
    provider, and an exception of the provider. *)
Lemma query_nothing_retrieved question charity_name top_k s sr :
  SemanticRetriever.retrieve question charity_name top_k (retriever s)
    = (Ok [], sr) ->
  exists s' duration stamp user_stamp assistant_stamp,
    let response :=
      format_fallback_prompt question (name_or_default charity_name) in
    let result := Success question response 0 [] duration stamp in
    query question charity_name top_k s = (Ok result, s')
    /\ retriever s' = sr
    /\ llm_calls s' = llm_calls s
    /\ grows s s'
         [{| role := "user"; content := question; timestamp := user_stamp;
             metadata :=
               {["query_type" := SemanticRetriever.LStr "retrieval"]} |};
          {| role := "assistant"; content := response;
             timestamp := assistant_stamp;
             metadata := {["sources" := SemanticRetriever.LInt 0]} |}]
         [result].
Proof.
  intros Hr. unfold query, try_except, query_body, bind, now, on_retriever.
  simpl. rewrite Hr. simpl.
  eexists _, _, _, _, _. split; [apply eq_refl|]. simpl.
  split; [done|]. split; [done|].
  repeat split; simpl; by rewrite <- ?app_assoc.
Qed.

Lemma query_answered question charity_name top_k s c chunks sr response :
  SemanticRetriever.retrieve question charity_name top_k (retriever s)
    = (Ok (c :: chunks), sr) ->
  generate s (llm_calls s) rag_system_prompt
    (format_user_prompt question
       (ContextBuilder.build_context (c :: chunks) (max_context_tokens s) true)
       (name_or_default charity_name)) = Ok response ->
  exists s' duration stamp user_stamp assistant_stamp,
    let result :=
      Success question response (Z.of_nat (length (c :: chunks)))
        (map source_of (c :: chunks)) duration stamp in
    query question charity_name top_k s = (Ok result, s')
    /\ retriever s' = sr
    /\ llm_calls s' = S (llm_calls s)
    /\ grows s s'
         [{| role := "user"; content := question; timestamp := user_stamp;
             metadata :=
               {["query_type" := SemanticRetriever.LStr "retrieval"]} |};
          {| role := "assistant"; content := response;
             timestamp := assistant_stamp;
             metadata :=
               {["sources" :=
                   SemanticRetriever.LInt
                     (Z.of_nat (length (c :: chunks)))]} |}]
         [result].
Proof.
  intros Hr Hg.
  unfold query, try_except, query_body, bind, now, on_retriever. simpl.
  rewrite Hr. simpl. unfold llm_generate. simpl. rewrite Hg. simpl.
  eexists _, _, _, _, _. split; [apply eq_refl|]. simpl.
  split; [done|]. split; [done|].
  repeat split; simpl; by rewrite <- ?app_assoc.
Qed.

Lemma query_provider_raises question charity_name top_k s c chunks sr e :
  SemanticRetriever.retrieve question charity_name top_k (retriever s)
    = (Ok (c :: chunks), sr) ->
  generate s (llm_calls s) rag_system_prompt
    (format_user_prompt question
       (ContextBuilder.build_context (c :: chunks) (max_context_tokens s) true)
       (name_or_default charity_name)) = Raise e ->
  exists r s',
    query question charity_name top_k s = (r, s')
    /\ match log_error s ("Query processing failed: " +:+ exc_message e) with
       | Ok _ => exists stamp, r = Ok (Error question (exc_message e) stamp)
       | Raise e' => r = Raise e'
       end
    /\ retriever s' = sr
    /\ llm_calls s' = S (llm_calls s)
    /\ grows s s' [] [].
Proof.
  intros Hr Hg.
  unfold query, try_except, query_body, bind, now, on_retriever. simpl.
  rewrite Hr. simpl. unfold llm_generate. simpl. rewrite Hg. simpl.
  unfold log_failure. simpl.
  destruct (log_error s ("Query processing failed: " +:+ exc_message e))
    as [u|e']; simpl.
  - eexists _, _. split; [apply eq_refl|]. split; [by eexists|]. simpl.
    split; [done|]. split; [done|].
    repeat split; simpl; by rewrite ?app_nil_r.
  - eexists _, _. split; [apply eq_refl|]. split; [done|]. simpl.
    split; [done|]. split; [done|].
    repeat split; simpl; by rewrite ?app_nil_r.
Qed.

(** X25. [query] returns a dictionary with the status ['success'] or
    ['error'], or raises what the logger raised on the message of the
    exception it was handling.  With ['success'] it has appended to the
    conversation history exactly the user message with the question and the
    assistant message with the response, and to the session log the
    dictionary it returns; in the two other cases the history and the
    session log are as they were, so a failed query leaves no trace in
    either. *)
Theorem query_records_successes_only question charity_name top_k s :
  exists r s',
    query question charity_name top_k s = (r, s')
    /\ match r with
       | Ok (Success question' response n sources duration stamp) =>
           question' = question
           /\ (exists user_stamp assistant_stamp,
                 conversation_history s' =
                   conversation_history s ++
                   [{| role := "user"; content := question;
                       timestamp := user_stamp;
                       metadata :=
                         {["query_type" :=
                             SemanticRetriever.LStr "retrieval"]} |};
                    {| role := "assistant"; content := response;
                       timestamp := assistant_stamp;
                       metadata :=
                         {["sources" := SemanticRetriever.LInt n]} |}])
           /\ session_logs s' =
                session_logs s
                ++ [Success question' response n sources duration stamp]
       | Ok (Error question' _ _) =>
           question' = question
           /\ conversation_history s' = conversation_history s
           /\ session_logs s' = session_logs s
       | Raise e' =>
           conversation_history s' = conversation_history s
           /\ session_logs s' = session_logs s
           /\ exists e,
                log_error s ("Query processing failed: " +:+ exc_message e)
                  = Raise e'
       end.
Proof.
  destruct (retrieve_returns question charity_name top_k (retriever s))
    as ([|c chunks] & sr & Hr).
  - destruct (query_nothing_retrieved _ _ _ _ _ Hr)
      as (s' & d & t0 & t1 & t2 & Hq & _ & _ & Hh & Hl & _).
    eexists _, s'. split; [exact Hq|]. split; [done|]. split; [|done].
    by exists t1, t2.
  - destruct (generate s (llm_calls s) rag_system_prompt
                (format_user_prompt question
                   (ContextBuilder.build_context (c :: chunks)
                      (max_context_tokens s) true)
                   (name_or_default charity_name))) as [response|e] eqn:Hg.
    + destruct (query_answered _ _ _ _ _ _ _ _ Hr Hg)
        as (s' & d & t0 & t1 & t2 & Hq & _ & _ & Hh & Hl & _).
      eexists _, s'. split; [exact Hq|]. split; [done|]. split; [|done].
      by exists t1, t2.
    + destruct (query_provider_raises _ _ _ _ _ _ _ _ Hr Hg)
        as (r & s' & Hq & Hlog & _ & _ & Hh & Hl & _).
      exists r, s'. split; [exact Hq|]. rewrite app_nil_r in Hh, Hl.
      destruct (log_error s ("Query processing failed: " +:+ exc_message e))
        as [u|e'] eqn:Hlogger.
      * destruct Hlog as [stamp ->]. done.
      * subst r. split; [done|]. split; [done|]. by exists e.
Qed.

(** X26. [query] asks the LLM provider exactly when the retriever returned
    something.  With no retrieved chunk it makes no call and answers, with
    the status ['success'], the fallback text for the charity name (or for
    "this organization"); otherwise it makes one call, on the prompt built
    from the context of the retrieved chunks, and returns the provider's
    response with one source per chunk.  When the provider raises, it
    returns the status ['error'] with the provider's message if the logger
    accepts the message of the failure, and it raises what the logger
    raises otherwise. *)
Theorem query_asks_provider_only_with_results question charity_name top_k s :
  exists chunks sr r s',
    SemanticRetriever.retrieve question charity_name top_k (retriever s)
      = (Ok chunks, sr)
    /\ query question charity_name top_k s = (r, s')
    /\ retriever s' = sr
    /\ (chunks = [] ->
          llm_calls s' = llm_calls s
          /\ exists duration stamp,
               r = Ok (Success question
                         (format_fallback_prompt question
                            (name_or_default charity_name))
                         0 [] duration stamp))
    /\ (chunks <> [] ->
          llm_calls s' = S (llm_calls s)
          /\ match generate s (llm_calls s) rag_system_prompt
                   (format_user_prompt question
                      (ContextBuilder.build_context chunks
                         (max_context_tokens s) true)
                      (name_or_default charity_name)) with
             | Ok response =>
                 exists duration stamp,
                   r = Ok (Success question response
                             (Z.of_nat (length chunks))
                             (map source_of chunks) duration stamp)
             | Raise e =>
                 match log_error s
                         ("Query processing failed: " +:+ exc_message e) with
                 | Ok _ =>
                     exists stamp,
                       r = Ok (Error question (exc_message e) stamp)
                 | Raise e' => r = Raise e'
                 end
             end).
Proof.
  destruct (retrieve_returns question charity_name top_k (retriever s))
    as ([|c chunks] & sr & Hr).
  - destruct (query_nothing_retrieved _ _ _ _ _ Hr)
      as (s' & d & t0 & t1 & t2 & Hq & Hs & Hc & _).
    eexists [], sr, _, s'. split; [done|]. split; [exact Hq|].
    split; [done|]. split; [|done]. intros _. split; [done|]. by exists d, t0.
  - destruct (generate s (llm_calls s) rag_system_prompt
                (format_user_prompt question
                   (ContextBuilder.build_context (c :: chunks)
                      (max_context_tokens s) true)
                   (name_or_default charity_name))) as [response|e] eqn:Hg.
    + destruct (query_answered _ _ _ _ _ _ _ _ Hr Hg)
        as (s' & d & t0 & t1 & t2 & Hq & Hs & Hc & _).
      eexists (c :: chunks), sr, _, s'. split; [done|]. split; [exact Hq|].
      split; [done|]. split; [done|]. intros _. split; [done|].
      rewrite Hg. by exists d, t0.
    + destruct (query_provider_raises _ _ _ _ _ _ _ _ Hr Hg)
        as (r & s' & Hq & Hlog & Hs & Hc & _).
      exists (c :: chunks), sr, r, s'. split; [done|]. split; [exact Hq|].
      split; [done|]. split; [done|]. intros _. split; [done|].
      by rewrite Hg.
Qed.

(** With the example logger, a provider error whose message holds braces
    makes [query] raise, and one without braces gives the error
    dictionary. *)
Example query_logger_raises :
  fst (query "who runs blood drives" (Some "Red Cross") None
         (ex_rag_system ex_unauthorized ex_logger))
    = Raise {| exc_class := "KeyError"; exc_message := "'error'" |}
  /\ fst (query "who runs blood drives" (Some "Red Cross") None
            (ex_rag_system ex_unreachable ex_logger))
     = Ok (Error "who runs blood drives" "Connection error." 1000).
Proof. split; vm_compute; reflexivity. Qed.

Lemma filter_all_success (logs : list QueryResult) :
  Forall (fun r => is_success r = true) logs ->
  List.filter is_success logs = logs.
Proof.
  induction 1 as [|r logs Hr _ IH]; [done|]. simpl. by rewrite Hr, IH.
Qed.

(** X27. The session log holds successful queries only: when every entry
    of [session_logs] has the status ['success'] before a call of [query],
    so has every entry after it, and [get_session_stats] then reports
    ['failed_queries'] as 0 and as many successful queries as queries,
    whatever number of queries failed. *)
Theorem session_log_holds_successes_only question charity_name top_k s r s' :
  Forall (fun r => is_success r = true) (session_logs s) ->
  query question charity_name top_k s = (r, s') ->
  Forall (fun r => is_success r = true) (session_logs s')
  /\ failed_queries (get_session_stats s') = 0
  /\ successful_queries (get_session_stats s')
     = total_queries (get_session_stats s').
Proof.
  intros Hall Hq.
  assert (Forall (fun r => is_success r = true) (session_logs s')) as Hall'.
  { destruct (retrieve_returns question charity_name top_k (retriever s))
      as ([|c chunks] & sr & Hr).
    - destruct (query_nothing_retrieved _ _ _ _ _ Hr)
        as (s2 & d & t0 & t1 & t2 & Hq2 & _ & _ & _ & Hl & _).
      rewrite Hq in Hq2. injection Hq2 as -> ->. rewrite Hl.
      apply Forall_app. split; [done|]. by repeat constructor.
    - destruct (generate s (llm_calls s) rag_system_prompt
                  (format_user_prompt question
                     (ContextBuilder.build_context (c :: chunks)
                        (max_context_tokens s) true)
                     (name_or_default charity_name))) as [response|e] eqn:Hg.
      + destruct (query_answered _ _ _ _ _ _ _ _ Hr Hg)
          as (s2 & d & t0 & t1 & t2 & Hq2 & _ & _ & _ & Hl & _).
        rewrite Hq in Hq2. injection Hq2 as -> ->. rewrite Hl.
        apply Forall_app. split; [done|]. by repeat constructor.
      + destruct (query_provider_raises _ _ _ _ _ _ _ _ Hr Hg)
          as (r2 & s2 & Hq2 & _ & _ & _ & _ & Hl & _).
        rewrite Hq in Hq2. injection Hq2 as -> ->. rewrite Hl.
        by rewrite app_nil_r. }
  split; [done|]. unfold get_session_stats. simpl.
  rewrite filter_all_success by done. split; [lia|done].
Qed.

Lemma session_log_holds_successes_only_witness :
  Forall (fun r => is_success r = true)
    (session_logs
       (snd (query "who runs blood drives" (Some "Red Cross") None
               (ex_rag_system ex_unreachable ex_logger))))
  /\ failed_queries
       (get_session_stats
          (snd (query "who runs blood drives" (Some "Red Cross") None
                  (ex_rag_system ex_unreachable ex_logger)))) = 0
  /\ successful_queries
       (get_session_stats
          (snd (query "who runs blood drives" (Some "Red Cross") None
                  (ex_rag_system ex_unreachable ex_logger))))
     = total_queries
         (get_session_stats
            (snd (query "who runs blood drives" (Some "Red Cross") None
                    (ex_rag_system ex_unreachable ex_logger)))).
Proof.
  eapply (session_log_holds_successes_only "who runs blood drives"
            (Some "Red Cross") None (ex_rag_system ex_unreachable ex_logger)).
  - constructor.
  - apply surjective_pairing.
Defined.

Lemma str_prefix_length n text :
  String.length (str_prefix n text) = Nat.min n (String.length text).
Proof.
  revert text. induction n as [|n IH]; intros [|c text]; simpl; try done.
  by rewrite IH.
Qed.

Lemma str_prefix_whole n text :
  (String.length text <= n)%nat -> str_prefix n text = text.
Proof.
  revert text. induction n as [|n IH]; intros [|c text]; simpl; try done.
  - lia.
  - intros Hle. rewrite IH; [done|lia].
Qed.

Lemma string_length_append (a b : string) :
  String.length (a +:+ b) = (String.length a + String.length b)%nat.
Proof.
  induction a as [|c a IH]; [done|]. rewrite append_cons. simpl.
  by rewrite IH.
Qed.

(** X28. A source of a result shows at most the first hundred characters of
    its chunk, always followed by an ellipsis, also when nothing was cut: its
    text has [min(100, n) + 3] characters for a chunk of [n], and it keeps
    the similarity of the chunk. *)
Theorem source_text_is_bounded (chunk : RetrievedResult) :
  String.length (source_text (source_of chunk))
    = (Nat.min 100 (String.length (text chunk)) + 3)%nat
  /\ (String.length (source_text (source_of chunk)) <= 103)%nat
  /\ ((String.length (text chunk) <= 100)%nat ->
        source_text (source_of chunk) = text chunk +:+ "...")
  /\ source_similarity (source_of chunk) = similarity chunk.
Proof.
  unfold source_of. cbn [source_text source_similarity].
  rewrite string_length_append, str_prefix_length.
  change (String.length "...") with 3%nat.
  split; [done|]. split; [lia|]. split; [|done].
  intros Hle. by rewrite str_prefix_whole.
Qed.

End rag_properties.
